(** * EduManage configuration subsystem: store, validation and REST handlers

    A shallow embedding of
    - [backend/models/Configuration.js] (schema, [formattedValue],
      [validateValue], the statics, the pre-save hook),
    - [backend/middleware/auth.js] ([auth], [authorize]),
    - [backend/routes/configurations.js] (public, create, update, delete,
      bulk-update and reset handlers),
    - [backend/scripts/seedConfigurations.js],
    - [frontend/src/context/ConfigurationContext.js] (the configurations
      the provider falls back to).

    Conventions of the model
    - The built-ins of the JavaScript engine that convert between text and
      numbers, parse JSON and match regular expressions are a parameter of
      the model, the class [Runtime]: the functions of the source are
      translated over an arbitrary runtime, and a theorem that needs a fact
      about the engine states it as a hypothesis.  [Reference.reference] is
      one runtime, written out for numeric literals rounded to binary64,
      Latin-1 JSON text and a fragment of the pattern language; the
      examples are computed with it.
    - A JavaScript number is written as an exact decimal [m * 10^e], an
      infinity or NaN; every binary64 number has such a form, and the
      numbers of the code are those.  Comparison is exact.
    - A JavaScript string is a [string]; every [ascii] stands for one code
      unit, so [String.length] is the JavaScript [length] on Latin-1 text.
    - Objects are plain data records that do not shadow the conversion
      methods of [Object.prototype].
    - The collection is a finite map from the unique [key] to the document.
      A key is stored trimmed, and a query by key trims its argument, as
      the [trim] setter of the schema does for both; an insert leaves out a
      Mixed value that is an empty object ([minimize]).
    - The [version] of a document is an integer; [version += 1] is the
      binary64 number nearest to the sum. *)

From Stdlib Require Import ZArith Ascii String List Bool Lia.
From stdpp Require Import gmap strings list fin_maps pretty sorting.

Set Warnings "-register-all,-clear-no-such-hyp".

Local Open Scope string_scope.
Local Open Scope Z_scope.

(** ** The JavaScript runtime used by the source *)

Module JS.

(** *** Numbers *)

Inductive number :=
| NaN
| Infinity (negative : bool)
| Fin (m e : Z).                   (* the decimal m * 10^e *)

Definition num_of_Z (z : Z) : number := Fin z 0.

Definition fin_compare (m1 e1 m2 e2 : Z) : comparison :=
  let b := Z.min e1 e2 in
  Z.compare (m1 * 10 ^ (e1 - b)) (m2 * 10 ^ (e2 - b)).

(** [isNaN] on a value that is already a number. *)
Definition isNaN (x : number) : bool :=
  match x with NaN => true | _ => false end.

Definition isFinite (x : number) : bool :=
  match x with Fin _ _ => true | _ => false end.

(** [x < y]: false as soon as one side is NaN. *)
Definition num_lt (x y : number) : bool :=
  match x, y with
  | NaN, _ | _, NaN => false
  | Infinity true, Infinity true => false
  | Infinity true, _ => true
  | _, Infinity true => false
  | Infinity false, _ => false
  | _, Infinity false => true
  | Fin m1 e1, Fin m2 e2 =>
      match fin_compare m1 e1 m2 e2 with Lt => true | _ => false end
  end.

(** [x > y] *)
Definition num_gt (x y : number) : bool := num_lt y x.

(** [x <= y]: false with a NaN, otherwise the negation of [y < x]. *)
Definition num_le (x y : number) : bool :=
  negb (isNaN x) && negb (isNaN y) && negb (num_lt y x).

(** [x === y] on numbers. *)
Definition num_eq (x y : number) : bool :=
  match x, y with
  | NaN, _ | _, NaN => false
  | Infinity a, Infinity b => Bool.eqb a b
  | Fin m1 e1, Fin m2 e2 =>
      match fin_compare m1 e1 m2 e2 with Eq => true | _ => false end
  | _, _ => false
  end.

(** The binary64 number nearest to an integer, ties going to the even
    significand.  The code's [version += 1] is the number nearest to
    [version + 1]: it is [version + 1] up to 2^53 and stays at 2^53 there. *)
Definition nearest_double (n : Z) : Z :=
  let a := Z.abs n in
  if a <? 2 ^ 53 then n
  else
    let k := Z.log2 a - 52 in
    let q := a / 2 ^ k in
    let r := a mod 2 ^ k in
    let half := 2 ^ (k - 1) in
    let q' := if (half <? r) || ((r =? half) && Z.odd q) then q + 1 else q in
    Z.sgn n * (q' * 2 ^ k).

(** *** Strings *)

Definition code (c : ascii) : N := N_of_ascii c.

(** White space and line terminators of the Latin-1 range. *)
Definition is_space (c : ascii) : bool :=
  let n := code c in
  ((9 <=? n) && (n <=? 13) || (n =? 32) || (n =? 160))%N.

Fixpoint drop_spaces (l : list ascii) : list ascii :=
  match l with
  | c :: r => if is_space c then drop_spaces r else l
  | [] => []
  end.

Definition trim_list (l : list ascii) : list ascii :=
  rev (drop_spaces (rev (drop_spaces l))).

(** [String.prototype.trim], also mongoose's [trim: true] setter. *)
Definition trim (s : string) : string :=
  string_of_list_ascii (trim_list (list_ascii_of_string s)).

(** [Array.prototype.join] on strings. *)
Fixpoint join (sep : string) (l : list string) : string :=
  match l with
  | [] => ""
  | [x] => x
  | x :: r => x +:+ sep +:+ join sep r
  end.

(** *** Values *)

Inductive jsval :=
| VUndefined
| VNull
| VBool (b : bool)
| VNum (n : number)
| VStr (s : string)
| VArr (items : list jsval)
| VObj (fields : list (string * jsval)).

(** *** Exceptions *)

Inductive exn :=
| SyntaxError (message : string)   (* JSON.parse, new RegExp *)
| Error (message : string)         (* new Error(message) *)
| ValidationError (message : string)  (* mongoose, name 'ValidationError' *)
| MongoServerError (message : string).

Inductive result (A : Type) :=
| Ok (a : A)
| Throw (e : exn).
Arguments Ok {A} a.
Arguments Throw {A} e.

Definition bind {A B} (r : result A) (k : A -> result B) : result B :=
  match r with Ok a => k a | Throw e => Throw e end.

Definition is_Ok {A} (r : result A) : bool :=
  match r with Ok _ => true | Throw _ => false end.

(** *** The built-ins of the engine

    [StringToNumber] is the Number value of a string ([Number(s)]),
    [num_to_string] is Number::toString in radix 10, [parse_JSON] is
    [JSON.parse] and [test_RegExp p s] is [new RegExp(p).test(s)]; the last
    two throw nothing but a SyntaxError, whose message is their left
    result. *)
Class Runtime := {
  StringToNumber : string -> number;
  num_to_string : number -> string;
  parse_JSON : string -> string + jsval;
  test_RegExp : string -> string -> string + bool
}.

Section Conversions.
Context {rt : Runtime}.

(** [JSON.parse(s)] *)
Definition JSON_parse (s : string) : result jsval :=
  match parse_JSON s with
  | inl m => Throw (SyntaxError m)
  | inr v => Ok v
  end.

(** [new RegExp(pattern).test(s)] *)
Definition RegExp_test (pattern s : string) : result bool :=
  match test_RegExp pattern s with
  | inl m => Throw (SyntaxError m)
  | inr b => Ok b
  end.

(** [String(v)] *)
Fixpoint ToString (v : jsval) : string :=
  match v with
  | VUndefined => "undefined"
  | VNull => "null"
  | VBool true => "true"
  | VBool false => "false"
  | VNum n => num_to_string n
  | VStr s => s
  | VArr items =>
      join "," (List.map (fun x => match x with
                               | VUndefined | VNull => ""
                               | _ => ToString x
                               end) items)
  | VObj _ => "[object Object]"
  end.

(** [Number(v)] *)
Definition ToNumber (v : jsval) : number :=
  match v with
  | VUndefined => NaN
  | VNull => Fin 0 0
  | VBool true => Fin 1 0
  | VBool false => Fin 0 0
  | VNum n => n
  | VStr s => StringToNumber s
  | VArr _ => StringToNumber (ToString v)
  | VObj _ => NaN
  end.

(** Array.prototype.join on values: null and undefined print as nothing. *)
Definition join_values (sep : string) (l : list jsval) : string :=
  join sep (List.map (fun x => match x with
                            | VUndefined | VNull => ""
                            | _ => ToString x
                            end) l).

(** [v == s] for a string [s]: a number or boolean is compared with the
    Number value of the string, an array or object with its own string
    form, and null and undefined equal no string. *)
Definition loosely_equal (v : jsval) (s : string) : bool :=
  match v with
  | VUndefined | VNull => false
  | VBool b => num_eq (if b then Fin 1 0 else Fin 0 0) (StringToNumber s)
  | VNum n => num_eq n (StringToNumber s)
  | VStr t => String.eqb t s
  | VArr _ | VObj _ => String.eqb (ToString v) s
  end.

End Conversions.

(** [Boolean(v)], the truthiness tested by [if (v)] and [!v]. *)
Definition ToBoolean (v : jsval) : bool :=
  match v with
  | VUndefined | VNull => false
  | VBool b => b
  | VNum NaN => false
  | VNum (Fin m _) => negb (m =? 0)
  | VNum (Infinity _) => true
  | VStr s => negb (String.eqb s "")
  | VArr _ | VObj _ => true
  end.

Definition isArray (v : jsval) : bool :=
  match v with VArr _ => true | _ => false end.

Definition is_undefined (v : jsval) : bool :=
  match v with VUndefined => true | _ => false end.

(** Deep equality as mongoose's change tracking uses it: strict equality on
    primitives (so NaN differs from itself), element-wise on arrays, same
    keys in the same order with equal values on objects. *)
Fixpoint deepEqual (a b : jsval) {struct a} : bool :=
  match a, b with
  | VUndefined, VUndefined => true
  | VNull, VNull => true
  | VBool x, VBool y => Bool.eqb x y
  | VNum x, VNum y => num_eq x y
  | VStr x, VStr y => String.eqb x y
  | VArr xs, VArr ys =>
      (fix go (xs ys : list jsval) {struct xs} : bool :=
         match xs, ys with
         | [], [] => true
         | x :: xs', y :: ys' => deepEqual x y && go xs' ys'
         | _, _ => false
         end) xs ys
  | VObj fs, VObj gs =>
      (fix go (fs gs : list (string * jsval)) {struct fs} : bool :=
         match fs, gs with
         | [], [] => true
         | (k, x) :: fs', (k', y) :: gs' =>
             String.eqb k k' && deepEqual x y && go fs' gs'
         | _, _ => false
         end) fs gs
  | _, _ => false
  end.

(** What [JSON.stringify] leaves of a value, read back: [None] when the
    value is left out (undefined); inside an array undefined becomes null,
    inside an object its key is left out, and NaN and the infinities become
    null. *)
Fixpoint to_JSON (v : jsval) : option jsval :=
  match v with
  | VUndefined => None
  | VNum NaN | VNum (Infinity _) => Some VNull
  | VArr items =>
      Some (VArr (List.map (fun x => match to_JSON x with
                                     | Some y => y
                                     | None => VNull
                                     end) items))
  | VObj fields =>
      Some (VObj
        ((fix go (fs : list (string * jsval)) : list (string * jsval) :=
            match fs with
            | [] => []
            | (k, x) :: fs' =>
                match to_JSON x with
                | Some y => (k, y) :: go fs'
                | None => go fs'
                end
            end) fields))
  | _ => Some v
  end.

(** What mongoose's [minimize] option leaves of a Mixed value when a new
    document is written: an object without any value left is removed
    ([VUndefined]), except as an element of an array. *)
Fixpoint minimize (v : jsval) : jsval :=
  match v with
  | VArr items =>
      VArr (List.map (fun x => match minimize x with
                               | VUndefined =>
                                   match x with
                                   | VObj _ => VObj []
                                   | _ => VUndefined
                                   end
                               | y => y
                               end) items)
  | VObj fields =>
      match (fix go (fs : list (string * jsval)) : list (string * jsval) :=
               match fs with
               | [] => []
               | (k, x) :: fs' =>
                   match minimize x with
                   | VUndefined => go fs'
                   | y => (k, y) :: go fs'
                   end
               end) fields with
      | [] => VUndefined
      | fs => VObj fs
      end
  | _ => v
  end.

End JS.

(** ** A reference runtime

    The built-ins written out: the Number value of a decimal, hexadecimal,
    octal or binary literal, rounded to the nearest binary64 number;
    Number::toString with the shortest digits that read back as the same
    number; [JSON.parse] for text whose escapes stay within Latin-1, the
    keys of an object in the order of its own property keys; and
    regular expressions in a fragment of the pattern language.  The sign of
    zero is not kept.  The theorems below hold of every runtime; this one
    gives them concrete instances. *)

Module Reference.
Import JS.

(** *** binary64 *)

(** [floor (log2 (n / d))] for positive [n] and [d]. *)
Definition floor_log2 (n d : Z) : Z :=
  let l := Z.log2 n - Z.log2 d in
  if (if 0 <=? l then d * 2 ^ l <=? n else d <=? n * 2 ^ (- l))
  then l else l - 1.

(** The binary64 number nearest to [n / d] for positive [n] and [d], as a
    significand of at most 53 bits and a binary exponent: ties go to the
    even significand, the exponent stays at that of the subnormal numbers
    or above, and [None] stands for a magnitude that rounds to 2^1024. *)
Definition nearest_binary64 (n d : Z) : option (Z * Z) :=
  let k := Z.max (floor_log2 n d - 52) (- 1074) in
  let num := if 0 <=? k then n else n * 2 ^ (- k) in
  let den := if 0 <=? k then d * 2 ^ k else d in
  let q := num / den in
  let r := num mod den in
  let q' := if (den <? 2 * r) || ((2 * r =? den) && Z.odd q)
            then q + 1 else q in
  if 2 ^ 1024 <=? q' * 2 ^ (Z.max k 0) then None else Some (q', k).

(** Drop up to [fuel] trailing zeros of a non-zero mantissa. *)
Fixpoint strip_zeros (fuel : nat) (m e : Z) : Z * Z :=
  match fuel with
  | O => (m, e)
  | S f => if (m mod 10 =? 0) then strip_zeros f (m / 10) (e + 1) else (m, e)
  end.

(** The Number value of the decimal [m * 10^e], an integer written with
    exponent 0 and a fraction without trailing zeros. *)
Definition to_double (m e : Z) : number :=
  if m =? 0 then Fin 0 0
  else
    let a := Z.abs m in
    let n := if 0 <=? e then a * 10 ^ e else a in
    let d := if 0 <=? e then 1 else 10 ^ (- e) in
    match nearest_binary64 n d with
    | None => Infinity (m <? 0)
    | Some (q, k) =>
        if q =? 0 then Fin 0 0
        else if 0 <=? k then Fin (Z.sgn m * q * 2 ^ k) 0
        else let '(m', e') := strip_zeros (Z.to_nat (- k)) (q * 5 ^ (- k)) k in
             Fin (Z.sgn m * m') e'
    end.

(** *** Number::toString, radix 10 *)

Fixpoint zeros (n : nat) : string :=
  match n with O => "" | S n' => String "0" (zeros n') end.

(** The decimal [m * 10^e] reads back as the number [x]. *)
Definition reads_as (m e : Z) (x : number) : bool :=
  num_eq (to_double m e) x.

(** The number of decimal digits of a positive integer. *)
Definition digit_count (m : Z) : Z :=
  Z.of_nat (String.length (pretty (Z.to_N m))).

(** The digits of Number::toString for the positive number [m * 10^e]: the
    fewest digits, from [n] on, that read back as the number, and the
    nearer decimal when two of that length do.  Seventeen digits always
    read back. *)
Fixpoint shortest (fuel : nat) (n : Z) (m e : Z) : Z * Z :=
  match fuel with
  | O => (m, e)
  | S f =>
      let D := digit_count m in
      if D <=? n then (m, e)
      else
        let p := 10 ^ (D - n) in
        let lo := m / p in
        let hi := lo + 1 in
        let e' := e + (D - n) in
        let ok_lo := reads_as lo e' (Fin m e) in
        let ok_hi := reads_as hi e' (Fin m e) in
        if ok_lo && ok_hi then
          if (m - lo * p <? hi * p - m)
             || ((m - lo * p =? hi * p - m) && Z.even lo)
          then (lo, e') else (hi, e')
        else if ok_lo then (lo, e')
        else if ok_hi then (hi, e')
        else shortest f (n + 1) m e
  end.

(** The digits [s] of a decimal [s * 10^e] set out as Number::toString
    does, with [n] the position of the decimal point. *)
Definition fin_to_string (m e : Z) : string :=
  if m =? 0 then "0" else
  let a := Z.abs m in
  let '(m0, e0) := strip_zeros (Z.to_nat (Z.log2 a)) a e in
  let '(m1, e1) := shortest 17 1 m0 e0 in
  let '(m', e') := strip_zeros (Z.to_nat (Z.log2 m1)) m1 e1 in
  let s := pretty (Z.to_N m') in
  let k := Z.of_nat (String.length s) in
  let n := k + e' in
  let sign := if m <? 0 then "-" else "" in
  sign +:+
  (if (k <=? n) && (n <=? 21) then
     s +:+ zeros (Z.to_nat (n - k))
   else if (0 <? n) && (n <=? 21) then
     substring 0 (Z.to_nat n) s +:+ "." +:+
     substring (Z.to_nat n) (Z.to_nat (k - n)) s
   else if (-6 <? n) && (n <=? 0) then
     "0." +:+ zeros (Z.to_nat (- n)) +:+ s
   else
     let x := n - 1 in
     let xs := (if x <? 0 then "-" else "+") +:+ pretty (Z.to_N (Z.abs x)) in
     if k =? 1 then s +:+ "e" +:+ xs
     else substring 0 1 s +:+ "." +:+
          substring 1 (Z.to_nat (k - 1)) s +:+ "e" +:+ xs).

Definition string_of_number (x : number) : string :=
  match x with
  | NaN => "NaN"
  | Infinity false => "Infinity"
  | Infinity true => "-Infinity"
  | Fin m e => fin_to_string m e
  end.

(** *** The Number value of a string *)

Definition is_digit (c : ascii) : bool :=
  let n := code c in ((48 <=? n) && (n <=? 57))%N.

Definition digit_val (c : ascii) : Z := Z.of_N (code c) - 48.

Definition hex_val (c : ascii) : option Z :=
  let n := code c in
  if ((48 <=? n) && (n <=? 57))%N then Some (Z.of_N n - 48)
  else if ((65 <=? n) && (n <=? 70))%N then Some (Z.of_N n - 55)
  else if ((97 <=? n) && (n <=? 102))%N then Some (Z.of_N n - 87)
  else None.

Fixpoint span_digits (l : list ascii) : list ascii * list ascii :=
  match l with
  | c :: r => if is_digit c
              then let '(ds, r') := span_digits r in (c :: ds, r')
              else ([], l)
  | [] => ([], [])
  end.

Definition digits_to_Z (ds : list ascii) : Z :=
  fold_left (fun acc c => acc * 10 + digit_val c) ds 0.

(** All characters are digits of the radix [b] (2, 8 or 16); the literal is
    not empty. *)
Fixpoint radix_digits (b : Z) (l : list ascii) (acc : Z) : option Z :=
  match l with
  | [] => Some acc
  | c :: r => match hex_val c with
              | Some d => if d <? b then radix_digits b r (acc * b + d) else None
              | None => None
              end
  end.

Definition radix_literal (b : Z) (l : list ascii) : number :=
  match l with
  | [] => NaN
  | _ => match radix_digits b l 0 with
         | Some z => to_double z 0
         | None => NaN
         end
  end.

Definition sign_of (l : list ascii) : Z * list ascii :=
  match l with
  | c :: r => if Ascii.eqb c "+" then (1, r)
              else if Ascii.eqb c "-" then (-1, r)
              else (1, l)
  | [] => (1, l)
  end.

(** The optional exponent part; [None] when an exponent mark is followed by
    no digit or when characters are left over. *)
Definition exponent_part (l : list ascii) : option Z :=
  match l with
  | [] => Some 0
  | c :: r =>
      if Ascii.eqb c "e" || Ascii.eqb c "E" then
        let '(sg, r1) := sign_of r in
        match span_digits r1 with
        | ((_ :: _) as ds, []) => Some (sg * digits_to_Z ds)
        | _ => None
        end
      else None
  end.

(** StrUnsignedDecimalLiteral, after the sign. *)
Definition unsigned_decimal (l : list ascii) : option (Z * Z) :=
  let '(ip, r1) := span_digits l in
  let '(fp, r2, dot) :=
    match r1 with
    | "."%char :: r => let '(fp, r2) := span_digits r in (fp, r2, true)
    | _ => ([], r1, false)
    end in
  match ip, fp with
  | [], [] => None
  | _, _ =>
      match exponent_part r2 with
      | Some x => Some (digits_to_Z (ip ++ fp), x - Z.of_nat (List.length fp))
      | None => None
      end
  end.

Definition number_of_string (s : string) : number :=
  match trim_list (list_ascii_of_string s) with
  | [] => Fin 0 0
  | "0"%char :: "x"%char :: r | "0"%char :: "X"%char :: r => radix_literal 16 r
  | "0"%char :: "o"%char :: r | "0"%char :: "O"%char :: r => radix_literal 8 r
  | "0"%char :: "b"%char :: r | "0"%char :: "B"%char :: r => radix_literal 2 r
  | l =>
      let '(sg, r) := sign_of l in
      if String.eqb (string_of_list_ascii r) "Infinity" then Infinity (sg <? 0)
      else match unsigned_decimal r with
           | Some (m, e) => to_double (sg * m) e
           | None => NaN
           end
  end.

(** *** JSON.parse *)

(** The double quote, code 34. *)
Definition dquote : ascii := ascii_of_N 34.

(** The rest of [l] after the character [c], when [l] starts with it. *)
Definition after_char (c : ascii) (l : list ascii) : option (list ascii) :=
  match l with
  | x :: r => if Ascii.eqb x c then Some r else None
  | [] => None
  end.

(** The rest of [l] after the word [w], when [l] starts with it. *)
Fixpoint after_word (w : string) (l : list ascii) : option (list ascii) :=
  match w with
  | EmptyString => Some l
  | String c w' => match after_char c l with
                   | Some r => after_word w' r
                   | None => None
                   end
  end.

(** One digit or more. *)
Definition some_digits (l : list ascii) : option (list ascii * list ascii) :=
  match span_digits l with
  | ([], _) => None
  | p => Some p
  end.

Definition is_json_space (c : ascii) : bool :=
  let n := code c in ((n =? 32) || (n =? 9) || (n =? 10) || (n =? 13))%N.

Fixpoint skip_ws (l : list ascii) : list ascii :=
  match l with
  | c :: r => if is_json_space c then skip_ws r else l
  | [] => []
  end.

Definition hex4 (a b c d : ascii) : option Z :=
  match hex_val a, hex_val b, hex_val c, hex_val d with
  | Some x, Some y, Some z, Some w => Some (((x * 16 + y) * 16 + z) * 16 + w)
  | _, _, _, _ => None
  end.

(** The character an escape letter stands for. *)
Definition json_escape (e : ascii) : option ascii :=
  if Ascii.eqb e dquote || Ascii.eqb e "\" || Ascii.eqb e "/" then Some e
  else if Ascii.eqb e "b" then Some (ascii_of_N 8)
  else if Ascii.eqb e "f" then Some (ascii_of_N 12)
  else if Ascii.eqb e "n" then Some (ascii_of_N 10)
  else if Ascii.eqb e "r" then Some (ascii_of_N 13)
  else if Ascii.eqb e "t" then Some (ascii_of_N 9)
  else None.

Definition prepend (c : ascii) (p : option (list ascii * list ascii))
  : option (list ascii * list ascii) :=
  match p with
  | Some (cs, r) => Some (c :: cs, r)
  | None => None
  end.

(** The characters of a string literal after its opening quote.  Escapes
    above [ÿ] have no counterpart in [ascii] and are rejected. *)
Fixpoint json_string (l : list ascii) : option (list ascii * list ascii) :=
  match l with
  | [] => None
  | c :: r =>
      if Ascii.eqb c dquote then Some ([], r)
      else if Ascii.eqb c "\" then
        match r with
        | [] => None
        | e :: r1 =>
            if Ascii.eqb e "u" then
              match r1 with
              | h1 :: h2 :: h3 :: h4 :: r2 =>
                  match hex4 h1 h2 h3 h4 with
                  | Some z =>
                      if z <? 256
                      then prepend (ascii_of_N (Z.to_N z)) (json_string r2)
                      else None
                  | None => None
                  end
              | _ => None
              end
            else match json_escape e with
                 | Some x => prepend x (json_string r1)
                 | None => None
                 end
        end
      else if (code c <? 32)%N then None
      else prepend c (json_string r)
  end.

(** The integer part of a number: [0], or digits. *)
Definition json_int (l : list ascii) : option (list ascii * list ascii) :=
  match after_char "0" l with
  | Some r => Some (["0"%char], r)
  | None => some_digits l
  end.

(** The optional fraction. *)
Definition json_frac (l : list ascii) : option (list ascii * list ascii) :=
  match after_char "." l with
  | Some r => some_digits r
  | None => Some ([], l)
  end.

(** The optional exponent. *)
Definition json_exp (l : list ascii) : option (Z * list ascii) :=
  match l with
  | c :: r =>
      if Ascii.eqb c "e" || Ascii.eqb c "E" then
        let '(sg, r1) := sign_of r in
        match some_digits r1 with
        | Some (ds, r2) => Some (sg * digits_to_Z ds, r2)
        | None => None
        end
      else Some (0, l)
  | [] => Some (0, [])
  end.

(** A JSON number: [-? int frac? exp?]. *)
Definition json_number (l : list ascii) : option (number * list ascii) :=
  let '(sg, r0) := match after_char "-" l with
                   | Some r => (-1, r)
                   | None => (1, l)
                   end in
  match json_int r0 with
  | None => None
  | Some (ip, r1) =>
      match json_frac r1 with
      | None => None
      | Some (fp, r2) =>
          match json_exp r2 with
          | None => None
          | Some (x, r3) =>
              Some (to_double (sg * digits_to_Z (ip ++ fp))
                              (x - Z.of_nat (List.length fp)), r3)
          end
      end
  end.

(** The array index a property key stands for: a canonical numeric string
    below 2^32 - 1. *)
Definition array_index (k : string) : option Z :=
  match list_ascii_of_string k with
  | [] => None
  | c :: r =>
      if forallb is_digit (c :: r)
         && (negb (Ascii.eqb c "0") || (List.length r =? 0)%nat)
         && (digits_to_Z (c :: r) <? 2 ^ 32 - 1)
      then Some (digits_to_Z (c :: r))
      else None
  end.

(** A key that is not an array index: a repeated key keeps its place and
    takes the later value, a new one goes last. *)
Fixpoint set_named (fs : list (string * jsval)) (k : string) (v : jsval)
  : list (string * jsval) :=
  match fs with
  | [] => [(k, v)]
  | (k', v') :: r => if String.eqb k k' then (k, v) :: r
                     else (k', v') :: set_named r k v
  end.

(** An array index [i]: own keys are listed with the array indices first,
    in ascending order. *)
Fixpoint set_indexed (fs : list (string * jsval)) (i : Z) (k : string)
  (v : jsval) : list (string * jsval) :=
  match fs with
  | [] => [(k, v)]
  | (k', v') :: r =>
      match array_index k' with
      | Some j => if i =? j then (k, v) :: r
                  else if i <? j then (k, v) :: fs
                  else (k', v') :: set_indexed r i k v
      | None => (k, v) :: fs
      end
  end.

(** [obj[k] = v] on an object under construction. *)
Definition obj_set (fs : list (string * jsval)) (k : string) (v : jsval)
  : list (string * jsval) :=
  match array_index k with
  | Some i => set_indexed fs i k v
  | None => set_named fs k v
  end.

(** A value that is not an array or an object. *)
Definition json_scalar (l : list ascii) : option (jsval * list ascii) :=
  match after_word "null" l with
  | Some r => Some (VNull, r)
  | None =>
  match after_word "true" l with
  | Some r => Some (VBool true, r)
  | None =>
  match after_word "false" l with
  | Some r => Some (VBool false, r)
  | None =>
  match after_char dquote l with
  | Some r =>
      match json_string r with
      | Some (cs, r') => Some (VStr (string_of_list_ascii cs), r')
      | None => None
      end
  | None =>
      match json_number l with
      | Some (n, r) => Some (VNum n, r)
      | None => None
      end
  end end end end.

Fixpoint json_value (fuel : nat) (l : list ascii)
  : option (jsval * list ascii) :=
  match fuel with
  | O => None
  | S f =>
      match after_char "[" (skip_ws l) with
      | Some r =>
          match after_char "]" (skip_ws r) with
          | Some r' => Some (VArr [], r')
          | None => match json_elements f r with
                    | Some (vs, r') => Some (VArr vs, r')
                    | None => None
                    end
          end
      | None =>
      match after_char "{" (skip_ws l) with
      | Some r =>
          match after_char "}" (skip_ws r) with
          | Some r' => Some (VObj [], r')
          | None => match json_members f r [] with
                    | Some (fs, r') => Some (VObj fs, r')
                    | None => None
                    end
          end
      | None => json_scalar (skip_ws l)
      end end
  end
with json_elements (fuel : nat) (l : list ascii)
  : option (list jsval * list ascii) :=
  match fuel with
  | O => None
  | S f =>
      match json_value f l with
      | Some (v, r) =>
          match after_char "," (skip_ws r) with
          | Some r' =>
              match json_elements f r' with
              | Some (vs, r'') => Some (v :: vs, r'')
              | None => None
              end
          | None =>
              match after_char "]" (skip_ws r) with
              | Some r' => Some ([v], r')
              | None => None
              end
          end
      | None => None
      end
  end
with json_members (fuel : nat) (l : list ascii) (acc : list (string * jsval))
  : option (list (string * jsval) * list ascii) :=
  match fuel with
  | O => None
  | S f =>
      match after_char dquote (skip_ws l) with
      | Some r =>
          match json_string r with
          | Some (cs, r1) =>
              match after_char ":" (skip_ws r1) with
              | Some r2 =>
                  match json_value f r2 with
                  | Some (v, r3) =>
                      let acc' := obj_set acc (string_of_list_ascii cs) v in
                      match after_char "," (skip_ws r3) with
                      | Some r4 => json_members f r4 acc'
                      | None =>
                          match after_char "}" (skip_ws r3) with
                          | Some r4 => Some (acc', r4)
                          | None => None
                          end
                      end
                  | None => None
                  end
              | None => None
              end
          | None => None
          end
      | None => None
      end
  end.

(** [JSON.parse(s)]: one value, surrounded by white space only.  Every
    recursive call follows at least one consumed character, so twice the
    length of the text is fuel enough ([json_of_string_fuel] below). *)
Definition json_of_string (s : string) : result jsval :=
  let l := list_ascii_of_string s in
  match json_value (2 * List.length l + 2) l with
  | Some (v, r) => match skip_ws r with
                   | [] => Ok v
                   | _ => Throw (SyntaxError "Unexpected token in JSON")
                   end
  | None => Throw (SyntaxError "Unexpected token in JSON")
  end.

(** *** Regular expressions

    The fragment of the pattern language without flags: alternation,
    grouping, the quantifiers [* + ? {n} {n,} {n,m}] (greedy or lazy, which
    [test] cannot tell apart), character classes and class escapes, [.] and
    the assertions [^] and [$].  Look-around, back-references and word
    boundaries are outside the fragment; [regex_of_string] does not tell such a
    pattern from an ill-formed one. *)

Inductive regex :=
| REmpty
| RChar (c : ascii)
| RClass (negated : bool) (ranges : list (N * N))
| RSeq (a b : regex)
| RAlt (a b : regex)
| RStar (a : regex)
| RBol                              (* ^ *)
| REol.                             (* $ *)

Definition digit_ranges : list (N * N) := [(48, 57)]%N.
Definition word_ranges : list (N * N) :=
  [(48, 57); (65, 90); (95, 95); (97, 122)]%N.
Definition space_ranges : list (N * N) := [(9, 13); (32, 32); (160, 160)]%N.
Definition not_digit_ranges : list (N * N) := [(0, 47); (58, 255)]%N.
Definition not_word_ranges : list (N * N) :=
  [(0, 47); (58, 64); (91, 94); (96, 96); (123, 255)]%N.
Definition not_space_ranges : list (N * N) :=
  [(0, 8); (14, 31); (33, 159); (161, 255)]%N.

(** [.] matches everything but a line terminator. *)
Definition RAny : regex := RClass true [(10, 10); (13, 13)]%N.

Definition class_escape (c : ascii) : option (list (N * N)) :=
  match c with
  | "d"%char => Some digit_ranges
  | "D"%char => Some not_digit_ranges
  | "w"%char => Some word_ranges
  | "W"%char => Some not_word_ranges
  | "s"%char => Some space_ranges
  | "S"%char => Some not_space_ranges
  | _ => None
  end.

Definition is_alnum (c : ascii) : bool :=
  let n := code c in
  ((48 <=? n) && (n <=? 57) || (65 <=? n) && (n <=? 90)
   || (97 <=? n) && (n <=? 122))%N.

(** A control escape or an identity escape of a punctuation character. *)
Definition char_escape (c : ascii) : option ascii :=
  match c with
  | "n"%char => Some (ascii_of_N 10)
  | "r"%char => Some (ascii_of_N 13)
  | "t"%char => Some (ascii_of_N 9)
  | "f"%char => Some (ascii_of_N 12)
  | "v"%char => Some (ascii_of_N 11)
  | "0"%char => Some (ascii_of_N 0)
  | _ => if is_alnum c then None else Some c
  end.

Definition single (c : ascii) : list (N * N) := [(code c, code c)].

(** An escape inside a class: a class escape, or one character ([\b] is the
    backspace there). *)
Definition class_atom_escape (e : ascii) : option (list (N * N)) :=
  match class_escape e with
  | Some rs => Some rs
  | None =>
      if Ascii.eqb e "b" then Some (single (ascii_of_N 8))
      else match char_escape e with
           | Some c => Some (single c)
           | None => None
           end
  end.

(** The items of a character class, after [[] and the optional [^]. *)
Fixpoint re_class (l : list ascii) (acc : list (N * N))
  : option (list (N * N) * list ascii) :=
  match l with
  | [] => None
  | c :: r =>
      if Ascii.eqb c "]" then Some (acc, r)
      else if Ascii.eqb c "\" then
        match r with
        | [] => None
        | e :: r1 =>
            match class_atom_escape e with
            | Some rs => re_class r1 (acc ++ rs)%list
            | None => None
            end
        end
      else
        match r with
        | d :: hi :: r2 =>
            if Ascii.eqb d "-" then
              if Ascii.eqb hi "]"
              then Some ((acc ++ single c ++ single "-")%list, r2)
              else if Ascii.eqb hi "\" then None
              else if (code hi <? code c)%N then None
              else re_class r2 (acc ++ [(code c, code hi)])%list
            else re_class r (acc ++ single c)%list
        | _ => re_class r (acc ++ single c)%list
        end
  end.

Fixpoint re_repeat (n : nat) (a : regex) : regex :=
  match n with O => REmpty | S n' => RSeq a (re_repeat n' a) end.

Definition re_opt (a : regex) : regex := RAlt a REmpty.

Fixpoint re_upto (n : nat) (a : regex) : regex :=
  match n with O => REmpty | S n' => re_opt (RSeq a (re_upto n' a)) end.

(** A braced quantifier [{n}], [{n,}] or [{n,m}] after its opening brace. *)
Definition re_braces (a : regex) (l : list ascii)
  : option (regex * list ascii) :=
  match some_digits l with
  | None => None
  | Some (ds, r) =>
      let n := digits_to_Z ds in
      match after_char "}" r with
      | Some r1 => Some (re_repeat (Z.to_nat n) a, r1)
      | None =>
          match after_char "," r with
          | None => None
          | Some r1 =>
              match after_char "}" r1 with
              | Some r2 => Some (RSeq (re_repeat (Z.to_nat n) a) (RStar a), r2)
              | None =>
                  match some_digits r1 with
                  | None => None
                  | Some (ds', r2) =>
                      let m := digits_to_Z ds' in
                      match after_char "}" r2 with
                      | Some r3 =>
                          if m <? n then None
                          else Some (RSeq (re_repeat (Z.to_nat n) a)
                                          (re_upto (Z.to_nat (m - n)) a), r3)
                      | None => None
                      end
                  end
              end
          end
      end
  end.

Definition is_quantifier_start (l : list ascii) : bool :=
  match l with
  | c :: _ => Ascii.eqb c "*" || Ascii.eqb c "+" || Ascii.eqb c "?"
              || Ascii.eqb c "{"
  | [] => false
  end.

(** After a quantifier: an optional [?] (lazy), and no second quantifier. *)
Definition lazy_mark (p : regex * list ascii) : option (regex * list ascii) :=
  let r := match after_char "?" (snd p) with
           | Some r => r
           | None => snd p
           end in
  if is_quantifier_start r then None else Some (fst p, r).

(** The optional quantifier that follows an atom. *)
Definition re_quantified (a : regex) (l : list ascii)
  : option (regex * list ascii) :=
  match l with
  | c :: r =>
      if Ascii.eqb c "*" then lazy_mark (RStar a, r)
      else if Ascii.eqb c "+" then lazy_mark (RSeq a (RStar a), r)
      else if Ascii.eqb c "?" then lazy_mark (re_opt a, r)
      else if Ascii.eqb c "{" then
        match re_braces a r with
        | Some p => lazy_mark p
        | None => None
        end
      else Some (a, l)
  | [] => Some (a, l)
  end.

(** The text of a group after its opening parenthesis: plain, or after the
    non-capturing mark [?:]; other [(?] groups are outside the fragment. *)
Definition group_body (l : list ascii) : option (list ascii) :=
  match after_word "?:" l with
  | Some r => Some r
  | None => match after_char "?" l with
            | Some _ => None
            | None => Some l
            end
  end.

(** An atom that is not a group, with its quantifier. *)
Definition re_atom (c : ascii) (r : list ascii)
  : option (regex * list ascii) :=
  if Ascii.eqb c "." then re_quantified RAny r
  else if Ascii.eqb c "[" then
    let '(neg, r0) := match after_char "^" r with
                      | Some r' => (true, r')
                      | None => (false, r)
                      end in
    match re_class r0 [] with
    | Some (rs, r1) => re_quantified (RClass neg rs) r1
    | None => None
    end
  else if Ascii.eqb c "\" then
    match r with
    | [] => None
    | e :: r1 =>
        match class_escape e with
        | Some rs => re_quantified (RClass false rs) r1
        | None => match char_escape e with
                  | Some x => re_quantified (RChar x) r1
                  | None => None
                  end
        end
    end
  else re_quantified (RChar c) r.

(** An atom followed by the rest of its alternative. *)
Definition re_continue (rest : list ascii -> option (regex * list ascii))
  (p : option (regex * list ascii)) : option (regex * list ascii) :=
  match p with
  | Some (a, r) => match rest r with
                   | Some (b, r') => Some (RSeq a b, r')
                   | None => None
                   end
  | None => None
  end.

Arguments re_continue : simpl never.

Fixpoint re_disjunction (fuel : nat) (l : list ascii)
  : option (regex * list ascii) :=
  match fuel with
  | O => None
  | S f =>
      match re_alternative f l with
      | Some (a, r) =>
          match after_char "|" r with
          | Some r' =>
              match re_disjunction f r' with
              | Some (b, r'') => Some (RAlt a b, r'')
              | None => None
              end
          | None => Some (a, r)
          end
      | None => None
      end
  end
with re_alternative (fuel : nat) (l : list ascii)
  : option (regex * list ascii) :=
  match fuel with
  | O => None
  | S f =>
      let continue := re_continue (re_alternative f) in
      match l with
      | [] => Some (REmpty, [])
      | c :: r =>
          if Ascii.eqb c "|" || Ascii.eqb c ")" then Some (REmpty, l)
          else if Ascii.eqb c "^" then continue (Some (RBol, r))
          else if Ascii.eqb c "$" then continue (Some (REol, r))
          else if is_quantifier_start l then None
          else if Ascii.eqb c "(" then
            match group_body r with
            | Some r0 =>
                match re_disjunction f r0 with
                | Some (a, r1) =>
                    match after_char ")" r1 with
                    | Some r2 => continue (re_quantified a r2)
                    | None => None
                    end
                | None => None
                end
            | None => None
            end
          else continue (re_atom c r)
      end
  end.

(** [new RegExp(pattern)]; the fuel is enough for every pattern
    ([regex_of_string_fuel] below). *)
Definition regex_of_string (pattern : string) : result regex :=
  let l := list_ascii_of_string pattern in
  match re_disjunction (2 * List.length l + 2) l with
  | Some (r, []) => Ok r
  | _ => Throw (SyntaxError ("Invalid regular expression: /"
                             +:+ pattern +:+ "/"))
  end.

(** A matcher state: whether the position is the start of the input, and the
    text still to read. *)
Definition mstate : Type := bool * list ascii.

Definition in_ranges (c : ascii) (rs : list (N * N)) : bool :=
  existsb (fun '(lo, hi) => (lo <=? code c) && (code c <=? hi))%N rs.

Definition eat (p : ascii -> bool) (st : mstate) : list mstate :=
  match snd st with
  | c :: r => if p c then [(false, r)] else []
  | [] => []
  end.

(** Iterations of a starred body; an iteration that reads nothing is not
    repeated, so each round shortens the text. *)
Fixpoint star (body : mstate -> list mstate) (fuel : nat) (st : mstate)
  : list mstate :=
  st :: match fuel with
        | O => []
        | S n =>
            flat_map
              (fun st' =>
                 if (List.length (snd st') <? List.length (snd st))%nat
                 then star body n st' else [])
              (body st)
        end.

(** The states in which a match of [r] started at [st] can end. *)
Fixpoint ends (r : regex) (st : mstate) : list mstate :=
  match r with
  | REmpty => [st]
  | RChar c => eat (Ascii.eqb c) st
  | RClass neg rs => eat (fun c => xorb neg (in_ranges c rs)) st
  | RSeq a b => flat_map (ends b) (ends a st)
  | RAlt a b => (ends a st ++ ends b st)%list
  | RStar a => star (ends a) (List.length (snd st)) st
  | RBol => if fst st then [st] else []
  | REol => match snd st with [] => [st] | _ => [] end
  end.

(** Every position of the text, as a matcher state. *)
Fixpoint positions (at_start : bool) (l : list ascii) : list mstate :=
  (at_start, l) :: match l with
                   | [] => []
                   | _ :: r => positions false r
                   end.

Definition matches_at (r : regex) (st : mstate) : bool :=
  match ends r st with [] => false | _ => true end.

(** [r.test(s)]: is there a match starting at some position of [s]. *)
Definition regex_test (r : regex) (s : string) : bool :=
  existsb (matches_at r) (positions true (list_ascii_of_string s)).

(** The whole of [s] is one match of [r]. *)
Definition full_match (r : regex) (s : string) : bool :=
  existsb (fun st => match snd st with [] => true | _ => false end)
          (ends r (true, list_ascii_of_string s)).

(** The reference runtime.  A text or a pattern outside of what is written
    out above is refused with a SyntaxError. *)
Definition reference : Runtime :=
  {| StringToNumber := number_of_string;
     num_to_string := string_of_number;
     parse_JSON s :=
       match json_of_string s with
       | Ok v => inr v
       | Throw _ => inl "Unexpected token in JSON"
       end;
     test_RegExp p s :=
       match regex_of_string p with
       | Ok re => inr (regex_test re s)
       | Throw _ => inl ("Invalid regular expression: /" +:+ p +:+ "/")
       end |}.

End Reference.

(** ** backend/models/Configuration.js *)

Module Model.
Import JS.

Inductive ConfigType := TString | TNumber | TBoolean | TArray | TObject | TJson.

Inductive Category :=
| system | course | user | assignment | attendance | notification
| email | file_upload | security | ui | analytics.

Definition ObjectId : Type := N.

(** The [validation] sub-document.  An absent rule is [None]; [required]
    defaults to true in the schema. *)
Record validation_rules := {
  min : option number;
  max : option number;
  pattern : option string;
  options : option (list string);
  required : bool
}.

(** A Configuration document.  Its unique [key] is the key under which the
    collection holds it; [defaultValue] is [VUndefined] when none is
    configured; timestamps are left out. *)
Record Configuration := {
  value : jsval;
  type : ConfigType;
  category : Category;
  description : string;
  isPublic : bool;
  isEditable : bool;
  validation : option validation_rules;
  defaultValue : jsval;
  lastModifiedBy : ObjectId;
  tags : list string;
  version : Z
}.

Definition type_name (t : ConfigType) : string :=
  match t with
  | TString => "string" | TNumber => "number" | TBoolean => "boolean"
  | TArray => "array" | TObject => "object" | TJson => "json"
  end.

Definition category_name (c : Category) : string :=
  match c with
  | system => "system" | course => "course" | user => "user"
  | assignment => "assignment" | attendance => "attendance"
  | notification => "notification" | email => "email"
  | file_upload => "file_upload" | security => "security" | ui => "ui"
  | analytics => "analytics"
  end.

Definition all_types : list ConfigType :=
  [TString; TNumber; TBoolean; TArray; TObject; TJson].

Definition all_categories : list Category :=
  [system; course; user; assignment; attendance; notification; email;
   file_upload; security; ui; analytics].

Definition type_of_name (s : string) : option ConfigType :=
  List.find (fun t => String.eqb (type_name t) s) all_types.

Definition category_of_name (s : string) : option Category :=
  List.find (fun c => String.eqb (category_name c) s) all_categories.

(** The collection, indexed by the unique [key]. *)
Abbreviation Store := (gmap string Configuration).

Section Methods.
Context {rt : Runtime}.

(** The virtual [formattedValue]. *)
Definition formattedValue (this : Configuration) : result jsval :=
  match type this with
  | TJson => match value this with
             | VStr s => JSON_parse s
             | v => Ok v
             end
  | TArray => if isArray (value this) then Ok (value this) else Ok (VArr [])
  | TNumber => Ok (VNum (ToNumber (value this)))
  | TBoolean => Ok (VBool (ToBoolean (value this)))
  | _ => Ok (VStr (ToString (value this)))
  end.

Record validation_result := {
  isValid : bool;
  errors : list string
}.

(** [value === null || value === undefined || value === ''] *)
Definition is_missing (v : jsval) : bool :=
  match v with
  | VNull | VUndefined => true
  | VStr s => String.eqb s ""
  | _ => false
  end.

(** [options.includes(v)] on the mongoose array of the options, which
    compares with [==]. *)
Definition includes (opts : list string) (v : jsval) : bool :=
  existsb (loosely_equal v) opts.

(** [errors.push(msg)] under a condition. *)
Definition push_if (c : bool) (msg : string) (errs : list string)
  : list string :=
  if c then (errs ++ [msg])%list else errs.

Definition number_errors (vd : validation_rules) (v : jsval)
  (errs : list string) : list string :=
  let numValue := ToNumber v in
  if isNaN numValue then (errs ++ ["Value must be a valid number"])%list
  else
    let errs :=
      match min vd with
      | Some lo => push_if (num_lt numValue lo)
                     ("Value must be at least " +:+ num_to_string lo) errs
      | None => errs
      end in
    match max vd with
    | Some hi => push_if (num_gt numValue hi)
                   ("Value must be at most " +:+ num_to_string hi) errs
    | None => errs
    end.

Definition str_length (s : string) : number :=
  num_of_Z (Z.of_nat (String.length s)).

(** The two length rules of a string entry. *)
Definition length_errors (vd : validation_rules) (strValue : string)
  (errs : list string) : list string :=
  let errs :=
    match min vd with
    | Some lo => push_if (num_lt (str_length strValue) lo)
                   ("Value must be at least " +:+ num_to_string lo
                    +:+ " characters") errs
    | None => errs
    end in
  match max vd with
  | Some hi => push_if (num_gt (str_length strValue) hi)
                 ("Value must be at most " +:+ num_to_string hi
                  +:+ " characters") errs
  | None => errs
  end.

(** [validation.pattern && !new RegExp(validation.pattern).test(strValue)];
    an empty pattern is falsy and not compiled. *)
Definition pattern_errors (vd : validation_rules) (strValue : string)
  (errs : list string) : result (list string) :=
  match pattern vd with
  | Some p =>
      if String.eqb p "" then Ok errs
      else bind (RegExp_test p strValue) (fun matched =>
             Ok (push_if (negb matched)
                         "Value does not match required pattern" errs))
  | None => Ok errs
  end.

Definition string_errors (vd : validation_rules) (v : jsval)
  (errs : list string) : result (list string) :=
  let strValue := ToString v in
  pattern_errors vd strValue (length_errors vd strValue errs).

Definition array_errors (vd : validation_rules) (v : jsval)
  (errs : list string) : list string :=
  match options vd with
  | Some opts =>
      match v with
      | VArr items =>
          let invalidOptions :=
            List.filter (fun x => negb (includes opts x)) items in
          match invalidOptions with
          | [] => errs
          | _ => (errs ++ ["Invalid options: "
                           +:+ join_values ", " invalidOptions])%list
          end
      | _ => (errs ++ ["Value must be an array"])%list
      end
  | None => errs
  end.

(** [{ isValid: errors.length === 0, errors }] *)
Definition report (errs : list string) : validation_result :=
  {| isValid := match errs with [] => true | _ => false end;
     errors := errs |}.

(** The method [validateValue].  It throws when the pattern of a string
    entry does not compile. *)
Definition validateValue (this : Configuration) (v : jsval)
  : result validation_result :=
  match validation this with
  | None => Ok (report [])
  | Some vd =>
      let errs := push_if (required vd && is_missing v)
                          "This field is required" [] in
      let errs := match type this with
                  | TNumber => number_errors vd v errs
                  | _ => errs
                  end in
      bind (match type this with
            | TString => string_errors vd v errs
            | _ => Ok errs
            end) (fun errs =>
      let errs := match type this with
                  | TArray => array_errors vd v errs
                  | _ => errs
                  end in
      Ok (report errs))
  end.

(** *** Persistence *)

(** The required paths that a document fails, as the ValidationError
    lists them: [value] is a required Mixed path and [description] a
    required string (already trimmed by its setter). *)
Definition required_failures (doc : Configuration) : list string :=
  ((match value doc with
    | VNull | VUndefined => ["value: Path `value` is required."]
    | _ => []
    end)
   ++ (if String.eqb (description doc) ""
       then ["description: Path `description` is required."]
       else []))%list.

(** The message of a ValidationError: the failures, joined. *)
Definition validation_message (failures : list string) : string :=
  "Configuration validation failed: " +:+ join ", " failures.

(** The schema validators that run before every save. *)
Definition schema_validate (doc : Configuration) : result unit :=
  match required_failures doc with
  | [] => Ok tt
  | failures => Throw (ValidationError (validation_message failures))
  end.

(** The pre-save hook: [if (this.isModified('value'))] validate the value. *)
Definition pre_save (this : Configuration) (value_modified : bool)
  : result unit :=
  if value_modified then
    bind (validateValue this (value this)) (fun checked =>
      if negb (isValid checked) then
        Throw (Error ("Validation failed: "
                      +:+ join ", " (errors checked)))
      else Ok tt)
  else Ok tt.

(** [isModified('value')] on a loaded document: the path was assigned a
    value that is not deeply equal to the loaded one. *)
Definition value_modified (loaded doc : Configuration) : bool :=
  negb (deepEqual (value doc) (value loaded)).

(** [doc.save()] for a document loaded from the collection. *)
Definition save (st : Store) (key : string) (loaded doc : Configuration)
  : result Store :=
  bind (schema_validate doc) (fun _ =>
  bind (pre_save doc (value_modified loaded doc)) (fun _ =>
  Ok (<[key := doc]> st))).

(** The document as an insert writes it: [minimize] removes a Mixed path
    whose value is an empty object. *)
Definition written (doc : Configuration) : Configuration :=
  {| value := minimize (value doc);
     type := type doc;
     category := category doc;
     description := description doc;
     isPublic := isPublic doc;
     isEditable := isEditable doc;
     validation := validation doc;
     defaultValue := minimize (defaultValue doc);
     lastModifiedBy := lastModifiedBy doc;
     tags := tags doc;
     version := version doc |}.

(** [doc.save()] for a new document: every path counts as modified, the
    [key] is stored trimmed and must be free in the unique index. *)
Definition save_new (st : Store) (key : string) (doc : Configuration)
  : result Store :=
  if String.eqb (trim key) "" then
    Throw (ValidationError
      (validation_message
         ("key: Path `key` is required." :: required_failures doc)))
  else
  bind (schema_validate doc) (fun _ =>
  bind (pre_save doc true) (fun _ =>
  match st !! trim key with
  | Some _ => Throw (MongoServerError "E11000 duplicate key error")
  | None => Ok (<[trim key := written doc]> st)
  end)).

(** The static [setValue]. *)
Definition setValue (st : Store) (key : string) (v : jsval)
  (userId : ObjectId) (opt_description : option string)
  (opt_tags : option (list string)) : result Store :=
  match st !! trim key with
  | Some config =>
      bind (validateValue config v) (fun checked =>
      if negb (isValid checked) then
        Throw (Error ("Validation failed: "
                      +:+ join ", " (errors checked)))
      else
        let doc := {|
          value := v;
          type := type config;
          category := category config;
          description :=
            match opt_description with
            | Some d => if String.eqb d "" then description config else trim d
            | None => description config
            end;
          isPublic := isPublic config;
          isEditable := isEditable config;
          validation := validation config;
          defaultValue := defaultValue config;
          lastModifiedBy := userId;
          tags := match opt_tags with
                  | Some t => t
                  | None => tags config
                  end;
          version := nearest_double (version config + 1)
        |} in
        save st (trim key) config doc)
  | None => Throw (Error ("Configuration key '" +:+ key +:+ "' not found"))
  end.

End Methods.

End Model.
(** ** backend/middleware/auth.js and the HTTP responses *)

Module Http.
Import JS Model.

Inductive Role := student | instructor | admin.

Definition role_name (r : Role) : string :=
  match r with
  | student => "student" | instructor => "instructor" | admin => "admin"
  end.

Record User := {
  _id : ObjectId;
  role : Role;
  isActive : bool
}.

(** What the [Authorization] header leads to: no token, a token that
    [jwt.verify] rejects, or a verified token with the result of
    [User.findById]. *)
Inductive Authorization :=
| NoToken
| InvalidToken
| Token (found : option User).

(** One entry of express-validator's [errors.array()]. *)
Record field_error := {
  msg : string;
  path : string
}.

(** The argument of [res.json]: the value the handler hands over, before
    it is written as JSON text, except for [ConfigObject], which holds the
    object as the text gives it back. *)
Inductive body :=
| Message (message : string)
| FieldErrors (errs : list field_error)
| ValidationFailed (message : string) (errs : list string)
| WithConfiguration (message : string) (key : string)
    (configuration : Configuration)
| ConfigObject (configObject : gmap string jsval)
| BulkReport (message : string) (results : list string)
    (errs : list (string * string)).

Record response := {
  status : Z;
  json : body
}.

Definition respond (code : Z) (b : body) : response :=
  {| status := code; json := b |}.

(** [auth]: the user attached to the request, or the 401 response. *)
Definition auth (a : Authorization) : response + User :=
  match a with
  | NoToken => inl (respond 401 (Message "No token, authorization denied"))
  | InvalidToken => inl (respond 401 (Message "Token is not valid"))
  | Token None => inl (respond 401 (Message "Token is not valid"))
  | Token (Some u) =>
      if negb (isActive u)
      then inl (respond 401 (Message "Account is deactivated"))
      else inr u
  end.

(** [authorize(...roles)] after [auth]. *)
Definition authorize (roles : list Role) (u : User) : option response :=
  if existsb (fun r => String.eqb (role_name r) (role_name (role u))) roles
  then None
  else Some (respond 403 (Message
         ("Access denied. Required role: "
          +:+ join " or " (List.map role_name roles)))).

(** The middleware chain [[auth, authorize('admin')]] in front of a
    handler. *)
Definition admin_only {S : Type} (a : Authorization) (st : S)
  (handler : User -> S * response) : S * response :=
  match auth a with
  | inl r => (st, r)
  | inr u => match authorize [admin] u with
             | Some r => (st, r)
             | None => handler u
             end
  end.

Section Validators.
Context {rt : Runtime}.

(** express-validator's string form of a value: null, undefined and NaN
    have the empty one, and a non-empty array has that of its first
    element. *)
Definition plain_string (v : jsval) : string :=
  match v with
  | VUndefined | VNull | VNum NaN => ""
  | _ => ToString v
  end.

Definition field_string (v : jsval) : string :=
  match v with
  | VArr (x :: _) => plain_string x
  | _ => plain_string v
  end.

(** express-validator's [notEmpty()]: the value, or every element of an
    array value, has a non-empty string form. *)

Definition empty_items (v : jsval) : list jsval :=
  List.filter (fun x => String.eqb (field_string x) "")
              (match v with VArr items => items | _ => [v] end).

Definition notEmpty (p m : string) (v : jsval) : list field_error :=
  List.map (fun _ => {| msg := m; path := p |}) (empty_items v).

End Validators.

(** [optional()]: an undefined field skips the rest of its chain. *)
Definition optional (chain : jsval -> list field_error) (v : jsval)
  : list field_error :=
  if is_undefined v then [] else chain v.

(** [isIn(allowed)] on a string field. *)
Definition isIn (allowed : list string) (p m : string) (s : string)
  : list field_error :=
  if existsb (String.eqb s) allowed then []
  else [{| msg := m; path := p |}].

(** The [message] of a caught exception; the text of a SyntaxError is the
    engine's own. *)
Definition exn_message (e : exn) : string :=
  match e with
  | SyntaxError m => m
  | Error m => m
  | ValidationError m => m
  | MongoServerError m => m
  end.

End Http.
(** ** backend/routes/configurations.js *)

Module Routes.
Import JS Model Http.

(** The request bodies; an absent field is [None], an absent value
    [VUndefined]. *)

Module CreateBody.
Record validation_input := {
  min : option number;
  max : option number;
  pattern : option string;
  options : option (list string);
  required : option bool
}.
Record t := {
  key : string;
  value : jsval;
  type : string;
  category : string;
  description : string;
  isPublic : option bool;
  isEditable : option bool;
  validation : option validation_input;
  defaultValue : jsval;
  tags : option (list string)
}.
End CreateBody.

Module UpdateBody.
Record t := {
  value : jsval;                        (* VUndefined when absent *)
  description : option string;
  isPublic : option bool;
  tags : option (list string)
}.
End UpdateBody.

Module BulkItem.
Record t := {
  key : string;
  value : jsval
}.
End BulkItem.

Section Handlers.
Context {rt : Runtime}.

(** *** GET /public *)

(** The filter [{ isPublic: true }], with [category] added when the query
    parameter is truthy. *)
Definition public_filter (category : option string) (c : Configuration)
  : bool :=
  isPublic c &&
  match category with
  | Some name => if String.eqb name "" then true
                 else String.eqb (category_name (Model.category c)) name
  | None => true
  end.

(** [Configuration.find(filter)]; the sort order is not modelled, the
    handler's result does not depend on it. *)
Definition find (f : Configuration -> bool) (st : Store)
  : list (string * Configuration) :=
  List.filter (fun kc => f (snd kc)) (map_to_list st).

(** [configObject[key] = v] on an ordinary object: assigning to [__proto__]
    goes to the prototype setter and creates no property. *)
Definition assign (configObject : gmap string jsval) (key : string)
  (v : jsval) : gmap string jsval :=
  if String.eqb key "__proto__" then configObject
  else <[key := v]> configObject.

Fixpoint forEach_assign (configurations : list (string * Configuration))
  (configObject : gmap string jsval) : result (gmap string jsval) :=
  match configurations with
  | [] => Ok configObject
  | (key, config) :: rest =>
      bind (formattedValue config) (fun v =>
        forEach_assign rest (assign configObject key v))
  end.

(** [res.json(configObject)] sends the object as JSON text, which leaves
    out the keys whose value is undefined. *)
Definition get_public (st : Store) (category : option string) : response :=
  match forEach_assign (find (public_filter category) st) ∅ with
  | Ok configObject => respond 200 (ConfigObject (omap to_JSON configObject))
  | Throw _ =>
      respond 500
        (Message "Server error while fetching public configurations")
  end.

(** [res.json({ message, configuration })]: serialising the document
    evaluates its virtual, so a throwing [formattedValue] sends the request
    to the handler's [catch] after the save. *)
Definition send_configuration (code : Z) (message key : string)
  (doc : Configuration) (on_error : exn -> response) : response :=
  match formattedValue doc with
  | Ok _ => respond code (WithConfiguration message key doc)
  | Throw e => on_error e
  end.

(** *** POST / *)

Definition create_checks (b : CreateBody.t) : list field_error :=
  (notEmpty "key" "Key is required" (VStr (CreateBody.key b))
   ++ notEmpty "value" "Value is required" (CreateBody.value b)
   ++ isIn (List.map type_name all_types) "type" "Invalid type"
        (CreateBody.type b)
   ++ isIn (List.map category_name all_categories) "category"
        "Invalid category" (CreateBody.category b)
   ++ notEmpty "description" "Description is required"
        (VStr (CreateBody.description b)))%list.

(** The [validation] sub-document of a new document, with the schema
    defaults: an empty [options] array and [required: true]. *)
Definition new_validation (v : option CreateBody.validation_input)
  : validation_rules :=
  match v with
  | Some i => {| min := CreateBody.min i;
                 max := CreateBody.max i;
                 pattern := CreateBody.pattern i;
                 options := Some (default [] (CreateBody.options i));
                 required := default true (CreateBody.required i) |}
  | None => {| min := None; max := None; pattern := None;
               options := Some []; required := true |}
  end.

(** [new Configuration({...})] in the create handler; [version] is not
    passed and takes the schema default 1. *)
Definition new_Configuration (b : CreateBody.t) (t : ConfigType)
  (c : Category) (userId : ObjectId) : Configuration :=
  {| value := CreateBody.value b;
     type := t;
     category := c;
     description := trim (CreateBody.description b);
     isPublic := default false (CreateBody.isPublic b);
     isEditable := default true (CreateBody.isEditable b);
     validation := Some (new_validation (CreateBody.validation b));
     defaultValue := CreateBody.defaultValue b;
     lastModifiedBy := userId;
     tags := default [] (CreateBody.tags b);
     version := 1 |}.

Definition create_error (e : exn) : response :=
  match e with
  | ValidationError m => respond 400 (Message m)
  | _ => respond 500 (Message "Server error while creating configuration")
  end.

Definition create_handler (st : Store) (b : CreateBody.t) (user : User)
  : Store * response :=
    match create_checks b with
    | (_ :: _) as errs => (st, respond 400 (FieldErrors errs))
    | [] =>
        match st !! trim (CreateBody.key b) with
        | Some _ =>
            (st, respond 400 (Message "Configuration key already exists"))
        | None =>
            match type_of_name (CreateBody.type b),
                  category_of_name (CreateBody.category b) with
            | Some t, Some c =>
                let configuration := new_Configuration b t c (_id user) in
                match save_new st (CreateBody.key b) configuration with
                | Ok st' =>
                    (st', send_configuration 201
                            "Configuration created successfully"
                            (trim (CreateBody.key b)) configuration
                            create_error)
                | Throw e => (st, create_error e)
                end
            | _, _ =>
                (* not reached: the checks admit the names of the schema *)
                (st, create_error
                       (ValidationError (validation_message [])))
            end
        end
    end.

Definition post_create (st : Store) (a : Authorization) (b : CreateBody.t)
  : Store * response :=
  admin_only a st (create_handler st b).

(** *** PUT /:key *)

Definition update_checks (b : UpdateBody.t) : list field_error :=
  (optional (notEmpty "value" "Value cannot be empty") (UpdateBody.value b)
   ++ match UpdateBody.description b with
      | Some d => notEmpty "description" "Description cannot be empty" (VStr d)
      | None => []
      end)%list.

Definition update_error (e : exn) : response :=
  match e with
  | ValidationError m => respond 400 (Message m)
  | _ => respond 500 (Message "Server error while updating configuration")
  end.

(** The assignments of the update handler, after the value was accepted. *)
Definition updated (configuration : Configuration) (b : UpdateBody.t)
  (userId : ObjectId) : Configuration :=
  {| value := if is_undefined (UpdateBody.value b)
              then value configuration else UpdateBody.value b;
     type := type configuration;
     category := category configuration;
     description := match UpdateBody.description b with
                    | Some d => trim d
                    | None => description configuration
                    end;
     isPublic := default (isPublic configuration) (UpdateBody.isPublic b);
     isEditable := isEditable configuration;
     validation := validation configuration;
     defaultValue := defaultValue configuration;
     lastModifiedBy := userId;
     tags := default (tags configuration) (UpdateBody.tags b);
     version := nearest_double (version configuration + 1) |}.

Definition update_handler (st : Store) (key : string) (b : UpdateBody.t)
  (user : User) : Store * response :=
    match update_checks b with
    | (_ :: _) as errs => (st, respond 400 (FieldErrors errs))
    | [] =>
        match st !! trim key with
        | None => (st, respond 404 (Message "Configuration not found"))
        | Some configuration =>
            if negb (isEditable configuration) then
              (st, respond 400 (Message "This configuration is not editable"))
            else
              let checked :=
                if is_undefined (UpdateBody.value b)
                then Ok (report [])
                else validateValue configuration (UpdateBody.value b) in
              match checked with
              | Throw e => (st, update_error e)
              | Ok v =>
                  if negb (isValid v) then
                    (st, respond 400
                           (ValidationFailed "Validation failed" (errors v)))
                  else
                    let doc := updated configuration b (_id user) in
                    match save st (trim key) configuration doc with
                    | Ok st' =>
                        (st', send_configuration 200
                                "Configuration updated successfully"
                                (trim key) doc update_error)
                    | Throw e => (st, update_error e)
                    end
              end
        end
    end.

Definition put_key (st : Store) (a : Authorization) (key : string)
  (b : UpdateBody.t) : Store * response :=
  admin_only a st (update_handler st key b).

(** *** DELETE /:key *)

Definition delete_handler (st : Store) (key : string) (user : User)
  : Store * response :=
    match st !! trim key with
    | None => (st, respond 404 (Message "Configuration not found"))
    | Some configuration =>
        if negb (isEditable configuration) then
          (st, respond 400 (Message "This configuration cannot be deleted"))
        else
          (delete (trim key) st,
           respond 200 (Message "Configuration deleted successfully"))
    end.

Definition delete_key (st : Store) (a : Authorization) (key : string)
  : Store * response :=
  admin_only a st (delete_handler st key).

(** *** POST /bulk-update *)

Definition count_string (n : nat) : string := pretty (N.of_nat n).

(** The path of a field of the item at an index, as the wildcard
    [configurations.*.field] is reported. *)
Definition item_path (index : nat) (field : string) : string :=
  "configurations[" +:+ count_string index +:+ "]." +:+ field.

(** The items with their indices. *)
Definition indexed (configurations : list BulkItem.t)
  : list (nat * BulkItem.t) :=
  combine (seq 0 (List.length configurations)) configurations.

Definition bulk_checks (configurations : list BulkItem.t)
  : list field_error :=
  (flat_map (fun i => notEmpty (item_path (fst i) "key")
                        "Key is required for each configuration"
                        (VStr (BulkItem.key (snd i))))
            (indexed configurations)
   ++ flat_map (fun i => notEmpty (item_path (fst i) "value")
                           "Value is required for each configuration"
                           (BulkItem.value (snd i)))
               (indexed configurations))%list.

(** The state of the loop: the collection and the two report arrays. *)
Record bulk_state := {
  store : Store;
  results : list string;
  errors : list (string * string)
}.

Definition push_error (s : bulk_state) (key message : string) : bulk_state :=
  {| store := store s;
     results := results s;
     errors := (errors s ++ [(key, message)])%list |}.

(** The assignments of one bulk item (and of nothing else). *)
Definition with_value (configuration : Configuration) (v : jsval)
  (userId : ObjectId) : Configuration :=
  {| value := v;
     type := type configuration;
     category := category configuration;
     description := description configuration;
     isPublic := isPublic configuration;
     isEditable := isEditable configuration;
     validation := validation configuration;
     defaultValue := defaultValue configuration;
     lastModifiedBy := userId;
     tags := tags configuration;
     version := nearest_double (version configuration + 1) |}.

(** One round of the [for ... of] loop, with its own [try]/[catch]. *)
Definition bulk_step (userId : ObjectId) (s : bulk_state)
  (configUpdate : BulkItem.t) : bulk_state :=
  let key := BulkItem.key configUpdate in
  match store s !! trim key with
  | None => push_error s key "Configuration not found"
  | Some configuration =>
      if negb (isEditable configuration) then
        push_error s key "Configuration is not editable"
      else
        match validateValue configuration (BulkItem.value configUpdate) with
        | Throw e => push_error s key (exn_message e)
        | Ok v =>
            if negb (isValid v) then
              push_error s key
                ("Validation failed: " +:+ join ", " (Model.errors v))
            else
              let doc := with_value configuration
                           (BulkItem.value configUpdate) userId in
              match save (store s) (trim key) configuration doc with
              | Ok st' => {| store := st';
                             results := (results s ++ [key])%list;
                             errors := errors s |}
              | Throw e => push_error s key (exn_message e)
              end
        end
  end.

Definition bulk_loop (userId : ObjectId) (s : bulk_state)
  (configurations : list BulkItem.t) : bulk_state :=
  fold_left (bulk_step userId) configurations s.

Definition bulk_message (s : bulk_state) : string :=
  "Bulk update completed. " +:+ count_string (List.length (results s))
  +:+ " successful, " +:+ count_string (List.length (errors s))
  +:+ " failed.".

Definition bulk_update_handler (st : Store)
  (configurations : list BulkItem.t) (user : User) : Store * response :=
    match bulk_checks configurations with
    | (_ :: _) as errs => (st, respond 400 (FieldErrors errs))
    | [] =>
        let s := bulk_loop (_id user)
                   {| store := st; results := []; errors := [] |}
                   configurations in
        (store s,
         respond 200 (BulkReport (bulk_message s) (results s) (errors s)))
    end.

Definition post_bulk_update (st : Store) (a : Authorization)
  (configurations : list BulkItem.t) : Store * response :=
  admin_only a st (bulk_update_handler st configurations).

(** *** POST /reset/:key *)

Definition reset_error : response :=
  respond 500 (Message "Server error while resetting configuration").

Definition reset_handler (st : Store) (key : string) (user : User)
  : Store * response :=
    match st !! trim key with
    | None => (st, respond 404 (Message "Configuration not found"))
    | Some configuration =>
        if negb (ToBoolean (defaultValue configuration)) then
          (st, respond 400
                 (Message "No default value available for this configuration"))
        else
          let doc := with_value configuration (defaultValue configuration)
                       (_id user) in
          match save st (trim key) configuration doc with
          | Ok st' =>
              (st', send_configuration 200
                      "Configuration reset to default value successfully"
                      (trim key) doc (fun _ => reset_error))
          | Throw _ => (st, reset_error)
          end
    end.

Definition post_reset (st : Store) (a : Authorization) (key : string)
  : Store * response :=
  admin_only a st (reset_handler st key).

End Handlers.

End Routes.
(** ** backend/scripts/seedConfigurations.js

    Three of the seeded documents, as [new Configuration({...configData,
    lastModifiedBy})] stores them (schema defaults filled in). *)

Module Seed.
Import JS Model.

Definition adminUser : ObjectId := 1%N.

Definition rules (lo hi : option number) (p : option string)
  : option validation_rules :=
  Some {| min := lo; max := hi; pattern := p;
          options := Some []; required := true |}.

Definition maintenance_mode : Configuration :=
  {| value := VBool false;
     type := TBoolean;
     category := system;
     description := "Enable maintenance mode to restrict access";
     isPublic := true;
     isEditable := true;
     validation := rules None None None;
     defaultValue := VBool false;
     lastModifiedBy := adminUser;
     tags := ["maintenance"; "system"];
     version := 1 |}.

Definition assignment_late_penalty : Configuration :=
  {| value := VNum (Fin 10 0);
     type := TNumber;
     category := assignment;
     description := "Late submission penalty percentage";
     isPublic := true;
     isEditable := true;
     validation := rules (Some (Fin 0 0)) (Some (Fin 100 0)) None;
     defaultValue := VNum (Fin 10 0);
     lastModifiedBy := adminUser;
     tags := ["assignment"; "grading"];
     version := 1 |}.

Definition theme_primary_color : Configuration :=
  {| value := VStr "#3B82F6";
     type := TString;
     category := ui;
     description := "Primary theme color (hex)";
     isPublic := true;
     isEditable := true;
     validation := rules None None (Some "^#[0-9A-Fa-f]{6}$");
     defaultValue := VStr "#3B82F6";
     lastModifiedBy := adminUser;
     tags := ["ui"; "theme"; "colors"];
     version := 1 |}.

End Seed.

(** * Notions used in the statements *)

Import JS Model Http Routes Reference.

(** ** The meaning of a match *)

(** [matches r st st']: the pattern [r] matches from the position [st] to
    the position [st'].  A starred body is iterated only through rounds
    that read something. *)
Inductive matches : regex -> mstate -> mstate -> Prop :=
| matches_empty st : matches REmpty st st
| matches_char c b r : matches (RChar c) (b, c :: r) (false, r)
| matches_class neg rs b c r :
    xorb neg (in_ranges c rs) = true ->
    matches (RClass neg rs) (b, c :: r) (false, r)
| matches_seq a1 a2 st1 st2 st3 :
    matches a1 st1 st2 -> matches a2 st2 st3 -> matches (RSeq a1 a2) st1 st3
| matches_alt_l a1 a2 st st' :
    matches a1 st st' -> matches (RAlt a1 a2) st st'
| matches_alt_r a1 a2 st st' :
    matches a2 st st' -> matches (RAlt a1 a2) st st'
| matches_star_stop a st : matches (RStar a) st st
| matches_star_round a st1 st2 st3 :
    matches a st1 st2 ->
    (List.length (snd st2) < List.length (snd st1))%nat ->
    matches (RStar a) st2 st3 ->
    matches (RStar a) st1 st3
| matches_bol r : matches RBol (true, r) (true, r)
| matches_eol b : matches REol (b, []) (b, []).

(** [found re s]: the pattern has a match somewhere in [s]. *)
Definition found (re : regex) (s : string) : Prop :=
  exists pre rest st',
    list_ascii_of_string s = (pre ++ rest)%list
    /\ matches re (match pre with [] => true | _ => false end, rest) st'.

(** ** Auxiliary notions *)

(** [Number.isSafeInteger]: the integers that binary64 counts one by one. *)
Definition safe_integer (n : Z) : Prop := Z.abs n < 2 ^ 53.

(** [v == null] *)
Definition is_nullish (v : jsval) : bool :=
  match v with VNull | VUndefined => true | _ => false end.

(** The error list after the required rule. *)
Definition required_errors (vd : validation_rules) (v : jsval) : list string :=
  push_if (required vd && is_missing v) "This field is required" [].

(** The category filter read literally: a given category selects the
    documents of that category. *)
Definition in_category (category : option string) (c : Configuration)
  : Prop :=
  match category with
  | Some name => category_name (Model.category c) = name
  | None => True
  end.

(** The category filter of the handler: an absent or empty category selects
    every document. *)
Definition selects (category : option string) (c : Configuration) : Prop :=
  match category with
  | Some name => name = "" \/ category_name (Model.category c) = name
  | None => True
  end.

(** The caller passed [auth] as the user [u], whose role is admin. *)
Definition admin_caller (a : Authorization) (u : User) : Prop :=
  auth a = inr u /\ role u = admin.

Definition reset_message : string :=
  "Configuration reset to default value successfully".

(** The state of the bulk loop before its first round. *)
Definition bulk_init (st : Store) : bulk_state :=
  {| store := st; results := []; Routes.errors := [] |}.

(** The state of the bulk loop after a round that saved [doc] for the item
    [key]. *)
Definition applied (s : bulk_state) (key : string) (doc : Configuration)
  : bulk_state :=
  {| store := <[trim key := doc]> (store s);
     results := (results s ++ [key])%list;
     Routes.errors := Routes.errors s |}.

(** How many of the reported keys name the entry [k]. *)
Definition occurrences (k : string) (l : list string) : nat :=
  List.length (List.filter (fun key => String.eqb k (trim key)) l).

(** Every stored document satisfies the schema. *)
Definition valid_store (st : Store) : Prop :=
  forall k e, st !! k = Some e -> schema_validate e = Ok tt.

(** The requests that mutate an entry; a bulk request is one mutation per
    item. *)
Inductive mutation :=
| UpdateByKey (a : Authorization) (key : string) (b : UpdateBody.t)
| BulkUpdateItem (userId : ObjectId) (i : BulkItem.t)
| ResetToDefault (a : Authorization) (key : string).

(** The entry that a mutation names: the key of the request, trimmed as
    the query casts it. *)
Definition target (m : mutation) : string :=
  match m with
  | UpdateByKey _ key _ => trim key
  | BulkUpdateItem _ i => trim (BulkItem.key i)
  | ResetToDefault _ key => trim key
  end.

Section Notions.
Context {rt : Runtime}.

Definition min_length_message (lo : number) : string :=
  "Value must be at least " +:+ num_to_string lo +:+ " characters".

Definition max_length_message (hi : number) : string :=
  "Value must be at most " +:+ num_to_string hi +:+ " characters".

(** Does [validateValue] return and accept. *)
Definition accepts (e : Configuration) (v : jsval) : bool :=
  match validateValue e v with
  | Ok res => isValid res
  | Throw _ => false
  end.

(** The engine's [test] for the pattern [p] is the search for a match of
    [re]: what a conforming engine does on the patterns that
    [regex_of_string] reads. *)
Definition engine_reads (p : string) (re : regex) : Prop :=
  forall s, test_RegExp p s = inr (regex_test re s).

(** The collection after a mutation request. *)
Definition apply_mutation (st : Store) (m : mutation) : Store :=
  match m with
  | UpdateByKey a key b => fst (put_key st a key b)
  | BulkUpdateItem userId i => store (bulk_step userId (bulk_init st) i)
  | ResetToDefault a key => fst (post_reset st a key)
  end.

Definition run_mutations (st : Store) (ms : list mutation) : Store :=
  fold_left apply_mutation ms st.

(** Was the mutation answered with success: status 200 for an update or a
    reset, an entry in [results] for a bulk item. *)
Definition succeeded (st : Store) (m : mutation) : bool :=
  match m with
  | UpdateByKey a key b => status (snd (put_key st a key b)) =? 200
  | BulkUpdateItem userId i =>
      match results (bulk_step userId (bulk_init st) i) with
      | [] => false
      | _ => true
      end
  | ResetToDefault a key => status (snd (post_reset st a key)) =? 200
  end.

(** How many mutations of a run named the entry [k] and were answered with
    success. *)
Fixpoint successes (k : string) (st : Store) (ms : list mutation) : nat :=
  match ms with
  | [] => 0
  | m :: rest =>
      ((if String.eqb k (target m) && succeeded st m then 1 else 0)
       + successes k (apply_mutation st m) rest)%nat
  end.

(** [applied_count k st ms n st']: running [ms] from [st] ends in [st'], and
    [n] of the mutations were applied to the entry [k], that is, saved a new
    state of it. *)
Inductive applied_count (k : string)
  : Store -> list mutation -> nat -> Store -> Prop :=
| count_done st : applied_count k st [] 0 st
| count_skip st m ms n st' :
    apply_mutation st m !! k = st !! k ->
    applied_count k (apply_mutation st m) ms n st' ->
    applied_count k st (m :: ms) n st'
| count_hit st m ms n st' :
    apply_mutation st m !! k <> st !! k ->
    applied_count k (apply_mutation st m) ms n st' ->
    applied_count k st (m :: ms) (S n) st'.

End Notions.

(** A store that is the old one, or the old one with one existing entry
    saved again at the next version. *)
Definition bumps (st st' : Store) : Prop :=
  st' = st
  \/ exists key e doc, st !! key = Some e /\ st' = <[key := doc]> st
                       /\ version doc = nearest_double (version e + 1).

(** ** Documents and requests used as examples *)

(** An active admin. *)
Definition the_admin : User :=
  {| _id := 7%N; role := admin; isActive := true |}.

(** The request header of [the_admin]. *)
Definition admin_token : Authorization := Token (Some the_admin).

(** A text entry whose pattern is the single letter [a]. *)
Definition contains_a : Configuration :=
  {| value := VStr "a"; type := TString; category := ui;
     description := "A text with the letter a";
     isPublic := false; isEditable := true;
     validation := Seed.rules None None (Some "a");
     defaultValue := VUndefined; lastModifiedBy := Seed.adminUser;
     tags := []; version := 1 |}.

(** A public [json] entry whose stored string is not JSON. *)
Definition broken_json : Configuration :=
  {| value := VStr "{oops"; type := TJson; category := system;
     description := "Feature switches";
     isPublic := true; isEditable := true;
     validation := Seed.rules None None None;
     defaultValue := VUndefined; lastModifiedBy := Seed.adminUser;
     tags := []; version := 1 |}.

(** A collection of three seeded documents. *)
Definition seeded_store : Store :=
  {[ "maintenance_mode" := Seed.maintenance_mode;
     "assignment_late_penalty" := Seed.assignment_late_penalty;
     "theme_primary_color" := Seed.theme_primary_color ]}.

(** The late penalty of the seed with another value and default. *)
Definition late_penalty (v dv : jsval) (ver : Z) : Configuration :=
  {| value := v;
     type := TNumber;
     category := assignment;
     description := "Late submission penalty percentage";
     isPublic := true;
     isEditable := true;
     validation := Seed.rules (Some (Fin 0 0)) (Some (Fin 100 0)) None;
     defaultValue := dv;
     lastModifiedBy := Seed.adminUser;
     tags := ["assignment"; "grading"];
     version := ver |}.

(** The late penalty after an update to 15. *)
Definition edited_penalty : Configuration :=
  late_penalty (VNum (Fin 15 0)) (VNum (Fin 10 0)) 2.

(** A late penalty whose configured default 150 is above its maximum. *)
Definition overdrawn_penalty : Configuration :=
  late_penalty (VNum (Fin 15 0)) (VNum (Fin 150 0)) 2.

(** A late penalty whose value and default are both above its maximum. *)
Definition stuck_penalty : Configuration :=
  late_penalty (VNum (Fin 150 0)) (VNum (Fin 150 0)) 4.

(** A number entry whose upper bound is [Infinity]. *)
Definition unbounded_above : Configuration :=
  {| value := VNum (Fin 1 0); type := TNumber; category := system;
     description := "A count without an upper limit";
     isPublic := false; isEditable := true;
     validation := Seed.rules (Some (Fin 0 0)) (Some (Infinity false)) None;
     defaultValue := VUndefined; lastModifiedBy := Seed.adminUser;
     tags := []; version := 1 |}.

(** A collection that holds one late penalty. *)
Definition penalty_store (e : Configuration) : Store :=
  {[ "assignment_late_penalty" := e ]}.

(** The theme colour of the seed with another value and default. *)
Definition theme_color (v dv : jsval) : Configuration :=
  {| value := v;
     type := TString;
     category := ui;
     description := "Primary theme color (hex)";
     isPublic := true;
     isEditable := true;
     validation := Seed.rules None None (Some "^#[0-9A-Fa-f]{6}$");
     defaultValue := dv;
     lastModifiedBy := Seed.adminUser;
     tags := ["ui"; "theme"; "colors"];
     version := 1 |}.

(** A theme colour whose configured default does not match its pattern. *)
Definition off_color : Configuration :=
  theme_color (VStr "#3B82F6") (VStr "blue").

(** A collection that holds one theme colour. *)
Definition color_store (e : Configuration) : Store :=
  {[ "theme_primary_color" := e ]}.

(** The late penalty of the seed, locked. *)
Definition locked_penalty : Configuration :=
  {| value := VNum (Fin 15 0);
     type := TNumber;
     category := assignment;
     description := "Late submission penalty percentage";
     isPublic := true;
     isEditable := false;
     validation := Seed.rules (Some (Fin 0 0)) (Some (Fin 100 0)) None;
     defaultValue := VNum (Fin 10 0);
     lastModifiedBy := Seed.adminUser;
     tags := ["assignment"; "grading"];
     version := 1 |}.

(** A request body that carries a value only. *)
Definition update_value (v : jsval) : UpdateBody.t :=
  {| UpdateBody.value := v;
     UpdateBody.description := None;
     UpdateBody.isPublic := None;
     UpdateBody.tags := None |}.

Definition bulk_item (k : string) (v : jsval) : BulkItem.t :=
  {| BulkItem.key := k; BulkItem.value := v |}.

(** The request that creates the late penalty of the seed. *)
Definition create_late_penalty : CreateBody.t :=
  {| CreateBody.key := "assignment_late_penalty";
     CreateBody.value := VNum (Fin 10 0);
     CreateBody.type := "number";
     CreateBody.category := "assignment";
     CreateBody.description := "Late submission penalty percentage";
     CreateBody.isPublic := Some true;
     CreateBody.isEditable := Some true;
     CreateBody.validation :=
       Some {| CreateBody.min := Some (Fin 0 0);
               CreateBody.max := Some (Fin 100 0);
               CreateBody.pattern := None;
               CreateBody.options := None;
               CreateBody.required := None |};
     CreateBody.defaultValue := VNum (Fin 10 0);
     CreateBody.tags := Some ["assignment"; "grading"] |}.



(** A public [json] entry that holds an object. *)
Definition feature_switches : Configuration :=
  {| value := VObj [("beta", VBool true)]; type := TJson; category := system;
     description := "Feature switches";
     isPublic := true; isEditable := true;
     validation := Seed.rules None None None;
     defaultValue := VUndefined; lastModifiedBy := Seed.adminUser;
     tags := []; version := 1 |}.

(** A collection that holds the feature switches. *)
Definition switches_store (e : Configuration) : Store :=
  {[ "feature_switches" := e ]}.

(** The scenario of the specification with a bulk item in it: the late
    penalty is updated to 15, refused at 150, set to 20 by a bulk item and
    reset. *)
Definition scenario : list mutation :=
  [UpdateByKey admin_token "assignment_late_penalty"
     (update_value (VNum (Fin 15 0)));
   UpdateByKey admin_token "assignment_late_penalty"
     (update_value (VNum (Fin 150 0)));
   BulkUpdateItem (_id the_admin)
     (bulk_item "assignment_late_penalty" (VNum (Fin 20 0)));
   ResetToDefault admin_token "assignment_late_penalty"].

(** The maintenance switch of the seed after 2^53 - 1 saves. *)
Definition worn_switch : Configuration :=
  {| value := VBool false;
     type := TBoolean;
     category := system;
     description := "Enable maintenance mode to restrict access";
     isPublic := true;
     isEditable := true;
     validation := Seed.rules None None None;
     defaultValue := VBool false;
     lastModifiedBy := Seed.adminUser;
     tags := ["maintenance"; "system"];
     version := 2 ^ 53 |}.

(** A text entry of three to five small letters. *)
Definition short_name : Configuration :=
  {| value := VStr "abc"; type := TString; category := system;
     description := "A short name";
     isPublic := false; isEditable := true;
     validation := Seed.rules (Some (Fin 3 0)) (Some (Fin 5 0))
                     (Some "^[a-z]+$");
     defaultValue := VUndefined; lastModifiedBy := Seed.adminUser;
     tags := []; version := 1 |}.

(** The pattern of [short_name], as the reference runtime reads it. *)
Definition small_letters : regex :=
  Eval vm_compute in
    match regex_of_string "^[a-z]+$" with Ok re => re | Throw _ => REmpty end.

(** The feature switches as they are stored after a creation with the empty
    object as value: [minimize] left no value. *)
Definition unset_switches : Configuration :=
  {| value := VUndefined; type := TJson; category := system;
     description := "Feature switches";
     isPublic := true; isEditable := true;
     validation := Seed.rules None None None;
     defaultValue := VUndefined; lastModifiedBy := Seed.adminUser;
     tags := []; version := 1 |}.

(** ** Statements in the words of the specification

    Each of these propositions is refuted below, next to the statement that
    holds in its place. *)

Section Stated.
Context {rt : Runtime}.

(** The number rule as the specification words it: with both bounds set,
    every candidate without a finite coercion is rejected, every candidate
    outside the bounds is rejected, every candidate within them is
    accepted. *)
Definition number_rule_as_stated : Prop :=
  forall (e : Configuration) (vd : validation_rules) (lo hi : number)
         (v : jsval),
    type e = TNumber -> validation e = Some vd ->
    min vd = Some lo -> max vd = Some hi ->
    exists res, validateValue e v = Ok res
      /\ (isFinite (ToNumber v) = false -> isValid res = false)
      /\ (num_lt (ToNumber v) lo = true \/ num_gt (ToNumber v) hi = true ->
          isValid res = false)
      /\ (num_le lo (ToNumber v) = true -> num_le (ToNumber v) hi = true ->
          isValid res = true).

(** The string rule as the specification words it: an accepted candidate is
    matched by the pattern as a whole, and a length outside the bounds is
    reported. *)
Definition string_rule_as_stated : Prop :=
  forall (e : Configuration) (vd : validation_rules) (p : string)
         (re : regex) (v : jsval) (res : validation_result),
    type e = TString -> validation e = Some vd ->
    pattern vd = Some p -> regex_of_string p = Ok re ->
    validateValue e v = Ok res ->
    (isValid res = true -> full_match re (ToString v) = true)
    /\ (forall lo, min vd = Some lo ->
        num_lt (str_length (ToString v)) lo = true ->
        In (min_length_message lo) (Model.errors res))
    /\ (forall hi, max vd = Some hi ->
        num_gt (str_length (ToString v)) hi = true ->
        In (max_length_message hi) (Model.errors res)).

(** The public endpoint as the specification words it: the answer is a
    mapping whose keys are exactly the public entries of the category, each
    with its [formattedValue]. *)
Definition public_as_stated : Prop :=
  forall (st : Store) (category : option string),
    exists configObject,
      get_public st category = respond 200 (ConfigObject configObject)
      /\ forall k,
           is_Some (configObject !! k) <->
           exists c, st !! k = Some c /\ isPublic c = true
                     /\ in_category category c.

(** Reset as the specification words it: a 400 exactly without a default,
    and otherwise the default becomes the value, the caller the modifier and
    the version grows by one. *)
Definition reset_as_stated : Prop :=
  forall (st : Store) (a : Authorization) (u : User) (key : string)
         (e : Configuration),
    admin_caller a u -> st !! trim key = Some e ->
    (status (snd (post_reset st a key)) = 400 <-> defaultValue e = VUndefined)
    /\ (defaultValue e <> VUndefined ->
        exists e', fst (post_reset st a key) !! trim key = Some e'
                   /\ value e' = defaultValue e
                   /\ lastModifiedBy e' = _id u
                   /\ version e' = version e + 1).

(** Reset as the specification words it: the configured default is
    persisted whatever the current rules say about it. *)
Definition reset_unvalidated_as_stated : Prop :=
  forall (st : Store) (a : Authorization) (u : User) (key : string)
         (e : Configuration),
    admin_caller a u -> st !! trim key = Some e ->
    ToBoolean (defaultValue e) = true -> schema_validate e = Ok tt ->
    exists e', fst (post_reset st a key) !! trim key = Some e'
               /\ value e' = defaultValue e.

(** Update as the specification words it: a supplied value that fails
    [validateValue] is answered with the list of violated rules and nothing
    is changed. *)
Definition update_invalid_as_stated : Prop :=
  forall (st : Store) (a : Authorization) (u : User) (key : string)
         (b : UpdateBody.t) (e : Configuration) (res : validation_result),
    admin_caller a u -> st !! trim key = Some e -> isEditable e = true ->
    is_undefined (UpdateBody.value b) = false ->
    validateValue e (UpdateBody.value b) = Ok res -> isValid res = false ->
    put_key st a key b
    = (st, respond 400
             (ValidationFailed "Validation failed" (Model.errors res))).

(** Bulk update as the specification words it: whatever the items, the
    request is answered with the report of the loop. *)
Definition bulk_as_stated : Prop :=
  forall (st : Store) (a : Authorization) (u : User)
         (items : list BulkItem.t),
    admin_caller a u ->
    let s := bulk_loop (_id u) (bulk_init st) items in
    post_bulk_update st a items
    = (store s,
       respond 200 (BulkReport (bulk_message s) (results s) (Routes.errors s))).

(** The version counter as the specification words it: a mutation that is
    answered with success adds one to the version of its entry, and any
    other mutation leaves the entry as it was. *)
Definition version_as_stated : Prop :=
  forall (st : Store) (a : Authorization) (u : User) (key : string)
         (b : UpdateBody.t) (e : Configuration),
    admin_caller a u -> st !! trim key = Some e ->
    (status (snd (put_key st a key b)) = 200 ->
     exists e', fst (put_key st a key b) !! trim key = Some e'
                /\ version e' = version e + 1)
    /\ (status (snd (put_key st a key b)) <> 200 ->
        fst (put_key st a key b) !! trim key = Some e).

End Stated.

(** The examples are computed with the reference runtime. *)
#[local] Existing Instance reference.

(** ** The requests of the admin API *)

(** The five routes that write to the collection. *)
Inductive request :=
| Create (b : CreateBody.t)
| Update (key : string) (b : UpdateBody.t)
| Delete (key : string)
| BulkUpdate (configurations : list BulkItem.t)
| Reset (key : string).

(** The entries a request names: its keys, trimmed as the schema stores
    and looks them up. *)
Definition named_keys (r : request) : list string :=
  match r with
  | Create b => [trim (CreateBody.key b)]
  | Update key _ => [trim key]
  | Delete key => [trim key]
  | BulkUpdate configurations =>
      List.map (fun i => trim (BulkItem.key i)) configurations
  | Reset key => [trim key]
  end.

(** The fields that no handler assigns after the creation. *)
Definition same_settings (e e' : Configuration) : Prop :=
  type e' = type e /\ category e' = category e
  /\ validation e' = validation e /\ defaultValue e' = defaultValue e
  /\ isEditable e' = isEditable e.

(** The order of [sort({ key: 1 })]: strings compare code unit by code
    unit. *)
Definition key_order (a b : string * Configuration) : Prop :=
  String.leb (fst a) (fst b) = true.

#[global] Instance key_order_dec (a b : string * Configuration)
  : Decision (key_order a b) :=
  bool_eq_dec (String.leb (fst a) (fst b)) true.

Section Requests.
Context {rt : Runtime}.

Definition serve (st : Store) (a : Authorization) (r : request)
  : Store * response :=
  match r with
  | Create b => post_create st a b
  | Update key b => put_key st a key b
  | Delete key => delete_key st a key
  | BulkUpdate configurations => post_bulk_update st a configurations
  | Reset key => post_reset st a key
  end.

(** The collection after a sequence of requests, each with its caller. *)
Definition serve_all (st : Store) (rs : list (Authorization * request))
  : Store :=
  fold_left (fun st ar => fst (serve st (fst ar) (snd ar))) rs st.

(** ** The statics of the model that read the collection *)

(** The static [getByCategory(category, includePrivate = false)]. *)
Definition getByCategory (st : Store) (category : string)
  (includePrivate : jsval) : list (string * Configuration) :=
  let includePrivate :=
    if is_undefined includePrivate then VBool false else includePrivate in
  merge_sort key_order
    (find (fun c =>
             String.eqb (category_name (Model.category c)) category
             && (if negb (ToBoolean includePrivate) then isPublic c else true))
          st).

(** The static [getValue(key, defaultValue = null)]. *)
Definition getValue (st : Store) (key : string) (defaultValue : jsval)
  : result jsval :=
  let defaultValue :=
    if is_undefined defaultValue then VNull else defaultValue in
  match st !! trim key with
  | Some config => formattedValue config
  | None => Ok defaultValue
  end.

End Requests.

(** A student, as [auth] finds it. *)
Definition a_student : User :=
  {| _id := 9%N; role := student; isActive := true |}.

(** A request body that only hides the entry. *)
Definition hide : UpdateBody.t :=
  {| UpdateBody.value := VUndefined;
     UpdateBody.description := None;
     UpdateBody.isPublic := Some false;
     UpdateBody.tags := None |}.

(** A request body that only changes the tags. *)
Definition retag (t : list string) : UpdateBody.t :=
  {| UpdateBody.value := VUndefined;
     UpdateBody.description := None;
     UpdateBody.isPublic := None;
     UpdateBody.tags := Some t |}.

(** The creation of a list of widgets that names no options. *)
Definition create_widgets : CreateBody.t :=
  {| CreateBody.key := "widgets";
     CreateBody.value := VArr [VStr "clock"];
     CreateBody.type := "array";
     CreateBody.category := "ui";
     CreateBody.description := "Widgets of the start page";
     CreateBody.isPublic := None;
     CreateBody.isEditable := None;
     CreateBody.validation := None;
     CreateBody.defaultValue := VUndefined;
     CreateBody.tags := None |}.

(** An array entry with two options. *)
Definition weekdays : Configuration :=
  {| value := VArr [VStr "sat"]; type := TArray; category := course;
     description := "Days without lectures";
     isPublic := true; isEditable := true;
     validation := Some {| min := None; max := None; pattern := None;
                           options := Some ["sat"; "sun"];
                           required := true |};
     defaultValue := VUndefined; lastModifiedBy := Seed.adminUser;
     tags := []; version := 1 |}.


(** ** backend/scripts/seedConfigurations.js, the whole script *)

(** The [validation] of a seeded document: the rules the entry names, an
    empty [options] array when it names none, and [required: true]. *)
Definition seed_rules (lo hi : option Z) (p : option string)
  (opts : list string) : option validation_rules :=
  Some {| min := option_map num_of_Z lo; max := option_map num_of_Z hi;
          pattern := p; options := Some opts; required := true |}.

(** [new Configuration({ ...configData, lastModifiedBy: adminUser._id })]
    for an entry of [defaultConfigurations]; every entry is editable, and
    its [defaultValue] is its [value]. *)
Definition configData (v : jsval) (t : ConfigType) (c : Category)
  (d : string) (public : bool) (vd : option validation_rules)
  (tg : list string) (userId : ObjectId) : Configuration :=
  {| value := v; type := t; category := c; description := d;
     isPublic := public; isEditable := true; validation := vd;
     defaultValue := v; lastModifiedBy := userId; tags := tg;
     version := 1 |}.

Definition strings (l : list string) : jsval := VArr (List.map VStr l).

Definition no_rules : option validation_rules := seed_rules None None None [].

Definition between (lo hi : Z) : option validation_rules :=
  seed_rules (Some lo) (Some hi) None [].

Definition hex_colour : option validation_rules :=
  seed_rules None None (Some "^#[0-9A-Fa-f]{6}$") [].

Definition file_types : list string :=
  ["pdf"; "doc"; "docx"; "ppt"; "pptx"; "txt"; "jpg"; "jpeg"; "png"; "gif";
   "mp4"; "avi"; "mov"].

Definition widgets : list string :=
  ["recent_activity"; "course_stats"; "assignment_deadlines";
   "attendance_summary"].

(** The array [defaultConfigurations], each entry with its key. *)
Definition defaultConfigurations (userId : ObjectId)
  : list (string * Configuration) :=
  List.map (fun kc => (fst kc, snd kc userId))
  [("site_name",
    configData (VStr "EduManage") TString system
      "Name of the educational management system" true (between 1 100)
      ["branding"; "ui"]);
   ("site_description",
    configData (VStr "Comprehensive Course Management System") TString system
      "Description of the system" true (between 10 500) ["branding"; "ui"]);
   ("maintenance_mode",
    configData (VBool false) TBoolean system
      "Enable maintenance mode to restrict access" true no_rules
      ["maintenance"; "system"]);
   ("max_file_size",
    configData (VNum (Fin 10485760 0)) TNumber file_upload
      "Maximum file upload size in bytes (10MB)" true
      (between 1048576 104857600) ["upload"; "files"]);
   ("allowed_file_types",
    configData (strings file_types) TArray file_upload
      "Allowed file types for uploads" true
      (seed_rules None None None (file_types ++ ["zip"; "rar"]))
      ["upload"; "files"; "security"]);
   ("max_course_capacity",
    configData (VNum (Fin 50 0)) TNumber course
      "Maximum number of students per course" true (between 1 1000)
      ["course"; "enrollment"]);
   ("course_approval_required",
    configData (VBool true) TBoolean course
      "Require admin approval for new courses" true no_rules
      ["course"; "approval"]);
   ("instructor_verification_required",
    configData (VBool true) TBoolean user
      "Require document verification for instructors" true no_rules
      ["user"; "verification"; "instructor"]);
   ("student_registration_open",
    configData (VBool true) TBoolean user
      "Allow new student registrations" true no_rules
      ["user"; "registration"; "student"]);
   ("instructor_registration_open",
    configData (VBool true) TBoolean user
      "Allow new instructor registrations" true no_rules
      ["user"; "registration"; "instructor"]);
   ("assignment_late_penalty",
    configData (VNum (Fin 10 0)) TNumber assignment
      "Late submission penalty percentage" true (between 0 100)
      ["assignment"; "grading"]);
   ("assignment_auto_grade",
    configData (VBool false) TBoolean assignment
      "Enable automatic grading for assignments" true no_rules
      ["assignment"; "grading"; "automation"]);
   ("attendance_required_percentage",
    configData (VNum (Fin 75 0)) TNumber attendance
      "Minimum attendance percentage required" true (between 0 100)
      ["attendance"; "requirements"]);
   ("email_notifications_enabled",
    configData (VBool true) TBoolean notification
      "Enable email notifications" true no_rules ["notification"; "email"]);
   ("push_notifications_enabled",
    configData (VBool true) TBoolean notification
      "Enable push notifications" true no_rules ["notification"; "push"]);
   ("session_timeout",
    configData (VNum (Fin 3600 0)) TNumber security
      "Session timeout in seconds (1 hour)" false (between 300 86400)
      ["security"; "session"]);
   ("password_min_length",
    configData (VNum (Fin 8 0)) TNumber security
      "Minimum password length" true (between 6 32)
      ["security"; "password"]);
   ("max_login_attempts",
    configData (VNum (Fin 5 0)) TNumber security
      "Maximum login attempts before lockout" false (between 3 10)
      ["security"; "login"]);
   ("theme_primary_color",
    configData (VStr "#3B82F6") TString ui
      "Primary theme color (hex)" true hex_colour ["ui"; "theme"; "colors"]);
   ("theme_secondary_color",
    configData (VStr "#10B981") TString ui
      "Secondary theme color (hex)" true hex_colour
      ["ui"; "theme"; "colors"]);
   ("dashboard_widgets",
    configData (strings widgets) TArray ui
      "Available dashboard widgets" true
      (seed_rules None None None
         (widgets ++ ["grade_chart"; "announcements"]))
      ["ui"; "dashboard"; "widgets"]);
   ("analytics_tracking_enabled",
    configData (VBool true) TBoolean analytics
      "Enable analytics tracking" false no_rules ["analytics"; "tracking"]);
   ("data_retention_days",
    configData (VNum (Fin 365 0)) TNumber analytics
      "Data retention period in days" false (between 30 2555)
      ["analytics"; "data"; "retention"])].

Section SeedScript.
Context {rt : Runtime}.


(** The [for ... of] loop of the script: an entry whose key exists is
    skipped, a new one is saved, and the first save that throws ends the
    loop in the [catch] of the script, with what was saved so far. *)
Fixpoint seed_loop (configurations : list (string * Configuration))
  (st : Store) : Store * option exn :=
  match configurations with
  | [] => (st, None)
  | (key, configuration) :: rest =>
      match st !! trim key with
      | Some _ => seed_loop rest st
      | None =>
          match save_new st key configuration with
          | Ok st' => seed_loop rest st'
          | Throw e => (st, Some e)
          end
      end
  end.

(** [seedConfigurations]: the collection it leaves and the exit code.
    [adminUser] is the result of [User.findOne({ role: 'admin' })]. *)
Definition seedConfigurations (adminUser : option ObjectId) (st : Store)
  : Store * Z :=
  match adminUser with
  | None => (st, 1)
  | Some userId => (fst (seed_loop (defaultConfigurations userId) st), 0)
  end.

End SeedScript.

(** ** frontend/src/context/ConfigurationContext.js *)

(** The configurations the provider falls back to when the request to the
    public endpoint fails. *)
Definition fallback_configurations : gmap string jsval :=
  list_to_map
    [("site_name", VStr "EduManage");
     ("site_description", VStr "Comprehensive Course Management System");
     ("maintenance_mode", VBool false);
     ("max_file_size", VNum (Fin 10485760 0));
     ("allowed_file_types", strings file_types);
     ("max_course_capacity", VNum (Fin 50 0));
     ("course_approval_required", VBool true);
     ("instructor_verification_required", VBool true);
     ("student_registration_open", VBool true);
     ("instructor_registration_open", VBool true);
     ("assignment_late_penalty", VNum (Fin 10 0));
     ("assignment_auto_grade", VBool false);
     ("attendance_required_percentage", VNum (Fin 75 0));
     ("email_notifications_enabled", VBool true);
     ("push_notifications_enabled", VBool true);
     ("password_min_length", VNum (Fin 8 0));
     ("theme_primary_color", VStr "#3B82F6");
     ("theme_secondary_color", VStr "#10B981");
     ("dashboard_widgets", strings widgets)].

(** * Properties *)

(** ** The reference matcher against a relational semantics *)

(** A match of the whole text is in particular a match found by [test]. *)
Lemma full_match_test (re : regex) (s : string) :
  full_match re s = true -> regex_test re s = true.
Proof.
  unfold full_match, regex_test, matches_at. intros H.
  apply existsb_exists in H as (st & Hin & _).
  apply existsb_exists. exists (true, list_ascii_of_string s). split.
  - destruct (list_ascii_of_string s); simpl; auto.
  - destruct (ends re (true, list_ascii_of_string s)); [destruct Hin | reflexivity].
Qed.

Lemma positions_In (b : bool) (l : list ascii) (st : mstate) :
  In st (positions b l) <->
  exists pre, l = (pre ++ snd st)%list
              /\ fst st = match pre with [] => b | _ => false end.
Proof.
  revert b. induction l as [|c l IH]; intros b; simpl.
  - split.
    + intros [<- | []]. now exists [].
    + intros (pre & Hl & Hb). left. destruct st as [b' r]. simpl in *.
      symmetry in Hl. apply app_eq_nil in Hl as [-> ->]. now subst.
  - rewrite IH. split.
    + intros [<- | (pre & -> & Hb)]; [now exists [] |].
      exists (c :: pre). split; [reflexivity |]. rewrite Hb. now destruct pre.
    + intros (pre & Hl & Hb). destruct pre as [|c' pre]; simpl in *.
      * left. destruct st; simpl in *; now subst.
      * right. injection Hl as -> ->. exists pre. split; [reflexivity |].
        rewrite Hb. now destruct pre.
Qed.

(** [test] succeeds exactly when the text splits into a prefix and a rest
    on which the pattern matches. *)
Lemma regex_test_iff (re : regex) (s : string) :
  regex_test re s = true <->
  exists pre rest,
    list_ascii_of_string s = (pre ++ rest)%list
    /\ ends re (match pre with [] => true | _ => false end, rest) <> [].
Proof.
  unfold regex_test. rewrite existsb_exists. split.
  - intros ([b rest] & Hin & Hm). apply positions_In in Hin as (pre & Hl & Hb).
    simpl in *. exists pre, rest. split; [assumption |]. subst b.
    unfold matches_at in Hm. intros Hnil. now rewrite Hnil in Hm.
  - intros (pre & rest & Hl & Hne).
    exists (match pre with [] => true | _ => false end, rest). split.
    + apply positions_In. exists pre. auto.
    + unfold matches_at. now destruct (ends re _).
Qed.

Lemma eat_In (p : ascii -> bool) (st st' : mstate) :
  In st' (eat p st) <->
  exists c r, snd st = c :: r /\ p c = true /\ st' = (false, r).
Proof.
  unfold eat. destruct st as [b [|c r]]; simpl.
  - split; [tauto | intros (c & r & [=] & _)].
  - destruct (p c) eqn:Hp; simpl.
    + split.
      * intros [<- | []]. eauto.
      * intros (c' & r' & [= <- <-] & _ & ->). now left.
    + split; [tauto |]. intros (c' & r' & [= <- <-] & Hp' & _). congruence.
Qed.

(** [star] with enough fuel against the iteration of its body. *)
Lemma star_In (body : mstate -> list mstate) (a : regex) :
  (forall st st', In st' (body st) <-> matches a st st') ->
  forall fuel st st',
    (List.length (snd st) <= fuel)%nat ->
    (In st' (star body fuel st) <-> matches (RStar a) st st').
Proof.
  intros Hbody fuel. induction fuel as [|n IH]; intros st st' Hlen.
  - simpl. split.
    + intros [<- | []]. constructor.
    + intros H. inversion H; subst; [now left | lia].
  - simpl. rewrite in_flat_map. split.
    + intros [<- | (st2 & Hin & Hrest)]; [constructor |].
      destruct (Nat.ltb_spec (List.length (snd st2)) (List.length (snd st)))
        as [Hlt | Hge]; [| destruct Hrest].
      apply Hbody in Hin. apply IH in Hrest; [| lia].
      econstructor; eassumption.
    + intros H. inversion H as [| | | | | | a0 st0 | a0 st1 st2 st3 H1 Hlt H2 | |];
        subst; [now left |].
      right. exists st2. split; [now apply Hbody |].
      destruct (Nat.ltb_spec (List.length (snd st2)) (List.length (snd st)))
        as [_ | Hge]; [| lia].
      apply IH; [lia | assumption].
Qed.

(** The matcher computes exactly the relation. *)
Theorem ends_matches (r : regex) (st st' : mstate) :
  In st' (ends r st) <-> matches r st st'.
Proof.
  revert st st'. induction r as [| c | neg rs | a IHa b IHb | a IHa b IHb
                                 | a IHa | |]; intros st st'; simpl.
  - split; [intros [<- | []]; constructor | intros H; inversion H; now left].
  - rewrite eat_In. split.
    + intros (c' & r & Hst & Hc & ->). apply Ascii.eqb_eq in Hc as <-.
      destruct st as [b l]. simpl in Hst. subst l. constructor.
    + intros H. inversion H; subst. exists c, r. simpl.
      rewrite Ascii.eqb_refl. auto.
  - rewrite eat_In. split.
    + intros (c' & r & Hst & Hc & ->).
      destruct st as [b l]. simpl in Hst. subst l. now constructor.
    + intros H. inversion H; subst. exists c, r. auto.
  - rewrite in_flat_map. split.
    + intros (st2 & H1 & H2). apply IHa in H1. apply IHb in H2.
      econstructor; eassumption.
    + intros H. inversion H; subst. exists st2.
      split; [now apply IHa | now apply IHb].
  - rewrite in_app_iff, IHa, IHb. split.
    + intros [H | H]; [now apply matches_alt_l | now apply matches_alt_r].
    + intros H. inversion H; subst; auto.
  - apply (star_In (ends a) a IHa). lia.
  - destruct st as [[] l]; simpl.
    + split; [intros [<- | []]; constructor | intros H; inversion H; now left].
    + split; [tauto | intros H; inversion H].
  - destruct st as [b [|c l]]; simpl.
    + split; [intros [<- | []]; constructor | intros H; inversion H; now left].
    + split; [tauto | intros H; inversion H].
Qed.

(** [test] finds a match that starts somewhere in the text. *)
Corollary regex_test_matches (re : regex) (s : string) :
  regex_test re s = true <->
  exists pre rest st',
    list_ascii_of_string s = (pre ++ rest)%list
    /\ matches re (match pre with [] => true | _ => false end, rest) st'.
Proof.
  rewrite regex_test_iff. split.
  - intros (pre & rest & Hs & Hne).
    destruct (ends re _) as [|st' l] eqn:He; [contradiction |].
    exists pre, rest, st'. split; [assumption |].
    apply ends_matches. rewrite He. now left.
  - intros (pre & rest & st' & Hs & Hm). exists pre, rest.
    split; [assumption |]. apply ends_matches in Hm.
    intros Hnil. now rewrite Hnil in Hm.
Qed.

(** A full match covers the text from its start to its end. *)
Corollary full_match_matches (re : regex) (s : string) :
  full_match re s = true <->
  exists b, matches re (true, list_ascii_of_string s) (b, []).
Proof.
  unfold full_match. rewrite existsb_exists. split.
  - intros ([b l] & Hin & Hend). simpl in Hend. destruct l; [| discriminate].
    exists b. now apply ends_matches.
  - intros (b & Hm). exists (b, []). split; [now apply ends_matches | reflexivity].
Qed.

(** ** The fuel of the two reference parsers *)

Lemma skip_ws_length (l : list ascii) :
  (List.length (skip_ws l) <= List.length l)%nat.
Proof.
  induction l as [|c l IH]; simpl; [lia |].
  destruct (is_json_space c); simpl; lia.
Qed.

Lemma after_char_length (c : ascii) (l r : list ascii) :
  after_char c l = Some r -> List.length l = S (List.length r).
Proof.
  destruct l as [|x l]; simpl; [discriminate |].
  destruct (Ascii.eqb x c); [now intros [= ->] | discriminate].
Qed.

Lemma after_word_length (w : string) (l r : list ascii) :
  after_word w l = Some r ->
  List.length l = (String.length w + List.length r)%nat.
Proof.
  revert l. induction w as [|c w IH]; intros l; simpl; [now intros [= ->] |].
  destruct (after_char c l) as [l'|] eqn:Hc; [| discriminate].
  intros H. apply IH in H. apply after_char_length in Hc. lia.
Qed.

Lemma span_digits_length (l ds r : list ascii) :
  span_digits l = (ds, r) ->
  List.length l = (List.length ds + List.length r)%nat.
Proof.
  revert ds r. induction l as [|c l IH]; intros ds r; simpl.
  - now intros [= <- <-].
  - destruct (is_digit c); [| now intros [= <- <-]].
    destruct (span_digits l) as [ds' r'] eqn:Hs. intros [= <- <-].
    specialize (IH ds' r' eq_refl). simpl. lia.
Qed.

Lemma some_digits_length (l ds r : list ascii) :
  some_digits l = Some (ds, r) ->
  (List.length r < List.length l)%nat.
Proof.
  unfold some_digits. destruct (span_digits l) as [[|d ds'] r'] eqn:Hs;
    [discriminate |].
  intros [= <- <-]. apply span_digits_length in Hs. simpl in Hs. lia.
Qed.

Lemma prepend_Some (c : ascii) (p : option (list ascii * list ascii))
  (cs r : list ascii) :
  prepend c p = Some (cs, r) -> exists cs', p = Some (cs', r).
Proof. destruct p as [[cs' r']|]; simpl; [intros [= <- <-]; eauto | discriminate]. Qed.

Lemma json_string_length (l cs r : list ascii) :
  json_string l = Some (cs, r) -> (List.length r < List.length l)%nat.
Proof.
  remember (List.length l) as n eqn:Hn. revert l cs r Hn.
  induction n as [n IH] using lt_wf_ind. intros l cs r Hn.
  destruct l as [|c l]; simpl; [discriminate |].
  destruct (Ascii.eqb c dquote); [intros [= <- <-]; simpl in Hn; lia |].
  destruct (Ascii.eqb c "\").
  - destruct l as [|e l1]; [discriminate |].
    destruct (Ascii.eqb e "u").
    + destruct l1 as [|h1 [|h2 [|h3 [|h4 r2]]]]; try discriminate.
      destruct (hex4 h1 h2 h3 h4) as [z|]; [| discriminate].
      destruct (z <? 256); [| discriminate].
      intros H. apply prepend_Some in H as [cs' H].
      apply (IH (List.length r2)) in H; simpl in *; lia.
    + destruct (json_escape e); [| discriminate].
      intros H. apply prepend_Some in H as [cs' H].
      apply (IH (List.length l1)) in H; simpl in *; lia.
  - destruct (code c <? 32)%N; [discriminate |].
    intros H. apply prepend_Some in H as [cs' H].
    apply (IH (List.length l)) in H; simpl in *; lia.
Qed.

Lemma sign_of_length (l r : list ascii) (sg : Z) :
  sign_of l = (sg, r) -> (List.length r <= List.length l)%nat.
Proof.
  destruct l as [|c l]; simpl; [intros [= _ <-]; simpl; lia |].
  destruct (Ascii.eqb c "+"); [intros [= _ <-]; lia |].
  destruct (Ascii.eqb c "-"); intros [= _ <-]; simpl; lia.
Qed.

Lemma json_number_length (l r : list ascii) (n : number) :
  json_number l = Some (n, r) -> (List.length r < List.length l)%nat.
Proof.
  unfold json_number.
  destruct (match after_char "-" l with
            | Some r0 => (-1, r0)
            | None => (1, l)
            end) as [sg r0] eqn:Hsign.
  assert (H0 : (List.length r0 <= List.length l)%nat).
  { destruct (after_char "-" l) as [r'|] eqn:Hm; injection Hsign as _ <-;
      [apply after_char_length in Hm |]; lia. }
  destruct (json_int r0) as [[ip r1]|] eqn:Hint; [| discriminate].
  assert (H1 : (List.length r1 < List.length r0)%nat).
  { unfold json_int in Hint.
    destruct (after_char "0" r0) as [r'|] eqn:Hz.
    - injection Hint as _ <-. apply after_char_length in Hz. lia.
    - now apply some_digits_length in Hint. }
  destruct (json_frac r1) as [[fp r2]|] eqn:Hfrac; [| discriminate].
  assert (H2 : (List.length r2 <= List.length r1)%nat).
  { unfold json_frac in Hfrac.
    destruct (after_char "." r1) as [r'|] eqn:Hd.
    - apply some_digits_length in Hfrac. apply after_char_length in Hd. lia.
    - injection Hfrac as _ <-. lia. }
  destruct (json_exp r2) as [[x r3]|] eqn:Hexp; [| discriminate].
  assert (H3 : (List.length r3 <= List.length r2)%nat).
  { unfold json_exp in Hexp. destruct r2 as [|c r2']; [now injection Hexp as _ <- |].
    destruct (Ascii.eqb c "e" || Ascii.eqb c "E"); [| injection Hexp as _ <-; lia].
    destruct (sign_of r2') as [sg' r'] eqn:Hs.
    destruct (some_digits r') as [[ds r'']|] eqn:Hds; [| discriminate].
    injection Hexp as _ <-. apply sign_of_length in Hs.
    apply some_digits_length in Hds. simpl. lia. }
  intros [= _ <-]. lia.
Qed.

Lemma json_scalar_length (l r : list ascii) (v : jsval) :
  json_scalar l = Some (v, r) -> (List.length r < List.length l)%nat.
Proof.
  unfold json_scalar.
  destruct (after_word "null" l) as [r0|] eqn:H1;
    [intros [= _ <-]; apply after_word_length in H1; simpl in H1; lia |].
  destruct (after_word "true" l) as [r0|] eqn:H2;
    [intros [= _ <-]; apply after_word_length in H2; simpl in H2; lia |].
  destruct (after_word "false" l) as [r0|] eqn:H3;
    [intros [= _ <-]; apply after_word_length in H3; simpl in H3; lia |].
  destruct (after_char dquote l) as [r0|] eqn:H4.
  - destruct (json_string r0) as [[cs r']|] eqn:Hs; [| discriminate].
    intros [= _ <-]. apply after_char_length in H4.
    apply json_string_length in Hs. lia.
  - destruct (json_number l) as [[n r']|] eqn:Hn; [| discriminate].
    intros [= _ <-]. now apply json_number_length in Hn.
Qed.

(** A parse that succeeds with some fuel consumed at least one character
    and succeeds with every fuel from twice the number of characters it
    consumed. *)
Lemma json_fuel (f : nat) :
  (forall l v r,
      json_value f l = Some (v, r) ->
      (List.length r < List.length l)%nat
      /\ forall g, (2 * (List.length l - List.length r) <= g)%nat ->
                   json_value g l = Some (v, r))
  /\ (forall l vs r,
        json_elements f l = Some (vs, r) ->
        (List.length r < List.length l)%nat
        /\ forall g, (2 * (List.length l - List.length r) <= g)%nat ->
                     json_elements g l = Some (vs, r))
  /\ (forall l acc fs r,
        json_members f l acc = Some (fs, r) ->
        (List.length r < List.length l)%nat
        /\ forall g, (2 * (List.length l - List.length r) <= g)%nat ->
                     json_members g l acc = Some (fs, r)).
Proof.
  induction f as [|f (IHv & IHe & IHm)]; [repeat split; discriminate |].
  split; [| split].
  - intros l v r. simpl.
    pose proof (skip_ws_length l) as Hl.
    destruct (after_char "[" (skip_ws l)) as [r0|] eqn:Hopen.
    { apply after_char_length in Hopen as Hlen0.
      pose proof (skip_ws_length r0) as Hr0.
      destruct (after_char "]" (skip_ws r0)) as [r1|] eqn:Hclose.
      - intros [= <- <-]. apply after_char_length in Hclose as Hlen1.
        split; [lia |]. intros g Hg. destruct g as [|g]; [lia |]. simpl.
        now rewrite Hopen, Hclose.
      - destruct (json_elements f r0) as [[vs r1]|] eqn:Hel; [| discriminate].
        intros [= <- <-]. destruct (IHe _ _ _ Hel) as [Hlt Hmore].
        split; [lia |]. intros g Hg. destruct g as [|g]; [lia |]. simpl.
        rewrite Hopen, Hclose, (Hmore g); [reflexivity | lia]. }
    destruct (after_char "{" (skip_ws l)) as [r0|] eqn:Hbrace.
    { apply after_char_length in Hbrace as Hlen0.
      pose proof (skip_ws_length r0) as Hr0.
      destruct (after_char "}" (skip_ws r0)) as [r1|] eqn:Hclose.
      - intros [= <- <-]. apply after_char_length in Hclose as Hlen1.
        split; [lia |]. intros g Hg. destruct g as [|g]; [lia |]. simpl.
        now rewrite Hopen, Hbrace, Hclose.
      - destruct (json_members f r0 []) as [[fs r1]|] eqn:Hmem;
          [| discriminate].
        intros [= <- <-]. destruct (IHm _ _ _ _ Hmem) as [Hlt Hmore].
        split; [lia |]. intros g Hg. destruct g as [|g]; [lia |]. simpl.
        rewrite Hopen, Hbrace, Hclose, (Hmore g); [reflexivity | lia]. }
    intros Hsc. apply json_scalar_length in Hsc as Hlt.
    split; [lia |]. intros g Hg. destruct g as [|g]; [lia |]. simpl.
    now rewrite Hopen, Hbrace.
  - intros l vs r. simpl.
    destruct (json_value f l) as [[v r0]|] eqn:Hv; [| discriminate].
    destruct (IHv _ _ _ Hv) as [Hlt0 Hmore0].
    pose proof (skip_ws_length r0) as Hr0.
    destruct (after_char "," (skip_ws r0)) as [r1|] eqn:Hcomma.
    + apply after_char_length in Hcomma as Hlen1.
      destruct (json_elements f r1) as [[vs' r2]|] eqn:Hel; [| discriminate].
      intros [= <- <-]. destruct (IHe _ _ _ Hel) as [Hlt Hmore].
      split; [lia |]. intros g Hg. destruct g as [|g]; [lia |]. simpl.
      rewrite (Hmore0 g), Hcomma, (Hmore g); [reflexivity | lia | lia].
    + destruct (after_char "]" (skip_ws r0)) as [r1|] eqn:Hclose;
        [| discriminate].
      apply after_char_length in Hclose as Hlen1.
      intros [= <- <-]. split; [lia |].
      intros g Hg. destruct g as [|g]; [lia |]. simpl.
      rewrite (Hmore0 g), Hcomma, Hclose; [reflexivity | lia].
  - intros l acc fs r. simpl.
    pose proof (skip_ws_length l) as Hl.
    destruct (after_char dquote (skip_ws l)) as [r0|] eqn:Hq; [| discriminate].
    apply after_char_length in Hq as Hlen0.
    destruct (json_string r0) as [[cs r1]|] eqn:Hs; [| discriminate].
    apply json_string_length in Hs as Hlen1.
    pose proof (skip_ws_length r1) as Hr1.
    destruct (after_char ":" (skip_ws r1)) as [r2|] eqn:Hcolon;
      [| discriminate].
    apply after_char_length in Hcolon as Hlen2.
    destruct (json_value f r2) as [[v r3]|] eqn:Hv; [| discriminate].
    destruct (IHv _ _ _ Hv) as [Hlt3 Hmore3].
    pose proof (skip_ws_length r3) as Hr3.
    destruct (after_char "," (skip_ws r3)) as [r4|] eqn:Hcomma.
    + apply after_char_length in Hcomma as Hlen4.
      intros Hmem. destruct (IHm _ _ _ _ Hmem) as [Hlt Hmore].
      split; [lia |]. intros g Hg. destruct g as [|g]; [lia |]. simpl.
      rewrite Hq, Hs, Hcolon, (Hmore3 g), Hcomma; [| lia].
      apply Hmore. lia.
    + destruct (after_char "}" (skip_ws r3)) as [r4|] eqn:Hclose;
        [| discriminate].
      apply after_char_length in Hclose as Hlen4.
      intros [= <- <-]. split; [lia |].
      intros g Hg. destruct g as [|g]; [lia |]. simpl.
      rewrite Hq, Hs, Hcolon, (Hmore3 g), Hcomma, Hclose; [reflexivity | lia].
Qed.

(** The fuel of [json_of_string] never cuts a parse short: whatever value some
    fuel finds for the whole text, [json_of_string] returns. *)
Theorem json_of_string_fuel (s : string) (f : nat) (v : jsval) (r : list ascii) :
  json_value f (list_ascii_of_string s) = Some (v, r) -> skip_ws r = [] ->
  json_of_string s = Ok v.
Proof.
  intros Hv Hr. unfold json_of_string.
  destruct (json_fuel f) as (Hfuel & _ & _).
  destruct (Hfuel _ _ _ Hv) as [_ Hmore].
  rewrite (Hmore (2 * List.length (list_ascii_of_string s) + 2)%nat); [| lia].
  now rewrite Hr.
Qed.

Lemma re_class_length (l r : list ascii) (acc rs : list (N * N)) :
  re_class l acc = Some (rs, r) -> (List.length r < List.length l)%nat.
Proof.
  remember (List.length l) as n eqn:Hn. revert l acc rs r Hn.
  induction n as [n IH] using lt_wf_ind. intros l acc rs r Hn.
  destruct l as [|c l]; simpl; [discriminate |].
  destruct (Ascii.eqb c "]"); [intros [= _ <-]; simpl in Hn; lia |].
  destruct (Ascii.eqb c "\").
  - destruct l as [|e l1]; [discriminate |].
    destruct (class_atom_escape e); [| discriminate].
    intros H. apply (IH (List.length l1)) in H; simpl in *; lia.
  - destruct l as [|d [|hi r2]].
    + intros H. apply (IH 0%nat) in H; simpl in *; lia.
    + intros H. apply (IH 1%nat) in H; simpl in *; lia.
    + destruct (Ascii.eqb d "-").
      * destruct (Ascii.eqb hi "]"); [intros [= _ <-]; simpl in Hn; lia |].
        destruct (Ascii.eqb hi "\"); [discriminate |].
        destruct (code hi <? code c)%N; [discriminate |].
        intros H. apply (IH (List.length r2)) in H; simpl in *; lia.
      * intros H. apply (IH (S (S (List.length r2)))) in H; simpl in *; lia.
Qed.

Lemma re_braces_length (a a' : regex) (l r : list ascii) :
  re_braces a l = Some (a', r) -> (List.length r < List.length l)%nat.
Proof.
  unfold re_braces.
  destruct (some_digits l) as [[ds r0]|] eqn:Hd; [| discriminate].
  apply some_digits_length in Hd.
  destruct (after_char "}" r0) as [r1|] eqn:H1.
  { intros [= _ <-]. apply after_char_length in H1. lia. }
  destruct (after_char "," r0) as [r1|] eqn:H2; [| discriminate].
  apply after_char_length in H2.
  destruct (after_char "}" r1) as [r2|] eqn:H3.
  { intros [= _ <-]. apply after_char_length in H3. lia. }
  destruct (some_digits r1) as [[ds' r2]|] eqn:Hd'; [| discriminate].
  apply some_digits_length in Hd'.
  destruct (after_char "}" r2) as [r3|] eqn:H4; [| discriminate].
  apply after_char_length in H4.
  destruct (digits_to_Z ds' <? digits_to_Z ds); [discriminate |].
  intros [= _ <-]. lia.
Qed.

Lemma lazy_mark_length (p : regex * list ascii) (a : regex)
  (r : list ascii) :
  lazy_mark p = Some (a, r) -> (List.length r <= List.length (snd p))%nat.
Proof.
  unfold lazy_mark.
  destruct (after_char "?" (snd p)) as [r0|] eqn:Hq.
  - destruct (is_quantifier_start r0); [discriminate |].
    intros [= _ <-]. apply after_char_length in Hq. lia.
  - destruct (is_quantifier_start (snd p)); [discriminate |].
    intros [= _ <-]. lia.
Qed.

Lemma re_quantified_length (a a' : regex) (l r : list ascii) :
  re_quantified a l = Some (a', r) -> (List.length r <= List.length l)%nat.
Proof.
  unfold re_quantified. destruct l as [|c l]; [intros [= _ <-]; lia |].
  destruct (Ascii.eqb c "*");
    [intros H; apply lazy_mark_length in H; simpl in *; lia |].
  destruct (Ascii.eqb c "+");
    [intros H; apply lazy_mark_length in H; simpl in *; lia |].
  destruct (Ascii.eqb c "?");
    [intros H; apply lazy_mark_length in H; simpl in *; lia |].
  destruct (Ascii.eqb c "{"); [| intros [= _ <-]; lia].
  destruct (re_braces a l) as [[a0 r0]|] eqn:Hb; [| discriminate].
  apply re_braces_length in Hb.
  intros H. apply lazy_mark_length in H. simpl in *. lia.
Qed.

Lemma group_body_length (l r : list ascii) :
  group_body l = Some r -> (List.length r <= List.length l)%nat.
Proof.
  unfold group_body. destruct (after_word "?:" l) as [r0|] eqn:Hw.
  - intros [= <-]. apply after_word_length in Hw. lia.
  - destruct (after_char "?" l); [discriminate | intros [= <-]; lia].
Qed.

Lemma re_atom_length (c : ascii) (l r : list ascii) (a : regex) :
  re_atom c l = Some (a, r) -> (List.length r <= List.length l)%nat.
Proof.
  unfold re_atom.
  destruct (Ascii.eqb c "."); [apply re_quantified_length |].
  destruct (Ascii.eqb c "[").
  { destruct (match after_char "^" l with
              | Some r' => (true, r')
              | None => (false, l)
              end) as [neg r0] eqn:Hneg.
    assert (H0 : (List.length r0 <= List.length l)%nat).
    { destruct (after_char "^" l) as [r'|] eqn:Hc; injection Hneg as _ <-;
        [apply after_char_length in Hc |]; lia. }
    destruct (re_class r0 []) as [[rs r1]|] eqn:Hcl; [| discriminate].
    apply re_class_length in Hcl.
    intros H. apply re_quantified_length in H. lia. }
  destruct (Ascii.eqb c "\"); [| apply re_quantified_length].
  destruct l as [|e r1]; [discriminate |].
  destruct (class_escape e).
  - intros H. apply re_quantified_length in H. simpl. lia.
  - destruct (char_escape e); [| discriminate].
    intros H. apply re_quantified_length in H. simpl. lia.
Qed.

(** A parse of a pattern that succeeds with some fuel succeeds with every
    fuel from twice the number of characters it consumed, plus two for a
    disjunction and plus one for an alternative. *)
Lemma re_fuel (f : nat) :
  (forall l a r,
      re_disjunction f l = Some (a, r) ->
      (List.length r <= List.length l)%nat
      /\ forall g, (2 * (List.length l - List.length r) + 2 <= g)%nat ->
                   re_disjunction g l = Some (a, r))
  /\ (forall l a r,
        re_alternative f l = Some (a, r) ->
        (List.length r <= List.length l)%nat
        /\ forall g, (2 * (List.length l - List.length r) + 1 <= g)%nat ->
                     re_alternative g l = Some (a, r)).
Proof.
  induction f as [|f (IHd & IHa)]; [split; discriminate |].
  assert (Hcont : forall p a r,
             re_continue (re_alternative f) p = Some (a, r) ->
             exists a0 r0,
               p = Some (a0, r0)
               /\ (List.length r <= List.length r0)%nat
               /\ forall g,
                    (2 * (List.length r0 - List.length r) + 1 <= g)%nat ->
                    re_continue (re_alternative g) p = Some (a, r)).
  { intros [[a0 r0]|] a r; unfold re_continue; [| discriminate].
    destruct (re_alternative f r0) as [[b r']|] eqn:Halt; [| discriminate].
    intros [= <- <-]. destruct (IHa _ _ _ Halt) as [Hle Hmore].
    exists a0, r0. split; [reflexivity |]. split; [assumption |].
    intros g Hg. now rewrite (Hmore g). }
  split.
  - intros l a r. simpl.
    destruct (re_alternative f l) as [[a0 r0]|] eqn:Halt; [| discriminate].
    destruct (IHa _ _ _ Halt) as [Hle0 Hmore0].
    destruct (after_char "|" r0) as [r1|] eqn:Hbar.
    + apply after_char_length in Hbar as Hlen1.
      destruct (re_disjunction f r1) as [[b r2]|] eqn:Hdis; [| discriminate].
      intros [= <- <-]. destruct (IHd _ _ _ Hdis) as [Hle Hmore].
      split; [lia |]. intros g Hg. destruct g as [|g]; [lia |]. simpl.
      rewrite (Hmore0 g), Hbar, (Hmore g); [reflexivity | lia | lia].
    + intros [= <- <-]. split; [lia |].
      intros g Hg. destruct g as [|g]; [lia |]. simpl.
      rewrite (Hmore0 g), Hbar; [reflexivity | lia].
  - intros l a r. simpl.
    destruct l as [|c l0].
    { intros [= <- <-]. split; [lia |].
      intros g Hg. destruct g as [|g]; [lia | reflexivity]. }
    destruct (Ascii.eqb c "|" || Ascii.eqb c ")") eqn:Hstop.
    { intros [= <- <-]. split; [lia |].
      intros g Hg. destruct g as [|g]; [lia |]. simpl. now rewrite Hstop. }
    destruct (Ascii.eqb c "^") eqn:Hbol.
    { intros H. apply Hcont in H as (a0 & r0 & [= <- <-] & Hle & Hmore).
      split; [simpl; lia |]. intros g Hg. destruct g as [|g]; [lia |].
      simpl. rewrite Hstop, Hbol. apply Hmore. simpl in Hg. lia. }
    destruct (Ascii.eqb c "$") eqn:Heol.
    { intros H. apply Hcont in H as (a0 & r0 & [= <- <-] & Hle & Hmore).
      split; [simpl; lia |]. intros g Hg. destruct g as [|g]; [lia |].
      simpl. rewrite Hstop, Hbol, Heol. apply Hmore. simpl in Hg. lia. }
    destruct (is_quantifier_start (c :: l0)) eqn:Hq; [discriminate |].
    destruct (Ascii.eqb c "(") eqn:Hgroup.
    { destruct (group_body l0) as [b0|] eqn:Hbody; [| discriminate].
      apply group_body_length in Hbody as Hlen0.
      destruct (re_disjunction f b0) as [[a1 r1]|] eqn:Hdis; [| discriminate].
      destruct (IHd _ _ _ Hdis) as [Hle1 Hmore1].
      destruct (after_char ")" r1) as [r2|] eqn:Hclose; [| discriminate].
      apply after_char_length in Hclose as Hlen2.
      intros H. apply Hcont in H as (a0 & r3 & Hqu & Hle & Hmore).
      apply re_quantified_length in Hqu as Hlen3.
      split; [simpl; lia |]. intros g Hg. destruct g as [|g]; [lia |].
      simpl in Hg. simpl. rewrite Hstop, Hbol, Heol. simpl in Hq.
      rewrite Hq, Hgroup, Hbody, (Hmore1 g), Hclose; [| lia].
      apply Hmore. lia. }
    intros H. apply Hcont in H as (a0 & r0 & Hatom & Hle & Hmore).
    apply re_atom_length in Hatom as Hlen0.
    split; [simpl; lia |]. intros g Hg. destruct g as [|g]; [lia |].
    simpl in Hg. simpl. rewrite Hstop, Hbol, Heol. simpl in Hq.
    rewrite Hq, Hgroup. apply Hmore. lia.
Qed.

(** The fuel of [regex_of_string] never cuts a parse short: whatever pattern
    some fuel reads from the whole text, [regex_of_string] returns. *)
Theorem regex_of_string_fuel (p : string) (f : nat) (re : regex) :
  re_disjunction f (list_ascii_of_string p) = Some (re, []) ->
  regex_of_string p = Ok re.
Proof.
  intros Hre. unfold regex_of_string.
  destruct (re_fuel f) as [Hfuel _].
  destruct (Hfuel _ _ _ Hre) as [_ Hmore].
  rewrite (Hmore (2 * List.length (list_ascii_of_string p) + 2)%nat);
    [reflexivity |].
  simpl. lia.
Qed.

(** ** Numbers and error lists *)

Lemma num_le_not_gt (x y : number) :
  isNaN x = false -> isNaN y = false -> num_le x y = negb (num_gt x y).
Proof. intros Hx Hy. unfold num_le, num_gt. now rewrite Hx, Hy. Qed.

Lemma num_lt_NaN_l (y : number) : num_lt NaN y = false.
Proof. reflexivity. Qed.

Lemma num_lt_NaN_r (x : number) : num_lt x NaN = false.
Proof. now destruct x as [|[]|]. Qed.

Lemma num_le_not_NaN (x y : number) :
  num_le x y = true -> isNaN x = false /\ isNaN y = false.
Proof.
  unfold num_le. destruct (isNaN x), (isNaN y); simpl; intuition congruence.
Qed.

(** An infinity lies outside every interval with finite end points. *)
Lemma infinity_outside (b : bool) (lo hi : number) :
  isFinite lo = true -> isFinite hi = true ->
  num_lt (Infinity b) lo = true \/ num_gt (Infinity b) hi = true.
Proof.
  destruct lo as [| |m1 e1]; try discriminate.
  destruct hi as [| |m2 e2]; try discriminate.
  intros _ _. destruct b; [left | right]; reflexivity.
Qed.

Lemma push_if_nil (c : bool) (m : string) (errs : list string) :
  push_if c m errs = [] <-> c = false /\ errs = [].
Proof.
  unfold push_if. destruct c.
  - split; [intros H; now apply app_eq_nil in H as [_ ?] | intros [? _]; discriminate].
  - tauto.
Qed.

Lemma push_if_In (c : bool) (m : string) (errs : list string) (x : string) :
  In x (push_if c m errs) <-> In x errs \/ (c = true /\ x = m).
Proof.
  unfold push_if. destruct c.
  - rewrite in_app_iff. simpl. intuition congruence.
  - intuition congruence.
Qed.

Lemma isValid_report (errs : list string) :
  isValid (report errs) = true <-> errs = [].
Proof. destruct errs; simpl; intuition congruence. Qed.

Lemma isValid_report_false (errs : list string) :
  isValid (report errs) = false <-> errs <> [].
Proof. destruct errs; simpl; intuition congruence. Qed.

(** ** validateValue on numbers *)

Section NumberRule.
Context {rt : Runtime}.

Lemma validateValue_number (e : Configuration) (vd : validation_rules)
  (v : jsval) :
  type e = TNumber -> validation e = Some vd ->
  validateValue e v
  = Ok (report (number_errors vd v (required_errors vd v))).
Proof.
  intros Ht Hv. unfold validateValue. now rewrite Hv, Ht.
Qed.

Lemma number_errors_nil (vd : validation_rules) (v : jsval)
  (errs : list string) (lo hi : number) :
  min vd = Some lo -> max vd = Some hi ->
  number_errors vd v errs = [] <->
  errs = [] /\ isNaN (ToNumber v) = false
  /\ num_lt (ToNumber v) lo = false /\ num_gt (ToNumber v) hi = false.
Proof.
  intros Hlo Hhi. unfold number_errors. rewrite Hlo, Hhi.
  destruct (isNaN (ToNumber v)).
  - split; [intros H; now apply app_eq_nil in H as [_ ?] | intros (_ & ? & _); discriminate].
  - rewrite !push_if_nil. tauto.
Qed.


End NumberRule.



Example late_penalty_examples :
  validateValue Seed.assignment_late_penalty (VNum (Fin 15 0)) = Ok (report [])
  /\ validateValue Seed.assignment_late_penalty (VNum (Fin 0 0)) = Ok (report [])
  /\ validateValue Seed.assignment_late_penalty (VNum (Fin 150 0))
     = Ok (report ["Value must be at most 100"])
  /\ validateValue Seed.assignment_late_penalty (VStr "abc")
     = Ok (report ["Value must be a valid number"]).
Proof. repeat split. Qed.

(** ** validateValue on strings *)

(** The search of the reference matcher finds a match exactly when there is
    one. *)
Lemma regex_test_found (re : regex) (s : string) :
  regex_test re s = true <-> found re s.
Proof. apply regex_test_matches. Qed.

Section StringRule.
Context {rt : Runtime}.

Lemma validateValue_string (e : Configuration) (vd : validation_rules)
  (v : jsval) :
  type e = TString -> validation e = Some vd ->
  validateValue e v
  = bind (pattern_errors vd (ToString v)
            (length_errors vd (ToString v) (required_errors vd v)))
         (fun errs => Ok (report errs)).
Proof.
  intros Ht Hv. unfold validateValue. now rewrite Hv, Ht.
Qed.

Lemma length_errors_In (vd : validation_rules) (s : string)
  (errs : list string) (x : string) :
  In x (length_errors vd s errs) <->
  In x errs
  \/ (exists lo, min vd = Some lo /\ num_lt (str_length s) lo = true
                 /\ x = min_length_message lo)
  \/ (exists hi, max vd = Some hi /\ num_gt (str_length s) hi = true
                 /\ x = max_length_message hi).
Proof.
  unfold length_errors, min_length_message, max_length_message.
  destruct (min vd) as [lo|], (max vd) as [hi|]; rewrite ?push_if_In;
    naive_solver.
Qed.

(** The pattern rule follows the engine's [test]: without a pattern (or
    with the empty one) nothing is added, a test that throws is the throw of
    the rule, and the error is added exactly after a failed test. *)
Lemma pattern_errors_test (vd : validation_rules) (p s : string)
  (errs : list string) :
  pattern vd = Some p -> p <> "" ->
  pattern_errors vd s errs
  = bind (RegExp_test p s) (fun matched =>
      Ok (push_if (negb matched) "Value does not match required pattern"
            errs)).
Proof.
  intros Hp Hne. unfold pattern_errors. rewrite Hp.
  now destruct (String.eqb_spec p "").
Qed.

Lemma pattern_errors_none (vd : validation_rules) (s : string)
  (errs : list string) :
  (forall p, pattern vd = Some p -> p = "") ->
  pattern_errors vd s errs = Ok errs.
Proof.
  intros H. unfold pattern_errors. destruct (pattern vd) as [p|]; [| reflexivity].
  now rewrite (H p eq_refl).
Qed.

Lemma pattern_errors_keeps (vd : validation_rules) (s : string)
  (errs out : list string) (x : string) :
  pattern_errors vd s errs = Ok out -> In x errs -> In x out.
Proof.
  unfold pattern_errors. destruct (pattern vd) as [p|].
  - destruct (String.eqb p ""); [now intros [= <-] |].
    destruct (RegExp_test p s) as [m|y]; simpl; [| discriminate].
    intros [= <-] Hx. apply push_if_In. now left.
  - now intros [= <-].
Qed.

(** On a pattern that the engine reads as [re], the test is the search for
    a match of [re]. *)
Lemma RegExp_test_reads (p : string) (re : regex) (s : string) :
  engine_reads p re -> RegExp_test p s = Ok (regex_test re s).
Proof. intros H. unfold RegExp_test. now rewrite H. Qed.


End StringRule.

(** The reference runtime reads a pattern as its own parser does. *)
Lemma reference_reads (p : string) (re : regex) :
  regex_of_string p = Ok re -> @engine_reads reference p re.
Proof. intros H s. simpl. now rewrite H. Qed.



Example theme_color_examples :
  validateValue Seed.theme_primary_color (VStr "#3B82F6") = Ok (report [])
  /\ validateValue Seed.theme_primary_color (VStr "red")
     = Ok (report ["Value does not match required pattern"])
  /\ validateValue Seed.theme_primary_color (VStr "x#3B82F6")
     = Ok (report ["Value does not match required pattern"]).
Proof. repeat split. Qed.

(** ** formattedValue *)

Section FormattedValue.
Context {rt : Runtime}.

Lemma formattedValue_json (e : Configuration) (s : string) :
  type e = TJson -> value e = VStr s -> formattedValue e = JSON_parse s.
Proof. intros Ht Hv. unfold formattedValue. now rewrite Ht, Hv. Qed.

Lemma formattedValue_array (e : Configuration) :
  type e = TArray ->
  formattedValue e
  = Ok (match value e with VArr items => VArr items | _ => VArr [] end).
Proof.
  intros Ht. unfold formattedValue. rewrite Ht. now destruct (value e).
Qed.

(** [JSON.parse] either returns a value or throws a SyntaxError. *)
Lemma JSON_parse_cases (s : string) :
  (exists v, JSON_parse s = Ok v)
  \/ (exists m, JSON_parse s = Throw (SyntaxError m)).
Proof. unfold JSON_parse. destruct (parse_JSON s); eauto. Qed.

(** [formattedValue] throws on no other entry than a [json] entry with a
    stored string, and nothing but what [JSON.parse] throws on it. *)
Lemma formattedValue_Throw (e : Configuration) (x : exn) :
  formattedValue e = Throw x <->
  type e = TJson /\ exists s, value e = VStr s /\ JSON_parse s = Throw x.
Proof.
  unfold formattedValue. split.
  - destruct (type e); try discriminate.
    + destruct (isArray (value e)); discriminate.
    + destruct (value e); try discriminate. eauto.
  - intros (-> & s & -> & H). exact H.
Qed.

(** On every entry that is not of type [json] the virtual returns. *)
Lemma formattedValue_total (e : Configuration) :
  type e <> TJson -> is_Ok (formattedValue e) = true.
Proof.
  intros Ht. destruct (formattedValue e) as [v|x] eqn:H; [reflexivity |].
  apply formattedValue_Throw in H as [? _]. contradiction.
Qed.


End FormattedValue.


Example formattedValue_examples :
  formattedValue Seed.maintenance_mode = Ok (VBool false)
  /\ formattedValue Seed.assignment_late_penalty = Ok (VNum (Fin 10 0))
  /\ formattedValue Seed.theme_primary_color = Ok (VStr "#3B82F6")
  /\ formattedValue feature_switches = Ok (VObj [("beta", VBool true)]).
Proof. repeat split. Qed.

(** ** The public projection *)

Lemma NoDup_fst_filter {A B} (p : A * B -> bool) (l : list (A * B)) :
  NoDup (l.*1) -> NoDup ((List.filter p l).*1).
Proof.
  induction l as [|x l IH]; simpl; [auto |].
  rewrite NoDup_cons. intros [Hx Hl]. destruct (p x); simpl; [| auto].
  apply NoDup_cons. split; [| auto].
  intros Hin. apply Hx. apply list_elem_of_fmap in Hin as (y & -> & Hy).
  apply list_elem_of_fmap. exists y. split; [reflexivity |].
  apply list_elem_of_In. apply list_elem_of_In, filter_In in Hy. tauto.
Qed.

Section PublicProjection.
Context {rt : Runtime}.

Lemma find_spec (f : Configuration -> bool) (st : Store) (k : string)
  (c : Configuration) :
  (k, c) ∈ find f st <-> st !! k = Some c /\ f c = true.
Proof.
  unfold find. rewrite list_elem_of_In, filter_In, <- list_elem_of_In.
  now rewrite elem_of_map_to_list.
Qed.

Lemma NoDup_find (f : Configuration -> bool) (st : Store) :
  NoDup ((find f st).*1).
Proof. apply NoDup_fst_filter, NoDup_fst_map_to_list. Qed.

Lemma lookup_assign (o : gmap string jsval) (key k : string) (v : jsval) :
  assign o key v !! k
  = if decide (key = k /\ key <> "__proto__") then Some v else o !! k.
Proof.
  unfold assign. destruct (String.eqb_spec key "__proto__") as [-> | Hne].
  - case_decide; [tauto | reflexivity].
  - rewrite lookup_insert. repeat case_decide; tauto.
Qed.

(** The loop returns exactly when no document throws. *)
Lemma forEach_assign_is_Ok (l : list (string * Configuration))
  (o : gmap string jsval) :
  is_Ok (forEach_assign l o) = true <->
  (forall k c, (k, c) ∈ l -> is_Ok (formattedValue c) = true).
Proof.
  revert o. induction l as [|[k c] l IH]; intros o; simpl.
  - split; [intros _ k c H; inversion H | reflexivity].
  - destruct (formattedValue c) as [v|x] eqn:Hfv; simpl.
    + rewrite IH. split.
      * intros H k' c' Hin. apply elem_of_cons in Hin as [[= -> ->] | Hin];
          [now rewrite Hfv | now apply (H k')].
      * intros H k' c' Hin. apply (H k'). now right.
    + split; [discriminate |]. intros H.
      specialize (H k c (list_elem_of_here _ _)). now rewrite Hfv in H.
Qed.

(** What the loop leaves in the object. *)
Lemma forEach_assign_lookup (l : list (string * Configuration)) :
  NoDup (l.*1) ->
  forall (o out : gmap string jsval) (k : string) (v : jsval),
    forEach_assign l o = Ok out ->
    (out !! k = Some v <->
     (k <> "__proto__"
      /\ exists c, (k, c) ∈ l /\ formattedValue c = Ok v)
     \/ (o !! k = Some v /\ (k = "__proto__" \/ k ∉ l.*1))).
Proof.
  induction l as [|[k0 c0] l IH]; simpl; intros Hnd o out k v Hrun.
  - injection Hrun as <-. split.
    + intros H. right. split; [assumption |]. right. apply not_elem_of_nil.
    + intros [(_ & c & Hin & _) | [H _]]; [inversion Hin | assumption].
  - apply NoDup_cons in Hnd as [Hk0 Hnd].
    destruct (formattedValue c0) as [v0|x] eqn:Hfv0; simpl in Hrun;
      [| discriminate].
    rewrite (IH Hnd _ _ k v Hrun), lookup_assign. clear IH Hrun.
    split.
    + intros [(Hp & c & Hin & Hfv) | [Hlook Hrest]].
      * left. split; [assumption |]. exists c. split; [now right | assumption].
      * case_decide as Hd.
        -- destruct Hd as [-> Hp]. injection Hlook as ->. left.
           split; [assumption |]. exists c0. split; [now left | assumption].
        -- right. split; [assumption |].
           destruct Hrest as [-> | Hnot]; [now left |].
           destruct (decide (k = "__proto__")) as [-> | Hp]; [now left |].
           right. rewrite not_elem_of_cons. split; [| assumption].
           intros ->. apply Hd. auto.
    + intros [(Hp & c & Hin & Hfv) | [Hlook Hrest]].
      * apply elem_of_cons in Hin as [[= <- <-] | Hin].
        -- right. split.
           ++ case_decide as Hd; [congruence | tauto].
           ++ right. assumption.
        -- left. eauto.
      * right. split.
        -- case_decide as Hd; [| assumption].
           destruct Hd as [-> Hp]. destruct Hrest as [-> | Hnot]; [tauto |].
           destruct Hnot. now left.
        -- destruct Hrest as [-> | Hnot]; [now left |].
           right. intros Hin. apply Hnot. now right.
Qed.

Lemma public_filter_spec (category : option string) (c : Configuration) :
  public_filter category c = true <-> isPublic c = true /\ selects category c.
Proof.
  unfold public_filter, selects. rewrite andb_true_iff.
  destruct category as [name|]; [| tauto].
  destruct (String.eqb_spec name "") as [-> | Hne].
  - tauto.
  - rewrite String.eqb_eq. tauto.
Qed.

(** What the loop of the handler leaves in the object, before it is sent:
    the formatted values of the selected public entries. *)
Lemma public_object (st : Store) (category : option string)
  (out : gmap string jsval) :
  forEach_assign (find (public_filter category) st) ∅ = Ok out ->
  forall k v,
    out !! k = Some v <->
    k <> "__proto__"
    /\ exists c, st !! k = Some c /\ isPublic c = true
                 /\ selects category c /\ formattedValue c = Ok v.
Proof.
  intros Hrun k v.
  rewrite (forEach_assign_lookup _ (NoDup_find _ st) _ _ k v Hrun).
  rewrite lookup_empty. split.
  - intros [(Hp & c & Hin & Hfv) | [[=] _]]. split; [assumption |].
    apply find_spec in Hin as [Hst Hf].
    apply public_filter_spec in Hf as [Hpub Hsel]. eauto 6.
  - intros (Hp & c & Hst & Hpub & Hsel & Hfv). left.
    split; [assumption |]. exists c. split; [| assumption].
    apply find_spec. split; [assumption |].
    apply public_filter_spec. auto.
Qed.

(** The loop returns exactly when the virtual is defined on every selected
    public entry. *)
Lemma public_object_is_Ok (st : Store) (category : option string) :
  is_Ok (forEach_assign (find (public_filter category) st) ∅) = true <->
  (forall k c, st !! k = Some c -> isPublic c = true ->
               selects category c -> is_Ok (formattedValue c) = true).
Proof.
  rewrite forEach_assign_is_Ok. split.
  - intros H k c Hst Hpub Hsel. apply (H k).
    apply find_spec. split; [assumption |]. apply public_filter_spec. auto.
  - intros H k c Hin. apply find_spec in Hin as [Hst Hf].
    apply public_filter_spec in Hf as [Hpub Hsel]. eauto.
Qed.

(** One selected public entry on which the virtual throws makes the answer
    a 500. *)
Lemma get_public_throws (st : Store) (category : option string)
  (k : string) (c : Configuration) :
  st !! k = Some c -> isPublic c = true -> selects category c ->
  is_Ok (formattedValue c) = false ->
  get_public st category
  = respond 500 (Message "Server error while fetching public configurations").
Proof.
  intros Hc Hp Hs Hv. unfold get_public.
  destruct (forEach_assign _ _) as [out|x] eqn:Hrun; [| reflexivity].
  assert (Hok : is_Ok (forEach_assign (find (public_filter category) st) ∅)
                = true) by now rewrite Hrun.
  rewrite public_object_is_Ok in Hok.
  rewrite (Hok k c) in Hv; [discriminate | assumption ..].
Qed.

(** The mapping of an answer 200. *)
Lemma get_public_mapping (st : Store) (category : option string)
  (configObject : gmap string jsval) :
  get_public st category = respond 200 (ConfigObject configObject) ->
  exists out,
    forEach_assign (find (public_filter category) st) ∅ = Ok out
    /\ configObject = omap to_JSON out.
Proof.
  unfold get_public.
  destruct (forEach_assign _ _) as [out|x]; [| discriminate].
  intros [= <-]. eauto.
Qed.

(** C7, amended.  For every collection and every category filter (an absent
    or empty category selects every category): if [formattedValue] is
    defined on every selected public entry, the endpoint answers 200 with a
    flat mapping that holds, under its key, the JSON form of the
    [formattedValue] of exactly the selected entries with [isPublic = true]
    whose [formattedValue] is not undefined (nothing is said here about the
    key [__proto__]); if [formattedValue] throws on some selected public
    entry, the endpoint answers 500 without a mapping; and no mapping it
    returns has an entry whose [isPublic] is false. *)
Theorem public_projection (st : Store) (category : option string) :
  ((forall k c, st !! k = Some c -> isPublic c = true ->
                selects category c -> is_Ok (formattedValue c) = true) ->
   exists configObject,
     get_public st category = respond 200 (ConfigObject configObject)
     /\ forall k v,
          k <> "__proto__" ->
          (configObject !! k = Some v <->
           exists c v0, st !! k = Some c /\ isPublic c = true
                        /\ selects category c /\ formattedValue c = Ok v0
                        /\ to_JSON v0 = Some v))
  /\ ((exists k c, st !! k = Some c /\ isPublic c = true
                   /\ selects category c
                   /\ is_Ok (formattedValue c) = false) ->
      get_public st category
      = respond 500
          (Message "Server error while fetching public configurations"))
  /\ (forall configObject k c,
        get_public st category = respond 200 (ConfigObject configObject) ->
        st !! k = Some c -> isPublic c = false -> configObject !! k = None).
Proof.
  split; [| split].
  - intros Hall. apply public_object_is_Ok in Hall. unfold get_public.
    destruct (forEach_assign _ _) as [out|x] eqn:Hrun; [| discriminate].
    eexists. split; [reflexivity |].
    intros k v Hk. rewrite lookup_omap. split.
    + destruct (out !! k) as [v0|] eqn:Hlook; simpl; [| discriminate].
      intros Hjson.
      apply (public_object _ _ _ Hrun) in Hlook as (_ & c & Hc).
      exists c, v0. tauto.
    + intros (c & v0 & Hst & Hpub & Hsel & Hfv & Hjson).
      assert (Hlook : out !! k = Some v0)
        by (apply (public_object _ _ _ Hrun); eauto 6).
      now rewrite Hlook.
  - intros (k & c & Hst & Hpub & Hsel & Hbad).
    now apply (get_public_throws st category k c).
  - intros o k c Hresp Hst Hpriv.
    apply get_public_mapping in Hresp as (out & Hrun & ->).
    rewrite lookup_omap.
    destruct (out !! k) as [v|] eqn:Hlook; [| reflexivity].
    apply (public_object _ _ _ Hrun) in Hlook as (_ & c' & Hst' & Hpub & _).
    congruence.
Qed.

End PublicProjection.

(** C7, counterexample.  Whatever the engine, a public [json] entry that is
    stored without a value is left out of the mapping, and the empty
    category, which is the category of no entry, selects every public
    entry; and with the public [json] entry [broken_json] in the collection
    the endpoint answers 500 and returns no mapping. *)
Lemma public_counterexample :
  (forall rt : Runtime, ~ @public_as_stated rt)
  /\ (forall rt : Runtime,
        @get_public rt (switches_store unset_switches) None
        = respond 200 (ConfigObject ∅)
        /\ @get_public rt {[ "maintenance_mode" := Seed.maintenance_mode ]}
             (Some "")
           = respond 200
               (ConfigObject {[ "maintenance_mode" := VBool false ]}))
  /\ get_public (switches_store broken_json) None
     = respond 500
         (Message "Server error while fetching public configurations").
Proof.
  assert (Hunset : forall rt : Runtime,
            @get_public rt (switches_store unset_switches) None
            = respond 200 (ConfigObject ∅)) by reflexivity.
  split; [| split; [intros rt; split; [apply Hunset | reflexivity]
                   | reflexivity]].
  intros rt H. destruct (H (switches_store unset_switches) None)
    as (o & Hresp & Hkeys).
  rewrite Hunset in Hresp. injection Hresp as <-.
  destruct (proj2 (Hkeys "feature_switches")) as [v Hv].
  - exists unset_switches. repeat split.
  - rewrite lookup_empty in Hv. discriminate.
Qed.

Lemma seeded_store_lookup (k : string) (c : Configuration) :
  seeded_store !! k = Some c ->
  c = Seed.maintenance_mode \/ c = Seed.assignment_late_penalty
  \/ c = Seed.theme_primary_color.
Proof.
  unfold seeded_store. intros H.
  apply lookup_insert_Some in H as [[_ <-] | [_ H]]; [auto |].
  apply lookup_insert_Some in H as [[_ <-] | [_ H]]; [auto |].
  apply lookup_singleton_Some in H as [_ <-]. auto.
Qed.

(** The first part of [public_projection] on three seeded documents, with
    the [ui] category selected. *)
Lemma public_projection_witness :
  exists configObject,
    get_public seeded_store (Some "ui")
    = respond 200 (ConfigObject configObject)
    /\ forall k v,
         k <> "__proto__" ->
         (configObject !! k = Some v <->
          exists c v0, seeded_store !! k = Some c /\ isPublic c = true
                       /\ selects (Some "ui") c /\ formattedValue c = Ok v0
                       /\ to_JSON v0 = Some v).
Proof.
  apply (proj1 (public_projection seeded_store (Some "ui"))).
  intros k c Hst _ _.
  destruct (seeded_store_lookup k c Hst) as [-> | [-> | ->]]; reflexivity.
Defined.

Example public_examples :
  get_public seeded_store (Some "ui")
  = respond 200 (ConfigObject {[ "theme_primary_color" := VStr "#3B82F6" ]})
  /\ get_public seeded_store (Some "")
     = respond 200 (ConfigObject
         {[ "maintenance_mode" := VBool false;
            "assignment_late_penalty" := VNum (Fin 10 0);
            "theme_primary_color" := VStr "#3B82F6" ]}).
Proof. split; vm_compute; reflexivity. Qed.

(** ** Callers *)

Lemma admin_only_admin {S : Type} (a : Authorization) (u : User) (st : S)
  (handler : User -> S * response) :
  admin_caller a u -> admin_only a st handler = handler u.
Proof.
  intros [Ha Hr]. unfold admin_only, authorize. rewrite Ha, Hr. reflexivity.
Qed.

(** Every other caller is turned away with 401 or 403 and changes
    nothing. *)
Lemma admin_only_cases {S : Type} (a : Authorization) (st : S)
  (handler : User -> S * response) :
  (exists u, admin_caller a u /\ admin_only a st handler = handler u)
  \/ (exists r, admin_only a st handler = (st, r)
                /\ (status r = 401 \/ status r = 403)).
Proof.
  unfold admin_only, admin_caller.
  destruct a as [| |[u|]]; simpl; eauto.
  destruct (isActive u); simpl; [| eauto].
  unfold authorize. destruct (role u) eqn:Hr; simpl; eauto 7.
Qed.

Lemma the_admin_caller : admin_caller admin_token the_admin.
Proof. split; reflexivity. Qed.

Lemma penalty_store_lookup (e : Configuration) :
  penalty_store e !! "assignment_late_penalty" = Some e.
Proof. apply lookup_singleton_eq. Qed.

Lemma color_store_lookup (e : Configuration) :
  color_store e !! "theme_primary_color" = Some e.
Proof. apply lookup_singleton_eq. Qed.

Lemma switches_store_lookup (e : Configuration) :
  switches_store e !! "feature_switches" = Some e.
Proof. apply lookup_singleton_eq. Qed.

(** ** The version counter of a saved document *)

Lemma nearest_double_next (n : Z) :
  safe_integer n -> nearest_double (n + 1) = n + 1.
Proof.
  unfold safe_integer, nearest_double. intros Hn.
  destruct (Z.ltb_spec (Z.abs (n + 1)) (2 ^ 53)) as [_ | Hge]; [reflexivity |].
  assert (Heq : n + 1 = 2 ^ 53) by lia. rewrite Heq. reflexivity.
Qed.

(** At 2^53 the counter stays where it is. *)
Lemma nearest_double_stuck : nearest_double (2 ^ 53 + 1) = 2 ^ 53.
Proof. reflexivity. Qed.

(** ** Saving a loaded document *)

Lemma truthy_not_nullish (v : jsval) : ToBoolean v = true -> is_nullish v = false.
Proof. now destruct v. Qed.

Lemma schema_validate_Ok (e : Configuration) :
  schema_validate e = Ok tt
  <-> is_nullish (value e) = false /\ description e <> "".
Proof.
  unfold schema_validate, required_failures.
  destruct (String.eqb_spec (description e) "") as [Hd | Hd];
    destruct (value e); simpl; split;
    try discriminate; try (intros [? ?]; congruence); auto.
Qed.

Lemma schema_validate_description (e : Configuration) :
  schema_validate e = Ok tt -> description e <> "".
Proof. intros H. now apply schema_validate_Ok in H. Qed.

Section Saving.
Context {rt : Runtime}.

Lemma validateValue_ext (e e' : Configuration) (v : jsval) :
  type e = type e' -> validation e = validation e' ->
  validateValue e v = validateValue e' v.
Proof. intros Ht Hv. unfold validateValue. now rewrite Ht, Hv. Qed.

Lemma validateValue_report (e : Configuration) (v : jsval)
  (res : validation_result) :
  validateValue e v = Ok res -> res = report (Model.errors res).
Proof.
  unfold validateValue. destruct (validation e); [| now intros [= <-]].
  destruct (match type e with TString => _ | _ => _ end); simpl;
    [now intros [= <-] | discriminate].
Qed.

Lemma save_Ok (st st' : Store) (key : string) (loaded doc : Configuration) :
  save st key loaded doc = Ok st' -> st' = <[key := doc]> st.
Proof.
  unfold save. destruct (schema_validate doc); simpl; [| discriminate].
  destruct (pre_save doc _); simpl; [| discriminate]. now intros [= <-].
Qed.

Lemma pre_save_accepts (doc : Configuration) (modified : bool) :
  is_Ok (pre_save doc modified)
  = negb modified || accepts doc (value doc).
Proof.
  unfold pre_save, accepts. destruct modified; [| reflexivity]. simpl.
  destruct (validateValue doc (value doc)) as [res|x]; simpl; [| reflexivity].
  now destruct (isValid res).
Qed.

Lemma accepts_with_value (e : Configuration) (v w : jsval)
  (userId : ObjectId) :
  accepts (with_value e w userId) v = accepts e v.
Proof. unfold accepts. now rewrite (validateValue_ext _ e v). Qed.

(** Saving the document of a reset or of a bulk item succeeds when the
    stored document satisfies the schema, the new value is neither null nor
    undefined, and the new value equals the stored one or is accepted by
    [validateValue]. *)
Lemma save_with_value_Ok (st : Store) (key : string) (e : Configuration)
  (v : jsval) (userId : ObjectId) :
  schema_validate e = Ok tt -> is_nullish v = false ->
  deepEqual v (value e) = true \/ accepts e v = true ->
  save st key e (with_value e v userId)
  = Ok (<[key := with_value e v userId]> st).
Proof.
  intros Hd Hv Hpass. apply schema_validate_description in Hd.
  assert (Hdoc : schema_validate (with_value e v userId) = Ok tt)
    by now apply schema_validate_Ok.
  unfold save. rewrite Hdoc. cbn [bind].
  assert (Hpre : is_Ok (pre_save (with_value e v userId)
                          (value_modified e (with_value e v userId))) = true).
  { rewrite pre_save_accepts. unfold value_modified. simpl.
    rewrite negb_involutive, accepts_with_value.
    destruct Hpass as [-> | ->]; [reflexivity | apply orb_true_r]. }
  destruct (pre_save _ _) as [[]|x]; [| discriminate].
  destruct v; try discriminate; reflexivity.
Qed.

(** It fails in the pre-save hook when the new value differs from the
    stored one and is not accepted. *)
Lemma save_with_value_rejected (st : Store) (key : string)
  (e : Configuration) (v : jsval) (userId : ObjectId) :
  deepEqual v (value e) = false -> accepts e v = false ->
  exists x, save st key e (with_value e v userId) = Throw x.
Proof.
  intros Hneq Hrej. unfold save.
  destruct (schema_validate _) as [[]|x]; simpl; [| eauto].
  assert (Hpre : is_Ok (pre_save (with_value e v userId)
                          (value_modified e (with_value e v userId))) = false).
  { rewrite pre_save_accepts. unfold value_modified. simpl.
    now rewrite negb_involutive, accepts_with_value, Hneq, Hrej. }
  destruct (pre_save _ _) as [[]|x]; [discriminate | simpl; eauto].
Qed.

Lemma save_cases (st : Store) (key : string) (loaded doc : Configuration) :
  save st key loaded doc = Ok (<[key := doc]> st)
  \/ exists x, save st key loaded doc = Throw x.
Proof.
  destruct (save st key loaded doc) as [st'|x] eqn:H; [| eauto].
  left. now rewrite (save_Ok _ _ _ _ _ H).
Qed.

End Saving.

(** ** Reset to default *)

Section Reset.
Context {rt : Runtime}.

Lemma post_reset_found (st : Store) (a : Authorization) (u : User)
  (key : string) (e : Configuration) :
  admin_caller a u -> st !! trim key = Some e ->
  post_reset st a key
  = if negb (ToBoolean (defaultValue e)) then
      (st, respond 400
             (Message "No default value available for this configuration"))
    else
      match save st (trim key) e (with_value e (defaultValue e) (_id u)) with
      | Ok st' =>
          (st', send_configuration 200 reset_message (trim key)
                  (with_value e (defaultValue e) (_id u))
                  (fun _ => reset_error))
      | Throw _ => (st, reset_error)
      end.
Proof.
  intros Ha Hst. unfold post_reset. rewrite (admin_only_admin _ _ _ _ Ha).
  unfold reset_handler. now rewrite Hst.
Qed.

Lemma post_reset_saved (st : Store) (a : Authorization) (u : User)
  (key : string) (e : Configuration) :
  admin_caller a u -> st !! trim key = Some e ->
  ToBoolean (defaultValue e) = true -> schema_validate e = Ok tt ->
  deepEqual (defaultValue e) (value e) = true
  \/ accepts e (defaultValue e) = true ->
  post_reset st a key
  = (<[trim key := with_value e (defaultValue e) (_id u)]> st,
     send_configuration 200 reset_message (trim key)
       (with_value e (defaultValue e) (_id u)) (fun _ => reset_error)).
Proof.
  intros Ha Hst Hdv Hd Hpass. rewrite (post_reset_found _ _ _ _ _ Ha Hst).
  rewrite Hdv. simpl.
  now rewrite (save_with_value_Ok _ _ _ _ _ Hd (truthy_not_nullish _ Hdv) Hpass).
Qed.

Lemma post_reset_rejected (st : Store) (a : Authorization) (u : User)
  (key : string) (e : Configuration) :
  admin_caller a u -> st !! trim key = Some e ->
  ToBoolean (defaultValue e) = true ->
  deepEqual (defaultValue e) (value e) = false ->
  accepts e (defaultValue e) = false ->
  post_reset st a key = (st, reset_error).
Proof.
  intros Ha Hst Hdv Hneq Hrej. rewrite (post_reset_found _ _ _ _ _ Ha Hst).
  rewrite Hdv. simpl.
  now destruct (save_with_value_rejected st (trim key) e _ (_id u) Hneq Hrej)
    as [x ->].
Qed.

(** The answer after a save: the given status, or the handler's own error
    when the virtual of the saved document throws. *)
Lemma send_configuration_cases (code : Z) (m key : string)
  (doc : Configuration) (on_error : exn -> response) :
  (is_Ok (formattedValue doc) = true
   /\ send_configuration code m key doc on_error
      = respond code (WithConfiguration m key doc))
  \/ (exists x, formattedValue doc = Throw x
                /\ send_configuration code m key doc on_error = on_error x).
Proof.
  unfold send_configuration. destruct (formattedValue doc) as [v|x]; eauto.
Qed.

Lemma send_configuration_status (code : Z) (m key : string)
  (doc : Configuration) :
  status (send_configuration code m key doc (fun _ => reset_error)) = code
  \/ status (send_configuration code m key doc (fun _ => reset_error)) = 500.
Proof. unfold send_configuration. destruct (formattedValue doc); auto. Qed.

Lemma send_configuration_plain (code : Z) (m key : string)
  (doc : Configuration) (on_error : exn -> response) :
  type doc <> TJson ->
  send_configuration code m key doc on_error
  = respond code (WithConfiguration m key doc).
Proof.
  intros Ht. apply formattedValue_total in Ht. unfold send_configuration.
  now destruct (formattedValue doc).
Qed.


End Reset.


(** What the code does on the seeded [maintenance_mode], whose configured
    default is [false]. *)
Example reset_maintenance_mode :
  post_reset {[ "maintenance_mode" := Seed.maintenance_mode ]} admin_token
    "maintenance_mode"
  = ({[ "maintenance_mode" := Seed.maintenance_mode ]},
     respond 400
       (Message "No default value available for this configuration")).
Proof.
  rewrite (post_reset_found _ admin_token the_admin "maintenance_mode"
             Seed.maintenance_mode the_admin_caller
             (lookup_singleton_eq "maintenance_mode" _)).
  reflexivity.
Qed.


(** ** Reset and the validation rules *)

Section ResetRules.
Context {rt : Runtime}.

(** C6, amended.  The reset handler does not call [validateValue] itself,
    but it persists through [save], whose pre-save hook validates the value
    whenever it was modified.  For every existing entry that satisfies the
    schema and has a truthy default, and every admin caller:
    - a default that differs from the stored value and is not accepted by
      the current rules is not persisted: reset answers 500 and changes
      nothing;
    - a default that differs from the stored value and is accepted is
      persisted;
    - a default equal to the stored value is persisted without validation,
      whatever the current rules say about it. *)
Theorem reset_validates_on_save (st : Store) (a : Authorization) (u : User)
  (key : string) (e : Configuration) :
  admin_caller a u -> st !! trim key = Some e ->
  ToBoolean (defaultValue e) = true -> schema_validate e = Ok tt ->
  (deepEqual (defaultValue e) (value e) = false ->
   accepts e (defaultValue e) = false ->
   post_reset st a key = (st, reset_error))
  /\ (deepEqual (defaultValue e) (value e) = false ->
      accepts e (defaultValue e) = true ->
      fst (post_reset st a key)
      = <[trim key := with_value e (defaultValue e) (_id u)]> st)
  /\ (deepEqual (defaultValue e) (value e) = true ->
      fst (post_reset st a key)
      = <[trim key := with_value e (defaultValue e) (_id u)]> st).
Proof.
  intros Ha Hst Hdv Hd. repeat split.
  - intros Hneq Hrej. apply (post_reset_rejected _ _ u _ e); assumption.
  - intros _ Hacc.
    now rewrite (post_reset_saved _ _ _ _ _ Ha Hst Hdv Hd (or_intror Hacc)).
  - intros Heq.
    now rewrite (post_reset_saved _ _ _ _ _ Ha Hst Hdv Hd (or_introl Heq)).
Qed.

End ResetRules.

(** C6, counterexample.  Whatever the engine, the late penalty whose
    configured default 150 is above the maximum of its rules is not reset:
    the answer is 500 and the stored value stays 15.  So it is with a theme
    colour whose configured default [blue] does not match the pattern of
    its rules. *)
Lemma reset_unvalidated_counterexample :
  (forall rt : Runtime, ~ @reset_unvalidated_as_stated rt)
  /\ (forall rt : Runtime,
        @validateValue rt overdrawn_penalty (VNum (Fin 150 0))
        = Ok (report ["Value must be at most "
                      +:+ @num_to_string rt (Fin 100 0)])
        /\ @post_reset rt (penalty_store overdrawn_penalty) admin_token
             "assignment_late_penalty"
           = (penalty_store overdrawn_penalty,
              respond 500
                (Message "Server error while resetting configuration")))
  /\ validateValue off_color (VStr "blue")
     = Ok (report ["Value does not match required pattern"])
  /\ post_reset (color_store off_color) admin_token "theme_primary_color"
     = (color_store off_color,
        respond 500 (Message "Server error while resetting configuration")).
Proof.
  assert (Hrun : forall rt : Runtime,
    @post_reset rt (penalty_store overdrawn_penalty) admin_token
      "assignment_late_penalty"
    = (penalty_store overdrawn_penalty, reset_error)).
  { intros rt.
    apply (post_reset_rejected _ _ the_admin _ overdrawn_penalty);
      [apply the_admin_caller | apply penalty_store_lookup | reflexivity ..]. }
  split; [| split; [intros rt; split; [reflexivity | apply Hrun] |]].
  - intros rt H.
    destruct (H (penalty_store overdrawn_penalty) admin_token the_admin
                "assignment_late_penalty" overdrawn_penalty the_admin_caller
                (penalty_store_lookup overdrawn_penalty))
      as (e' & Hlook & Hval); [reflexivity | reflexivity |].
    rewrite Hrun in Hlook. simpl in Hlook.
    replace (trim "assignment_late_penalty") with "assignment_late_penalty"
      in Hlook by reflexivity.
    rewrite penalty_store_lookup in Hlook. injection Hlook as <-.
    discriminate.
  - split; [reflexivity |].
    apply (post_reset_rejected _ _ the_admin _ off_color);
      [apply the_admin_caller | apply color_store_lookup | reflexivity ..].
Qed.

(** The three cases on the late penalty: the default 150 is refused while
    the value is 15; the default 10 is accepted and persisted; the default
    150 is persisted again at the next version, unvalidated, where it
    already is the value. *)
Lemma reset_validates_on_save_witness :
  (accepts overdrawn_penalty (VNum (Fin 150 0)) = false
   /\ post_reset (penalty_store overdrawn_penalty) admin_token
        "assignment_late_penalty"
      = (penalty_store overdrawn_penalty, reset_error))
  /\ (accepts edited_penalty (VNum (Fin 10 0)) = true
      /\ fst (post_reset (penalty_store edited_penalty) admin_token
                "assignment_late_penalty")
         = <["assignment_late_penalty" :=
               with_value edited_penalty (VNum (Fin 10 0)) 7%N]>
             (penalty_store edited_penalty))
  /\ (accepts stuck_penalty (VNum (Fin 150 0)) = false
      /\ fst (post_reset (penalty_store stuck_penalty) admin_token
                "assignment_late_penalty")
         = <["assignment_late_penalty" :=
               with_value stuck_penalty (VNum (Fin 150 0)) 7%N]>
             (penalty_store stuck_penalty)).
Proof.
  split; [| split]; (split; [reflexivity |]).
  - destruct (reset_validates_on_save (penalty_store overdrawn_penalty)
                admin_token the_admin "assignment_late_penalty"
                overdrawn_penalty the_admin_caller (penalty_store_lookup _)
                eq_refl eq_refl) as (Hrefused & _ & _).
    apply Hrefused; reflexivity.
  - destruct (reset_validates_on_save (penalty_store edited_penalty)
                admin_token the_admin "assignment_late_penalty"
                edited_penalty the_admin_caller (penalty_store_lookup _)
                eq_refl eq_refl) as (_ & Haccepted & _).
    apply Haccepted; reflexivity.
  - destruct (reset_validates_on_save (penalty_store stuck_penalty)
                admin_token the_admin "assignment_late_penalty"
                stuck_penalty the_admin_caller (penalty_store_lookup _)
                eq_refl eq_refl) as (_ & _ & Hsame).
    apply Hsame; reflexivity.
Defined.

(** ** Entries that are not editable *)

(** A handler behind [admin_only] that leaves the collection alone for
    every user leaves it alone for every caller. *)
Lemma admin_only_unchanged (a : Authorization) (st : Store)
  (handler : User -> Store * response) :
  (forall u, fst (handler u) = st /\ status (snd (handler u)) <> 200) ->
  fst (admin_only a st handler) = st
  /\ status (snd (admin_only a st handler)) <> 200.
Proof.
  intros H.
  destruct (admin_only_cases a st handler) as [(u & _ & ->) | (r & -> & Hr)];
    [apply H |].
  split; [reflexivity |]. simpl. destruct Hr as [-> | ->]; discriminate.
Qed.

Section Locked.
Context {rt : Runtime}.

Lemma put_key_not_editable (st : Store) (a : Authorization) (key : string)
  (b : UpdateBody.t) (e : Configuration) :
  st !! trim key = Some e -> isEditable e = false ->
  fst (put_key st a key b) = st /\ status (snd (put_key st a key b)) <> 200.
Proof.
  intros Hst He. apply admin_only_unchanged. intros u. unfold update_handler.
  destruct (update_checks b); [| split; [reflexivity | discriminate]].
  rewrite Hst, He. split; [reflexivity | discriminate].
Qed.

Lemma delete_key_not_editable (st : Store) (a : Authorization) (key : string)
  (e : Configuration) :
  st !! trim key = Some e -> isEditable e = false ->
  fst (delete_key st a key) = st /\ status (snd (delete_key st a key)) <> 200.
Proof.
  intros Hst He. apply admin_only_unchanged. intros u. unfold delete_handler.
  rewrite Hst, He. split; [reflexivity | discriminate].
Qed.

Lemma bulk_step_not_editable (userId : ObjectId) (s : bulk_state)
  (i : BulkItem.t) (e : Configuration) :
  store s !! trim (BulkItem.key i) = Some e -> isEditable e = false ->
  bulk_step userId s i
  = push_error s (BulkItem.key i) "Configuration is not editable".
Proof. intros Hst He. unfold bulk_step. now rewrite Hst, He. Qed.

End Locked.

(** C1, the failing input.  The locked late penalty (value 15, default 10,
    version 1) is reset by an admin: the handler answers 200 and the entry
    is stored with value 10, the caller as modifier and version 2, while an
    update and a delete of the same entry are refused and change nothing. *)
Theorem reset_mutates_locked_entry :
  isEditable locked_penalty = false
  /\ post_reset (penalty_store locked_penalty) admin_token
       "assignment_late_penalty"
     = (penalty_store (with_value locked_penalty (VNum (Fin 10 0)) 7%N),
        respond 200
          (WithConfiguration reset_message "assignment_late_penalty"
             (with_value locked_penalty (VNum (Fin 10 0)) 7%N)))
  /\ version (with_value locked_penalty (VNum (Fin 10 0)) 7%N) = 2
  /\ put_key (penalty_store locked_penalty) admin_token
       "assignment_late_penalty" (update_value (VNum (Fin 20 0)))
     = (penalty_store locked_penalty,
        respond 400 (Message "This configuration is not editable"))
  /\ delete_key (penalty_store locked_penalty) admin_token
       "assignment_late_penalty"
     = (penalty_store locked_penalty,
        respond 400 (Message "This configuration cannot be deleted")).
Proof.
  split; [reflexivity |]. split; [| repeat split].
  rewrite (post_reset_saved (penalty_store locked_penalty) admin_token
             the_admin "assignment_late_penalty" locked_penalty
             the_admin_caller (penalty_store_lookup _) eq_refl);
    [| reflexivity | right; reflexivity].
  unfold penalty_store.
  replace (trim "assignment_late_penalty") with "assignment_late_penalty"
    by reflexivity.
  now rewrite insert_singleton_eq.
Qed.

(** ** Update by key *)

Section Update.
Context {rt : Runtime}.

Lemma put_key_admin (st : Store) (a : Authorization) (u : User)
  (key : string) (b : UpdateBody.t) :
  admin_caller a u -> put_key st a key b = update_handler st key b u.
Proof. intros Ha. unfold put_key. now apply admin_only_admin. Qed.


End Update.



(** ** Bulk update *)

Lemma occurrences_app (k : string) (l l' : list string) :
  occurrences k (l ++ l') = (occurrences k l + occurrences k l')%nat.
Proof. unfold occurrences. now rewrite List.filter_app, length_app. Qed.

Lemma occurrences_cons (k key : string) (l : list string) :
  occurrences k (key :: l)
  = ((if String.eqb k (trim key) then 1 else 0) + occurrences k l)%nat.
Proof. unfold occurrences. simpl. now destruct (String.eqb k (trim key)). Qed.

Lemma flat_map_nil {A B} (f : A -> list B) (l : list A) (x : A) :
  flat_map f l = [] -> In x l -> f x = [].
Proof.
  induction l as [|y l IH]; simpl; [tauto |].
  intros H [-> | Hin]; apply app_eq_nil in H as [? ?]; auto.
Qed.

Lemma In_indexed (items : list BulkItem.t) (i : BulkItem.t) :
  In i items -> exists n, In (n, i) (indexed items).
Proof.
  unfold indexed. generalize 0%nat.
  induction items as [|j items IH]; intros a; simpl; [tauto |].
  intros [-> | Hin]; [eauto |].
  destruct (IH (S a) Hin) as [n Hn]. eauto.
Qed.

Section Bulk.
Context {rt : Runtime}.

Lemma bulk_step_not_found (userId : ObjectId) (s : bulk_state)
  (i : BulkItem.t) :
  store s !! trim (BulkItem.key i) = None ->
  bulk_step userId s i
  = push_error s (BulkItem.key i) "Configuration not found".
Proof. intros Hst. unfold bulk_step. now rewrite Hst. Qed.

Lemma bulk_step_invalid (userId : ObjectId) (s : bulk_state)
  (i : BulkItem.t) (e : Configuration) (res : validation_result) :
  store s !! trim (BulkItem.key i) = Some e -> isEditable e = true ->
  validateValue e (BulkItem.value i) = Ok res -> isValid res = false ->
  bulk_step userId s i
  = push_error s (BulkItem.key i)
      ("Validation failed: " +:+ join ", " (Model.errors res)).
Proof.
  intros Hst He Hres Hbad. unfold bulk_step. now rewrite Hst, He, Hres, Hbad.
Qed.

Lemma bulk_step_throws (userId : ObjectId) (s : bulk_state)
  (i : BulkItem.t) (e : Configuration) (x : exn) :
  store s !! trim (BulkItem.key i) = Some e -> isEditable e = true ->
  validateValue e (BulkItem.value i) = Throw x ->
  bulk_step userId s i = push_error s (BulkItem.key i) (exn_message x).
Proof.
  intros Hst He Hres. unfold bulk_step. now rewrite Hst, He, Hres.
Qed.

Lemma bulk_step_applied (userId : ObjectId) (s : bulk_state)
  (i : BulkItem.t) (e : Configuration) :
  store s !! trim (BulkItem.key i) = Some e -> isEditable e = true ->
  accepts e (BulkItem.value i) = true ->
  schema_validate e = Ok tt -> is_nullish (BulkItem.value i) = false ->
  bulk_step userId s i
  = applied s (BulkItem.key i) (with_value e (BulkItem.value i) userId).
Proof.
  intros Hst He Hacc Hd Hv. unfold bulk_step. rewrite Hst, He. simpl.
  unfold accepts in Hacc.
  destruct (validateValue e (BulkItem.value i)) as [res|x] eqn:Hres;
    [| discriminate].
  rewrite Hacc. simpl.
  rewrite (save_with_value_Ok _ _ _ _ _ Hd Hv); [reflexivity |].
  right. unfold accepts. now rewrite Hres.
Qed.

(** One round pushes exactly one report: an error, with the collection
    untouched, or the key, with the entry saved at the next version. *)
Lemma bulk_step_cases (userId : ObjectId) (s : bulk_state) (i : BulkItem.t) :
  (exists m, bulk_step userId s i = push_error s (BulkItem.key i) m)
  \/ (exists e, store s !! trim (BulkItem.key i) = Some e
                /\ isEditable e = true
                /\ accepts e (BulkItem.value i) = true
                /\ bulk_step userId s i
                   = applied s (BulkItem.key i)
                       (with_value e (BulkItem.value i) userId)).
Proof.
  unfold bulk_step.
  destruct (store s !! trim (BulkItem.key i)) as [e|] eqn:Hst; [| eauto].
  destruct (isEditable e) eqn:He; simpl; [| eauto].
  destruct (validateValue e (BulkItem.value i)) as [res|x] eqn:Hres; [| eauto].
  destruct (isValid res) eqn:Hvalid; simpl; [| eauto].
  destruct (save_cases (store s) (trim (BulkItem.key i)) e
              (with_value e (BulkItem.value i) userId)) as [-> | [x ->]];
    [| eauto].
  right. exists e. unfold accepts. rewrite Hres. auto.
Qed.

Lemma bulk_loop_app (userId : ObjectId) (s : bulk_state)
  (xs ys : list BulkItem.t) :
  bulk_loop userId s (xs ++ ys) = bulk_loop userId (bulk_loop userId s xs) ys.
Proof. apply fold_left_app. Qed.

Lemma bulk_loop_cons (userId : ObjectId) (s : bulk_state) (i : BulkItem.t)
  (ys : list BulkItem.t) :
  bulk_loop userId s (i :: ys) = bulk_loop userId (bulk_step userId s i) ys.
Proof. reflexivity. Qed.

(** Every item yields exactly one report. *)
Lemma bulk_loop_reports (userId : ObjectId) (items : list BulkItem.t)
  (s : bulk_state) :
  (List.length (results (bulk_loop userId s items))
   + List.length (Routes.errors (bulk_loop userId s items)))%nat
  = (List.length (results s) + List.length (Routes.errors s)
     + List.length items)%nat.
Proof.
  revert s. induction items as [|i items IH]; intros s; simpl; [lia |].
  fold (bulk_loop userId (bulk_step userId s i) items). rewrite IH.
  destruct (bulk_step_cases userId s i) as [[m ->] | (e & _ & _ & _ & ->)];
    simpl; rewrite length_app; simpl; lia.
Qed.

(** The version of an entry grows by the number of times a key that names
    it was added to the results, as long as it stays below 2^53. *)
Lemma bulk_loop_versions (userId : ObjectId) (items : list BulkItem.t)
  (s : bulk_state) (k : string) (e : Configuration) :
  store s !! k = Some e ->
  Z.abs (version e) + Z.of_nat (List.length items) <= 2 ^ 53 ->
  exists e' new,
    store (bulk_loop userId s items) !! k = Some e'
    /\ results (bulk_loop userId s items) = (results s ++ new)%list
    /\ version e' = version e + Z.of_nat (occurrences k new).
Proof.
  revert s e. induction items as [|i items IH]; intros s e Hst Hbound.
  - exists e, []. simpl. rewrite app_nil_r. split; [assumption |].
    split; [reflexivity | unfold occurrences; simpl; lia].
  - rewrite bulk_loop_cons. simpl List.length in Hbound.
    destruct (bulk_step_cases userId s i)
      as [[m Hstep] | (e0 & Hst0 & _ & _ & Hstep)]; rewrite Hstep.
    + destruct (IH (push_error s (BulkItem.key i) m) e Hst)
        as (e' & new & Hlook & Hres & Hver); [lia |].
      exists e', new. auto.
    + destruct (String.eqb_spec k (trim (BulkItem.key i))) as [Hk | Hne].
      * rewrite <- Hk in Hst0. rewrite Hst in Hst0. injection Hst0 as <-.
        assert (Hnext : version (with_value e (BulkItem.value i) userId)
                        = version e + 1).
        { simpl. apply nearest_double_next. unfold safe_integer. lia. }
        destruct (IH (applied s (BulkItem.key i)
                        (with_value e (BulkItem.value i) userId))
                     (with_value e (BulkItem.value i) userId))
          as (e' & new & Hlook & Hres & Hver).
        { simpl. rewrite <- Hk. apply lookup_insert_eq. }
        { rewrite Hnext. lia. }
        exists e', (BulkItem.key i :: new). split; [assumption |]. split.
        -- rewrite Hres. simpl. now rewrite <- app_assoc.
        -- rewrite Hver, Hnext, occurrences_cons.
           destruct (String.eqb_spec k (trim (BulkItem.key i)));
             [lia | contradiction].
      * destruct (IH (applied s (BulkItem.key i)
                        (with_value e0 (BulkItem.value i) userId)) e)
          as (e' & new & Hlook & Hres & Hver).
        { simpl. rewrite lookup_insert_ne; [assumption | congruence]. }
        { lia. }
        exists e', (BulkItem.key i :: new). split; [assumption |]. split.
        -- rewrite Hres. simpl. now rewrite <- app_assoc.
        -- rewrite Hver, occurrences_cons.
           destruct (String.eqb_spec k (trim (BulkItem.key i)));
             [contradiction | reflexivity].
Qed.

Lemma notEmpty_not_nullish (p m : string) (v : jsval) :
  notEmpty p m v = [] -> is_nullish v = false.
Proof. now destruct v. Qed.

Lemma bulk_checks_item (items : list BulkItem.t) (i : BulkItem.t) :
  bulk_checks items = [] -> In i items ->
  BulkItem.key i <> "" /\ is_nullish (BulkItem.value i) = false.
Proof.
  unfold bulk_checks. intros H Hin.
  apply app_eq_nil in H as [Hk Hv].
  destruct (In_indexed items i Hin) as [n Hn].
  assert (Hk' := flat_map_nil _ _ (n, i) Hk Hn).
  assert (Hv' := flat_map_nil _ _ (n, i) Hv Hn).
  cbv beta in Hk', Hv'. simpl in Hk', Hv'.
  split; [| now apply notEmpty_not_nullish in Hv'].
  intros Hempty. rewrite Hempty in Hk'. discriminate.
Qed.


End Bulk.



(** ** The version counter *)

Lemma update_error_status (x : exn) : status (update_error x) <> 200.
Proof. destruct x; discriminate. Qed.

Section Version.
Context {rt : Runtime}.

(** An update changes nothing and is not answered 200, or it saves the
    entry that its key names and answers through [send_configuration]. *)
Lemma update_handler_effect (st : Store) (key : string) (b : UpdateBody.t)
  (u : User) :
  (fst (update_handler st key b u) = st
   /\ status (snd (update_handler st key b u)) <> 200)
  \/ exists e,
       st !! trim key = Some e /\ isEditable e = true
       /\ update_handler st key b u
          = (<[trim key := updated e b (_id u)]> st,
             send_configuration 200 "Configuration updated successfully"
               (trim key) (updated e b (_id u)) update_error).
Proof.
  unfold update_handler.
  destruct (update_checks b); [| left; split; [reflexivity | discriminate]].
  destruct (st !! trim key) as [e|] eqn:Hst;
    [| left; split; [reflexivity | discriminate]].
  destruct (isEditable e) eqn:He; simpl;
    [| left; split; [reflexivity | discriminate]].
  destruct (if is_undefined _ then _ else _) as [res|x];
    [| left; split; [reflexivity | apply update_error_status]].
  destruct (isValid res); simpl;
    [| left; split; [reflexivity | discriminate]].
  destruct (save_cases st (trim key) e (updated e b (_id u)))
    as [-> | [x ->]];
    [| left; split; [reflexivity | apply update_error_status]].
  right. exists e. auto.
Qed.

Lemma reset_handler_effect (st : Store) (key : string) (u : User) :
  (fst (reset_handler st key u) = st
   /\ status (snd (reset_handler st key u)) <> 200)
  \/ exists e,
       st !! trim key = Some e
       /\ reset_handler st key u
          = (<[trim key := with_value e (defaultValue e) (_id u)]> st,
             send_configuration 200 reset_message (trim key)
               (with_value e (defaultValue e) (_id u))
               (fun _ => reset_error)).
Proof.
  unfold reset_handler.
  destruct (st !! trim key) as [e|] eqn:Hst;
    [| left; split; [reflexivity | discriminate]].
  destruct (ToBoolean (defaultValue e)); simpl;
    [| left; split; [reflexivity | discriminate]].
  destruct (save_cases st (trim key) e
              (with_value e (defaultValue e) (_id u))) as [-> | [x ->]];
    [| left; split; [reflexivity | discriminate]].
  right. exists e. auto.
Qed.

(** The answer after a save is 200, or the virtual of the saved document
    throws, which it does on [json] entries only. *)
Lemma send_configuration_saved (m key : string) (doc : Configuration)
  (on_error : exn -> response) :
  (forall x, status (on_error x) <> 200) ->
  (status (send_configuration 200 m key doc on_error) =? 200) = true
  \/ ((status (send_configuration 200 m key doc on_error) =? 200) = false
      /\ type doc = TJson /\ is_Ok (formattedValue doc) = false).
Proof.
  intros Herr.
  destruct (send_configuration_cases 200 m key doc on_error)
    as [[_ ->] | (x & Hx & ->)]; [now left |].
  right. split; [apply Z.eqb_neq, Herr |].
  destruct (proj1 (formattedValue_Throw doc x) Hx) as [Ht _].
  now rewrite Hx.
Qed.

(** What one mutation does to the entry [k]: it leaves it as it is, and
    then it was not a success on [k]; or it names [k] and saves it at the
    next version, and then it was a success unless the entry is of type
    [json] and the virtual of the saved document throws. *)
Lemma apply_mutation_effect (k : string) (st : Store) (m : mutation)
  (e : Configuration) :
  st !! k = Some e ->
  (apply_mutation st m !! k = Some e
   /\ String.eqb k (target m) && succeeded st m = false)
  \/ (exists e',
        apply_mutation st m !! k = Some e'
        /\ type e' = type e
        /\ version e' = nearest_double (version e + 1)
        /\ k = target m
        /\ (succeeded st m = true
            \/ (succeeded st m = false /\ type e = TJson
                /\ is_Ok (formattedValue e') = false))).
Proof.
  intros Hst. destruct m as [a key b | userId i | a key]; simpl.
  - unfold put_key.
    destruct (admin_only_cases a st (update_handler st key b))
      as [(u & _ & ->) | (r & -> & Hr)].
    + destruct (update_handler_effect st key b u)
        as [[Hsame Hno] | (e0 & Hst0 & _ & ->)].
      * left. rewrite Hsame. split; [assumption |].
        apply Z.eqb_neq in Hno. rewrite Hno. apply andb_false_r.
      * simpl. destruct (String.eqb_spec k (trim key)) as [-> | Hne].
        -- right. rewrite Hst in Hst0. injection Hst0 as <-.
           exists (updated e b (_id u)). rewrite lookup_insert_eq.
           repeat split.
           destruct (send_configuration_saved
                       "Configuration updated successfully" (trim key)
                       (updated e b (_id u)) update_error
                       update_error_status) as [-> | (-> & Ht & Hbad)];
             [now left | right; auto].
        -- left. rewrite lookup_insert_ne by congruence. auto.
    + left. simpl. split; [assumption |].
      destruct Hr as [-> | ->]; apply andb_false_r.
  - destruct (bulk_step_cases userId (bulk_init st) i)
      as [[msg ->] | (e0 & Hst0 & _ & _ & ->)]; simpl.
    + left. split; [assumption | apply andb_false_r].
    + simpl in Hst0.
      destruct (String.eqb_spec k (trim (BulkItem.key i))) as [-> | Hne].
      * right. rewrite Hst in Hst0. injection Hst0 as <-.
        exists (with_value e (BulkItem.value i) userId).
        rewrite lookup_insert_eq. repeat split. now left.
      * left. rewrite lookup_insert_ne by congruence. auto.
  - unfold post_reset.
    destruct (admin_only_cases a st (reset_handler st key))
      as [(u & _ & ->) | (r & -> & Hr)].
    + destruct (reset_handler_effect st key u)
        as [[Hsame Hno] | (e0 & Hst0 & ->)].
      * left. rewrite Hsame. split; [assumption |].
        apply Z.eqb_neq in Hno. rewrite Hno. apply andb_false_r.
      * simpl. destruct (String.eqb_spec k (trim key)) as [-> | Hne].
        -- right. rewrite Hst in Hst0. injection Hst0 as <-.
           exists (with_value e (defaultValue e) (_id u)).
           rewrite lookup_insert_eq. repeat split.
           destruct (send_configuration_saved reset_message (trim key)
                       (with_value e (defaultValue e) (_id u))
                       (fun _ => reset_error))
             as [-> | (-> & Ht & Hbad)];
             [discriminate | now left | right; auto].
        -- left. rewrite lookup_insert_ne by congruence. auto.
    + left. simpl. split; [assumption |].
      destruct Hr as [-> | ->]; apply andb_false_r.
Qed.

(** One mutation below 2^53 leaves an entry as it is or saves it with the
    version higher by exactly 1. *)
Lemma apply_mutation_version (st : Store) (m : mutation) (k : string)
  (e : Configuration) :
  st !! k = Some e -> safe_integer (version e) ->
  apply_mutation st m !! k = Some e
  \/ exists e', apply_mutation st m !! k = Some e'
                /\ version e' = version e + 1.
Proof.
  intros Hst Hsafe.
  destruct (apply_mutation_effect k st m e Hst)
    as [[Hsame _] | (e' & Hlook & _ & Hver & _)]; [now left |].
  right. exists e'. split; [assumption |].
  now rewrite Hver, nearest_double_next.
Qed.

Lemma create_error_status (x : exn) : status (create_error x) <> 201.
Proof. destruct x; discriminate. Qed.

(** What a creation does: nothing, or it stores the new document, as it is
    written, under the trimmed key, which was free. *)
Lemma post_create_effect (st : Store) (a : Authorization) (b : CreateBody.t) :
  (fst (post_create st a b) = st
   /\ status (snd (post_create st a b)) <> 201)
  \/ exists u t c,
       st !! trim (CreateBody.key b) = None
       /\ type_of_name (CreateBody.type b) = Some t
       /\ fst (post_create st a b)
          = <[trim (CreateBody.key b)
              := written (new_Configuration b t c (_id u))]> st.
Proof.
  unfold post_create.
  destruct (admin_only_cases a st (create_handler st b))
    as [(u & _ & ->) | (r & -> & Hr)];
    [| left; split; [reflexivity | simpl; destruct Hr as [-> | ->]; discriminate]].
  unfold create_handler.
  destruct (create_checks b); [| left; split; [reflexivity | discriminate]].
  destruct (st !! trim (CreateBody.key b)) eqn:Hfree;
    [left; split; [reflexivity | discriminate] |].
  destruct (type_of_name _) as [t|] eqn:Ht;
    [| left; split; [reflexivity | discriminate]].
  destruct (category_of_name _) as [c|];
    [| left; split; [reflexivity | discriminate]].
  unfold save_new.
  destruct (String.eqb (trim (CreateBody.key b)) "");
    [left; split; [reflexivity | discriminate] |].
  destruct (schema_validate _); cbn [bind];
    [| left; split; [reflexivity | apply create_error_status]].
  destruct (pre_save (new_Configuration b t c (_id u)) true); cbn [bind];
    [| left; split; [reflexivity | apply create_error_status]].
  rewrite Hfree. right. exists u, t, c. auto.
Qed.

(** Creation stores the new entry at version 1, under a key that was
    free. *)
Lemma post_create_version (st : Store) (a : Authorization)
  (b : CreateBody.t) (k : string) :
  fst (post_create st a b) !! k <> st !! k ->
  st !! k = None
  /\ exists e, fst (post_create st a b) !! k = Some e /\ version e = 1
               /\ type_of_name (CreateBody.type b) = Some (type e).
Proof.
  destruct (post_create_effect st a b)
    as [[-> _] | (u & t & c & Hfree & Ht & ->)]; [now intros H |].
  intros Hchanged.
  destruct (decide (trim (CreateBody.key b) = k)) as [<- | Hne].
  - split; [assumption |]. eexists. rewrite lookup_insert_eq.
    split; [reflexivity |]. split; [reflexivity | exact Ht].
  - now rewrite lookup_insert_ne in Hchanged.
Qed.

(** A creation answered 201 has stored the entry at version 1. *)
Lemma post_create_success (st : Store) (a : Authorization)
  (b : CreateBody.t) :
  status (snd (post_create st a b)) = 201 ->
  st !! trim (CreateBody.key b) = None
  /\ exists e, fst (post_create st a b) !! trim (CreateBody.key b) = Some e
               /\ version e = 1.
Proof.
  destruct (post_create_effect st a b)
    as [[_ Hno] | (u & t & c & Hfree & Ht & ->)]; [contradiction |].
  intros _. split; [assumption |]. eexists. rewrite lookup_insert_eq.
  split; reflexivity.
Qed.

(** The count of a run exists. *)
Lemma applied_count_total (k : string) (ms : list mutation) (st : Store)
  (e : Configuration) :
  st !! k = Some e ->
  Z.abs (version e) + Z.of_nat (List.length ms) <= 2 ^ 53 ->
  exists n, applied_count k st ms n (run_mutations st ms).
Proof.
  revert st e. induction ms as [|m ms IH]; intros st e Hst Hbound.
  - exists 0%nat. constructor.
  - simpl List.length in Hbound. simpl.
    destruct (apply_mutation_version st m k e Hst)
      as [Hsame | (e' & Hlook & Hver)]; [unfold safe_integer; lia | |].
    + destruct (IH _ e Hsame) as [n Hn]; [lia |]. exists n.
      apply count_skip; [congruence | assumption].
    + destruct (IH _ e' Hlook) as [n Hn]; [lia |]. exists (S n).
      apply count_hit; [| assumption].
      rewrite Hlook, Hst. intros [= ->]. lia.
Qed.

Lemma applied_count_version (k : string) (st st' : Store)
  (ms : list mutation) (n : nat) (e : Configuration) :
  st !! k = Some e ->
  Z.abs (version e) + Z.of_nat (List.length ms) <= 2 ^ 53 ->
  applied_count k st ms n st' ->
  exists e', st' !! k = Some e' /\ version e' = version e + Z.of_nat n.
Proof.
  intros Hst Hbound Hrun. revert e Hst Hbound.
  induction Hrun as [st | st m ms n st' Hsame _ IH | st m ms n st' Hhit _ IH];
    intros e Hst Hbound; simpl List.length in Hbound.
  - exists e. split; [assumption | lia].
  - apply IH; [congruence | lia].
  - destruct (apply_mutation_version st m k e Hst)
      as [Hsame | (e1 & Hlook & Hver)];
      [unfold safe_integer; lia | congruence |].
    destruct (IH e1 Hlook) as (e' & Hlook' & Hver'); [lia |].
    exists e'. split; [assumption | lia].
Qed.

(** On an entry that is not of type [json], the version grows by the number
    of mutations that named it and were answered with success. *)
Lemma successes_version (k : string) (ms : list mutation) (st : Store)
  (e : Configuration) :
  st !! k = Some e -> type e <> TJson ->
  Z.abs (version e) + Z.of_nat (List.length ms) <= 2 ^ 53 ->
  exists e', run_mutations st ms !! k = Some e'
             /\ version e' = version e + Z.of_nat (successes k st ms).
Proof.
  revert st e. induction ms as [|m ms IH]; intros st e Hst Ht Hbound.
  - exists e. simpl. split; [assumption | lia].
  - simpl List.length in Hbound. simpl.
    destruct (apply_mutation_effect k st m e Hst)
      as [[Hsame Hno] | (e' & Hlook & Hty & Hver & Hk & Hok)].
    + destruct (IH _ e Hsame Ht) as (e' & Hlook & Hver); [lia |].
      exists e'. split; [assumption |]. rewrite Hno. simpl. lia.
    + destruct Hok as [Hok | (_ & Hjson & _)]; [| contradiction].
      rewrite nearest_double_next in Hver by (unfold safe_integer; lia).
      destruct (IH _ e' Hlook) as (e2 & Hlook2 & Hver2);
        [congruence | lia |].
      exists e2. split; [assumption |].
      subst k. rewrite Hok, String.eqb_refl. simpl (true && true).
      cbv iota. lia.
Qed.

Lemma type_of_name_json (s : string) :
  type_of_name s = Some TJson -> s = "json".
Proof.
  unfold type_of_name. intros H. apply find_some in H as [_ H].
  apply String.eqb_eq in H. now subst.
Qed.


End Version.



(** ** The schema invariant of the collection

    A document reaches the collection through [save], so a stored document
    satisfies the schema, which is the standing assumption
    [schema_validate e = Ok tt] of the statements above; the one exception
    is a document created with a value that [minimize] removes. *)

Lemma valid_store_empty : valid_store ∅.
Proof. intros k e H. now rewrite lookup_empty in H. Qed.

Lemma valid_store_insert (st : Store) (k : string) (doc : Configuration) :
  valid_store st -> schema_validate doc = Ok tt ->
  valid_store (<[k := doc]> st).
Proof.
  intros Hst Hdoc k' e Hlook.
  apply lookup_insert_Some in Hlook as [[_ <-] | [_ Hlook]]; eauto.
Qed.

Lemma valid_store_delete (st : Store) (k : string) :
  valid_store st -> valid_store (delete k st).
Proof.
  intros Hst k' e Hlook. apply lookup_delete_Some in Hlook as [_ Hlook].
  eauto.
Qed.

Section SchemaInvariant.
Context {rt : Runtime}.

Lemma save_valid (st st' : Store) (key : string) (loaded doc : Configuration) :
  valid_store st -> save st key loaded doc = Ok st' -> valid_store st'.
Proof.
  unfold save. intros Hst.
  destruct (schema_validate doc) as [[]|x] eqn:Hdoc; cbn [bind];
    [| discriminate].
  destruct (pre_save doc _); cbn [bind]; [| discriminate].
  intros [= <-]. now apply valid_store_insert.
Qed.

Lemma save_new_valid (st st' : Store) (key : string) (doc : Configuration) :
  valid_store st -> is_nullish (minimize (value doc)) = false ->
  save_new st key doc = Ok st' -> valid_store st'.
Proof.
  unfold save_new. intros Hst Hmin.
  destruct (String.eqb (trim key) ""); [discriminate |].
  destruct (schema_validate doc) as [[]|x] eqn:Hdoc; cbn [bind];
    [| discriminate].
  destruct (pre_save doc true); cbn [bind]; [| discriminate].
  destruct (st !! trim key); [discriminate |].
  intros [= <-]. apply valid_store_insert; [assumption |].
  apply schema_validate_Ok in Hdoc as [_ Hd].
  now apply schema_validate_Ok.
Qed.

Lemma admin_only_valid (a : Authorization) (st : Store)
  (handler : User -> Store * response) :
  valid_store st -> (forall u, valid_store (fst (handler u))) ->
  valid_store (fst (admin_only a st handler)).
Proof.
  intros Hst H.
  destruct (admin_only_cases a st handler) as [(u & _ & ->) | (r & -> & _)];
    [apply H | assumption].
Qed.

Lemma bulk_step_valid (userId : ObjectId) (s : bulk_state) (i : BulkItem.t) :
  valid_store (store s) -> valid_store (store (bulk_step userId s i)).
Proof.
  intros Hst. unfold bulk_step.
  destruct (store s !! trim (BulkItem.key i)) as [e|]; [| assumption].
  destruct (isEditable e); simpl; [| assumption].
  destruct (validateValue e (BulkItem.value i)) as [res|x]; [| assumption].
  destruct (isValid res); simpl; [| assumption].
  destruct (save _ _ _ _) as [st'|x] eqn:Hsave; [| assumption].
  simpl. eapply save_valid; eassumption.
Qed.

Lemma bulk_loop_valid (userId : ObjectId) (items : list BulkItem.t)
  (s : bulk_state) :
  valid_store (store s) -> valid_store (store (bulk_loop userId s items)).
Proof.
  revert s. induction items as [|i items IH]; intros s Hst; [assumption |].
  apply IH, bulk_step_valid, Hst.
Qed.

(** Every handler keeps the collection schema-valid, a creation whenever
    [minimize] leaves a value. *)
Theorem handlers_keep_schema (st : Store) (a : Authorization) :
  valid_store st ->
  (forall b, is_nullish (minimize (CreateBody.value b)) = false ->
             valid_store (fst (post_create st a b)))
  /\ (forall key b, valid_store (fst (put_key st a key b)))
  /\ (forall key, valid_store (fst (delete_key st a key)))
  /\ (forall items, valid_store (fst (post_bulk_update st a items)))
  /\ (forall key, valid_store (fst (post_reset st a key))).
Proof.
  intros Hst. repeat split.
  - intros b Hmin. apply admin_only_valid; [assumption |]. intros u.
    unfold create_handler.
    destruct (create_checks b); [| assumption].
    destruct (st !! trim (CreateBody.key b)); [assumption |].
    destruct (type_of_name _) as [t|]; [| assumption].
    destruct (category_of_name _) as [c|]; [| assumption].
    destruct (save_new _ _ _) as [st'|x] eqn:Hsave; [| assumption].
    simpl.
    exact (save_new_valid st st' (CreateBody.key b)
             (new_Configuration b t c (_id u)) Hst Hmin Hsave).
  - intros key b. apply admin_only_valid; [assumption |]. intros u.
    unfold update_handler.
    destruct (update_checks b); [| assumption].
    destruct (st !! trim key) as [e|]; [| assumption].
    destruct (isEditable e); simpl; [| assumption].
    destruct (if is_undefined _ then _ else _) as [res|x]; [| assumption].
    destruct (isValid res); simpl; [| assumption].
    destruct (save _ _ _ _) as [st'|x] eqn:Hsave; [| assumption].
    simpl. eapply save_valid; eassumption.
  - intros key. apply admin_only_valid; [assumption |]. intros u.
    unfold delete_handler.
    destruct (st !! trim key) as [e|]; [| assumption].
    destruct (isEditable e); simpl; [| assumption].
    now apply valid_store_delete.
  - intros items. apply admin_only_valid; [assumption |]. intros u.
    unfold bulk_update_handler.
    destruct (bulk_checks items); [| assumption].
    simpl. now apply bulk_loop_valid.
  - intros key. apply admin_only_valid; [assumption |]. intros u.
    unfold reset_handler.
    destruct (st !! trim key) as [e|]; [| assumption].
    destruct (ToBoolean (defaultValue e)); simpl; [| assumption].
    destruct (save _ _ _ _) as [st'|x] eqn:Hsave; [| assumption].
    simpl. eapply save_valid; eassumption.
Qed.

End SchemaInvariant.

(** * Further properties of the handlers *)

(** ** Callers without the admin role *)

Lemma admin_only_refused {S : Type} (a : Authorization) (st : S)
  (handler : User -> S * response) :
  (forall r0, auth a = inl r0 -> admin_only a st handler = (st, r0))
  /\ (forall u, auth a = inr u -> role u <> admin ->
      admin_only a st handler
      = (st, respond 403
               (Message "Access denied. Required role: admin"))).
Proof.
  unfold admin_only. split.
  - intros r0 ->. reflexivity.
  - intros u -> Hr. unfold authorize.
    destruct (role u); try reflexivity; congruence.
Qed.

Lemma admin_only_store (P : Store -> Prop) (a : Authorization) (st : Store)
  (handler : User -> Store * response) :
  P st -> (forall u, P (fst (handler u))) -> P (fst (admin_only a st handler)).
Proof.
  intros Hst Hh.
  destruct (admin_only_cases a st handler) as [(u & _ & ->) | (r & -> & _)];
    [apply Hh | exact Hst].
Qed.

Lemma admin_only_status {S : Type} (a : Authorization) (st : S)
  (handler : User -> S * response) (code : Z) :
  code <> 401 -> code <> 403 ->
  status (snd (admin_only a st handler)) = code ->
  exists u, admin_caller a u /\ admin_only a st handler = handler u.
Proof.
  intros H1 H3.
  destruct (admin_only_cases a st handler)
    as [(u & Hu & Heq) | (r & -> & [Hr | Hr])]; simpl;
    [exists u; auto | congruence ..].
Qed.

Lemma same_settings_refl (e : Configuration) : same_settings e e.
Proof. repeat split. Qed.

Lemma same_settings_trans (e1 e2 e3 : Configuration) :
  same_settings e1 e2 -> same_settings e2 e3 -> same_settings e1 e3.
Proof. unfold same_settings. intuition congruence. Qed.

Lemma same_settings_updated (e : Configuration) (b : UpdateBody.t)
  (userId : ObjectId) : same_settings e (updated e b userId).
Proof. repeat split. Qed.

Lemma same_settings_with_value (e : Configuration) (v : jsval)
  (userId : ObjectId) : same_settings e (with_value e v userId).
Proof. repeat split. Qed.

Section Requests.
Context {rt : Runtime}.

(** X1.  A caller who is not an active admin changes nothing: whatever
    [auth] answers (401) is the response, and a user with another role is
    answered 403 with the required role. *)
Theorem only_admins_write (st : Store) (a : Authorization) (r : request) :
  (forall r0, auth a = inl r0 -> serve st a r = (st, r0) /\ status r0 = 401)
  /\ (forall u, auth a = inr u -> role u <> admin ->
      serve st a r
      = (st, respond 403 (Message "Access denied. Required role: admin"))).
Proof.
  split.
  - intros r0 Hr0. split.
    + destruct r; simpl; now apply (proj1 (admin_only_refused _ _ _)).
    + destruct a as [| |[u|]]; simpl in Hr0;
        try (injection Hr0 as <-; reflexivity).
      destruct (isActive u); simpl in Hr0; [discriminate |].
      injection Hr0 as <-; reflexivity.
  - intros u Hu Hr.
    destruct r; simpl; now apply (proj2 (admin_only_refused _ _ _) u).
Qed.

(** ** What a request can do to the collection *)

Lemma delete_handler_effect (st : Store) (key : string) (u : User) :
  fst (delete_handler st key u) = st
  \/ exists e,
       st !! trim key = Some e /\ isEditable e = true
       /\ delete_handler st key u
          = (delete (trim key) st,
             respond 200 (Message "Configuration deleted successfully")).
Proof.
  unfold delete_handler.
  destruct (st !! trim key) as [e|] eqn:He; [| now left].
  destruct (isEditable e) eqn:Hed; simpl; [| now left].
  right. exists e. repeat split; auto.
Qed.

(** One round of the bulk loop. *)
Lemma bulk_step_store (userId : ObjectId) (s : bulk_state) (i : BulkItem.t) :
  store (bulk_step userId s i) = store s
  \/ exists e,
       store s !! trim (BulkItem.key i) = Some e /\ isEditable e = true
       /\ accepts e (BulkItem.value i) = true
       /\ store (bulk_step userId s i)
          = <[trim (BulkItem.key i)
              := with_value e (BulkItem.value i) userId]> (store s).
Proof.
  destruct (bulk_step_cases userId s i)
    as [[m ->] | (e & He & Hed & Hacc & ->)]; [now left |].
  right. exists e. repeat split; auto.
Qed.

Lemma bulk_loop_frame (userId : ObjectId) (items : list BulkItem.t)
  (s : bulk_state) (k : string) :
  ~ In k (List.map (fun i => trim (BulkItem.key i)) items) ->
  store (bulk_loop userId s items) !! k = store s !! k.
Proof.
  revert s. induction items as [| i items IH]; intros s Hk; [reflexivity |].
  rewrite bulk_loop_cons, IH by (simpl in Hk; tauto).
  destruct (bulk_step_store userId s i) as [-> | (e & _ & _ & _ & ->)];
    [reflexivity |].
  apply lookup_insert_ne. simpl in Hk. tauto.
Qed.

Lemma bulk_loop_settings (userId : ObjectId) (items : list BulkItem.t)
  (s : bulk_state) (k : string) (e : Configuration) :
  store s !! k = Some e ->
  exists e', store (bulk_loop userId s items) !! k = Some e'
             /\ same_settings e e'.
Proof.
  revert s e. induction items as [| i items IH]; intros s e He.
  - exists e. split; [exact He | apply same_settings_refl].
  - rewrite bulk_loop_cons.
    destruct (bulk_step_store userId s i) as [Hs | (e0 & He0 & _ & _ & Hs)].
    + apply IH. now rewrite Hs.
    + destruct (decide (trim (BulkItem.key i) = k)) as [Hk | Hk].
      * subst k. rewrite He in He0. injection He0 as <-.
        destruct (IH (bulk_step userId s i)
                     (with_value e (BulkItem.value i) userId))
          as (e' & He' & Hsame).
        { rewrite Hs. apply lookup_insert_eq. }
        exists e'. split; [exact He' |].
        eapply same_settings_trans;
          [apply same_settings_with_value | exact Hsame].
      * apply IH. rewrite Hs. now rewrite lookup_insert_ne.
Qed.

Lemma bulk_update_handler_store (st : Store) (items : list BulkItem.t)
  (u : User) :
  fst (bulk_update_handler st items u) = st
  \/ fst (bulk_update_handler st items u)
     = store (bulk_loop (_id u) (bulk_init st) items).
Proof.
  unfold bulk_update_handler. destruct (bulk_checks items); [| now left].
  now right.
Qed.

(** X2.  A request leaves every entry that it does not name as it is. *)
Theorem other_keys_untouched (st : Store) (a : Authorization) (r : request)
  (k : string) :
  ~ In k (named_keys r) -> fst (serve st a r) !! k = st !! k.
Proof.
  intros Hk. destruct r as [b | key b | key | items | key]; simpl in *.
  - destruct (post_create_effect st a b)
      as [[-> _] | (u & t & c & _ & _ & ->)]; [reflexivity |].
    apply lookup_insert_ne. tauto.
  - apply (admin_only_store (fun st' => st' !! k = st !! k));
      [reflexivity |]. intros u.
    destruct (update_handler_effect st key b u)
      as [[-> _] | (e & _ & _ & ->)]; [reflexivity |].
    apply lookup_insert_ne. tauto.
  - apply (admin_only_store (fun st' => st' !! k = st !! k));
      [reflexivity |]. intros u.
    destruct (delete_handler_effect st key u)
      as [-> | (e & _ & _ & ->)]; [reflexivity |].
    apply lookup_delete_ne. tauto.
  - apply (admin_only_store (fun st' => st' !! k = st !! k));
      [reflexivity |]. intros u.
    destruct (bulk_update_handler_store st items u) as [-> | ->];
      [reflexivity |].
    now apply bulk_loop_frame.
  - apply (admin_only_store (fun st' => st' !! k = st !! k));
      [reflexivity |]. intros u.
    destruct (reset_handler_effect st key u) as [[-> _] | (e & _ & ->)];
      [reflexivity |].
    apply lookup_insert_ne. tauto.
Qed.

(** A stored entry after one request. *)
Lemma serve_entry (st : Store) (a : Authorization) (r : request)
  (k : string) (e : Configuration) :
  st !! k = Some e ->
  (fst (serve st a r) = delete k st /\ isEditable e = true
   /\ exists key, r = Delete key /\ trim key = k)
  \/ exists e', fst (serve st a r) !! k = Some e' /\ same_settings e e'.
Proof.
  intros He.
  assert (Hkeep : exists e', st !! k = Some e' /\ same_settings e e')
    by (exists e; split; [exact He | apply same_settings_refl]).
  destruct r as [b | key b | key | items | key]; simpl.
  - right.
    destruct (post_create_effect st a b)
      as [[-> _] | (u & t & c & Hfree & _ & ->)]; [exact Hkeep |].
    exists e. split; [| apply same_settings_refl].
    rewrite lookup_insert_ne; [exact He |]. congruence.
  - right.
    apply (admin_only_store
             (fun st' => exists e', st' !! k = Some e' /\ same_settings e e'));
      [exact Hkeep |]. intros u.
    destruct (update_handler_effect st key b u)
      as [[-> _] | (e0 & He0 & _ & ->)]; [exact Hkeep |]. simpl.
    destruct (decide (trim key = k)) as [<- | Hne].
    + rewrite He in He0. injection He0 as <-. rewrite lookup_insert_eq.
      eexists. split; [reflexivity | apply same_settings_updated].
    + rewrite lookup_insert_ne by exact Hne. exact Hkeep.
  - unfold delete_key.
    destruct (admin_only_cases a st (delete_handler st key))
      as [(u & _ & ->) | (r & -> & _)]; [| now right].
    destruct (delete_handler_effect st key u)
      as [-> | (e0 & He0 & Hed & ->)]; [now right |]. simpl.
    destruct (decide (trim key = k)) as [<- | Hne].
    + left. rewrite He in He0. injection He0 as <-. eauto.
    + right. rewrite lookup_delete_ne by exact Hne. exact Hkeep.
  - right.
    apply (admin_only_store
             (fun st' => exists e', st' !! k = Some e' /\ same_settings e e'));
      [exact Hkeep |]. intros u.
    destruct (bulk_update_handler_store st items u) as [-> | ->];
      [exact Hkeep |].
    now apply bulk_loop_settings.
  - right.
    apply (admin_only_store
             (fun st' => exists e', st' !! k = Some e' /\ same_settings e e'));
      [exact Hkeep |]. intros u.
    destruct (reset_handler_effect st key u) as [[-> _] | (e0 & He0 & ->)];
      [exact Hkeep |]. simpl.
    destruct (decide (trim key = k)) as [<- | Hne].
    + rewrite He in He0. injection He0 as <-. rewrite lookup_insert_eq.
      eexists. split; [reflexivity | apply same_settings_with_value].
    + rewrite lookup_insert_ne by exact Hne. exact Hkeep.
Qed.

(** X3.  No request changes the type, the category, the validation rules,
    the default value or the editable flag of a stored entry: after one
    request the entry is still stored with these settings, or the request
    was the delete of this entry and the entry was editable. *)
Theorem settings_are_permanent (st : Store) (a : Authorization)
  (r : request) (k : string) (e : Configuration) :
  st !! k = Some e ->
  ((exists key, r = Delete key /\ trim key = k) /\ isEditable e = true
   /\ fst (serve st a r) !! k = None)
  \/ exists e', fst (serve st a r) !! k = Some e' /\ same_settings e e'.
Proof.
  intros He.
  destruct (serve_entry st a r k e He) as [(Hst & Hed & Hr) | Hkeep];
    [left | now right].
  repeat split; [exact Hr | exact Hed |]. rewrite Hst. apply lookup_delete_eq.
Qed.

(** X4.  An entry that is not editable is never removed and keeps its
    settings, whatever the requests and whoever sends them. *)
Theorem locked_entries_stay (rs : list (Authorization * request))
  (st : Store) (k : string) (e : Configuration) :
  st !! k = Some e -> isEditable e = false ->
  exists e', serve_all st rs !! k = Some e' /\ same_settings e e'.
Proof.
  revert st e. induction rs as [| [a r] rs IH]; intros st e He Hlocked.
  - exists e. split; [exact He | apply same_settings_refl].
  - simpl.
    destruct (serve_entry st a r k e He)
      as [(_ & Hed & _) | (e1 & He1 & Hsame)]; [congruence |].
    destruct (IH _ e1 He1) as (e' & He' & Hsame').
    { destruct Hsame as (_ & _ & _ & _ & ->). exact Hlocked. }
    exists e'. split; [exact He' |].
    eapply same_settings_trans; eassumption.
Qed.

End Requests.

Lemma only_admins_write_witness :
  serve seeded_store NoToken (Delete "maintenance_mode")
  = (seeded_store, respond 401 (Message "No token, authorization denied"))
  /\ serve seeded_store (Token (Some a_student)) (Delete "maintenance_mode")
     = (seeded_store,
        respond 403 (Message "Access denied. Required role: admin")).
Proof.
  split.
  - destruct (only_admins_write seeded_store NoToken
                (Delete "maintenance_mode")) as [H _].
    now destruct (H _ eq_refl) as [-> _].
  - destruct (only_admins_write seeded_store (Token (Some a_student))
                (Delete "maintenance_mode")) as [_ H].
    apply (H a_student); [reflexivity | discriminate].
Defined.

Lemma other_keys_untouched_witness :
  fst (serve seeded_store admin_token (Delete "assignment_late_penalty"))
    !! "theme_primary_color"
  = seeded_store !! "theme_primary_color".
Proof.
  apply (other_keys_untouched seeded_store admin_token
           (Delete "assignment_late_penalty") "theme_primary_color").
  simpl. intros [H | []]. vm_compute in H. discriminate.
Defined.

Lemma settings_are_permanent_witness :
  exists e',
    fst (serve (penalty_store edited_penalty) admin_token
           (Reset "assignment_late_penalty")) !! "assignment_late_penalty"
    = Some e'
    /\ same_settings edited_penalty e'.
Proof.
  destruct (settings_are_permanent (penalty_store edited_penalty) admin_token
              (Reset "assignment_late_penalty") "assignment_late_penalty"
              edited_penalty (penalty_store_lookup _))
    as [((key & H & _) & _) | H]; [discriminate | exact H].
Defined.

Lemma locked_entries_stay_witness :
  exists e',
    serve_all (penalty_store locked_penalty)
      [(admin_token, Delete "assignment_late_penalty");
       (admin_token, Reset "assignment_late_penalty")]
      !! "assignment_late_penalty" = Some e'
    /\ same_settings locked_penalty e'.
Proof.
  apply (locked_entries_stay
           [(admin_token, Delete "assignment_late_penalty");
            (admin_token, Reset "assignment_late_penalty")]
           (penalty_store locked_penalty) "assignment_late_penalty"
           locked_penalty (penalty_store_lookup _)).
  reflexivity.
Defined.

(** ** Creation and deletion *)

Section Creation.
Context {rt : Runtime}.

Lemma send_configuration_code (code : Z) (m key : string)
  (doc : Configuration) (on_error : exn -> response) :
  (forall x, status (on_error x) <> code) ->
  status (send_configuration code m key doc on_error) = code ->
  send_configuration code m key doc on_error
  = respond code (WithConfiguration m key doc)
  /\ is_Ok (formattedValue doc) = true.
Proof.
  unfold send_configuration. intros Herr.
  destruct (formattedValue doc) as [v|x]; [now split |].
  intros H. now apply Herr in H.
Qed.

Lemma save_new_Ok (st st' : Store) (key : string) (doc : Configuration) :
  save_new st key doc = Ok st' ->
  st !! trim key = None /\ st' = <[trim key := written doc]> st
  /\ schema_validate doc = Ok tt /\ accepts doc (value doc) = true.
Proof.
  unfold save_new.
  destruct (String.eqb (trim key) ""); [discriminate |].
  destruct (schema_validate doc) as [[]|x]; cbn [bind]; [| discriminate].
  pose proof (pre_save_accepts doc true) as Hpre.
  destruct (pre_save doc true); cbn [bind]; [| discriminate].
  destruct (st !! trim key); [discriminate |].
  intros [= <-]. simpl in Hpre. auto.
Qed.

Lemma create_handler_created (st : Store) (b : CreateBody.t) (u : User) :
  status (snd (create_handler st b u)) = 201 ->
  exists t c,
    type_of_name (CreateBody.type b) = Some t
    /\ category_of_name (CreateBody.category b) = Some c
    /\ st !! trim (CreateBody.key b) = None
    /\ create_handler st b u
       = (<[trim (CreateBody.key b)
            := written (new_Configuration b t c (_id u))]> st,
          respond 201
            (WithConfiguration "Configuration created successfully"
               (trim (CreateBody.key b)) (new_Configuration b t c (_id u))))
    /\ accepts (new_Configuration b t c (_id u)) (CreateBody.value b) = true
    /\ is_Ok (formattedValue (new_Configuration b t c (_id u))) = true.
Proof.
  unfold create_handler.
  destruct (create_checks b); [| discriminate].
  destruct (st !! trim (CreateBody.key b)); [discriminate |].
  destruct (type_of_name _) as [t|]; [| discriminate].
  destruct (category_of_name _) as [c|];
    [| simpl; discriminate].
  destruct (save_new st _ _) as [st'|x] eqn:Hsave.
  - destruct (save_new_Ok _ _ _ _ Hsave) as (Hfree & -> & _ & Hacc).
    cbn [snd]. intros Hst.
    apply send_configuration_code in Hst as [-> Hfmt].
    + exists t, c. repeat split; assumption.
    + apply create_error_status.
  - cbn [snd]. intros H. now apply create_error_status in H.
Qed.

(** X5.  Creation never touches a stored entry; and when it answers 201
    the caller is an admin, the trimmed key was free, the new entry is
    stored under it as the insert writes it, at version 1 with the caller
    as modifier, and the value of the request is accepted by the rules of
    the request. *)
Theorem create_outcome (st : Store) (a : Authorization) (b : CreateBody.t) :
  (forall k e, st !! k = Some e -> fst (post_create st a b) !! k = Some e)
  /\ (status (snd (post_create st a b)) = 201 ->
      exists u t c,
        let doc := new_Configuration b t c (_id u) in
        admin_caller a u
        /\ type_of_name (CreateBody.type b) = Some t
        /\ category_of_name (CreateBody.category b) = Some c
        /\ st !! trim (CreateBody.key b) = None
        /\ post_create st a b
           = (<[trim (CreateBody.key b) := written doc]> st,
              respond 201
                (WithConfiguration "Configuration created successfully"
                   (trim (CreateBody.key b)) doc))
        /\ version (written doc) = 1 /\ lastModifiedBy (written doc) = _id u
        /\ accepts doc (value doc) = true).
Proof.
  split.
  - intros k e He.
    destruct (post_create_effect st a b)
      as [[-> _] | (u & t & c & Hfree & _ & ->)]; [exact He |].
    rewrite lookup_insert_ne; [exact He | congruence].
  - unfold post_create. intros Hst.
    apply admin_only_status in Hst as Hadmin; [| discriminate ..].
    destruct Hadmin as (u & Hu & Heq). rewrite Heq in Hst |- *.
    destruct (create_handler_created st b u Hst)
      as (t & c & Ht & Hc & Hfree & Hrun & Hacc & _).
    exists u, t, c. cbv zeta.
    repeat split; first [assumption | reflexivity | apply Hu].
Qed.

(** X6.  Deleting an entry that was just created brings the collection
    back: after a creation answered 201 with [isEditable] not false, the
    delete of its key by an admin answers 200 and the collection is the one
    before the creation. *)
Theorem create_then_delete (st : Store) (a a' : Authorization) (u' : User)
  (b : CreateBody.t) :
  status (snd (post_create st a b)) = 201 ->
  CreateBody.isEditable b <> Some false ->
  admin_caller a' u' ->
  delete_key (fst (post_create st a b)) a' (CreateBody.key b)
  = (st, respond 200 (Message "Configuration deleted successfully")).
Proof.
  unfold post_create. intros Hst Hed Hu'.
  apply admin_only_status in Hst as Hadmin; [| discriminate ..].
  destruct Hadmin as (u & Hu & Heq). rewrite Heq in Hst |- *.
  destruct (create_handler_created st b u Hst)
    as (t & c & _ & _ & Hfree & -> & _).
  unfold delete_key. rewrite (admin_only_admin _ _ _ _ Hu').
  unfold delete_handler. cbn [fst]. rewrite lookup_insert_eq.
  assert (Hedit : isEditable (written (new_Configuration b t c (_id u)))
                  = true).
  { simpl. destruct (CreateBody.isEditable b) as [[|]|]; simpl; congruence. }
  rewrite Hedit. simpl. now rewrite delete_insert_id.
Qed.

Lemma delete_handler_deleted (st : Store) (key : string) (u : User) :
  status (snd (delete_handler st key u)) = 200 ->
  exists e, st !! trim key = Some e /\ isEditable e = true
            /\ fst (delete_handler st key u) = delete (trim key) st.
Proof.
  unfold delete_handler.
  destruct (st !! trim key) as [e|]; [| discriminate].
  destruct (isEditable e) eqn:Hed; simpl; [| discriminate].
  intros _. exists e. auto.
Qed.

(** X7.  After a delete answered 200 the entry is gone: the collection is
    the old one without it, and an update, a second delete and a reset of
    this key by an admin are answered 404 and change nothing. *)
Theorem deleted_key_is_gone (st : Store) (a a' : Authorization) (u' : User)
  (key : string) :
  status (snd (delete_key st a key)) = 200 ->
  admin_caller a' u' ->
  let st' := fst (delete_key st a key) in
  let not_found := respond 404 (Message "Configuration not found") in
  st' = delete (trim key) st
  /\ st' !! trim key = None
  /\ (forall b, update_checks b = [] -> put_key st' a' key b = (st', not_found))
  /\ delete_key st' a' key = (st', not_found)
  /\ post_reset st' a' key = (st', not_found).
Proof.
  intros Hst Hu'.
  assert (Hdel : fst (delete_key st a key) = delete (trim key) st).
  { unfold delete_key in *.
    apply admin_only_status in Hst as Hadmin; [| discriminate ..].
    destruct Hadmin as (u & Hu & Heq). rewrite Heq in Hst |- *.
    now destruct (delete_handler_deleted st key u Hst) as (e & _ & _ & ->). }
  cbv zeta. rewrite Hdel.
  assert (Hgone : delete (trim key) st !! trim key = None)
    by apply lookup_delete_eq.
  repeat split; [exact Hgone | ..].
  - intros b Hb. rewrite (put_key_admin _ _ _ _ _ Hu').
    unfold update_handler. now rewrite Hb, Hgone.
  - unfold delete_key. rewrite (admin_only_admin _ _ _ _ Hu').
    unfold delete_handler. now rewrite Hgone.
  - unfold post_reset. rewrite (admin_only_admin _ _ _ _ Hu').
    unfold reset_handler. now rewrite Hgone.
Qed.

End Creation.

Lemma create_outcome_witness :
  fst (post_create (color_store Seed.theme_primary_color) admin_token
         create_late_penalty)
    !! "theme_primary_color" = Some Seed.theme_primary_color
  /\ exists e,
       fst (post_create ∅ admin_token create_late_penalty)
         !! "assignment_late_penalty" = Some e
       /\ version e = 1 /\ lastModifiedBy e = 7%N.
Proof.
  destruct (create_outcome (color_store Seed.theme_primary_color)
              admin_token create_late_penalty) as [Hkeep _].
  split; [apply Hkeep, color_store_lookup |].
  destruct (create_outcome ∅ admin_token create_late_penalty) as [_ Hnew].
  destruct (Hnew eq_refl)
    as (u & t & c & [Hu _] & _ & _ & _ & Hrun & Hver & Hby & _).
  injection Hu as <-. rewrite Hrun. simpl.
  eexists.
  replace (trim "assignment_late_penalty") with "assignment_late_penalty"
    by reflexivity.
  rewrite lookup_insert_eq. split; [reflexivity |].
  split; [exact Hver | exact Hby].
Defined.

Lemma create_then_delete_witness :
  delete_key
    (fst (post_create (color_store Seed.theme_primary_color) admin_token
            create_late_penalty))
    admin_token "assignment_late_penalty"
  = (color_store Seed.theme_primary_color,
     respond 200 (Message "Configuration deleted successfully")).
Proof.
  apply (create_then_delete (color_store Seed.theme_primary_color)
           admin_token admin_token the_admin create_late_penalty);
    [reflexivity | discriminate | apply the_admin_caller].
Defined.

Lemma deleted_key_is_gone_witness :
  post_reset
    (fst (delete_key (penalty_store edited_penalty) admin_token
            "assignment_late_penalty"))
    admin_token "assignment_late_penalty"
  = (∅, respond 404 (Message "Configuration not found")).
Proof.
  destruct (deleted_key_is_gone (penalty_store edited_penalty) admin_token
              admin_token the_admin "assignment_late_penalty" eq_refl
              the_admin_caller) as (Hst & _ & _ & _ & Hreset).
  rewrite Hreset. f_equal; rewrite Hst; apply delete_singleton_eq.
Defined.

(** ** Visibility *)

Section Updates.
Context {rt : Runtime}.

Lemma update_handler_updated (st : Store) (key : string) (b : UpdateBody.t)
  (u : User) :
  status (snd (update_handler st key b u)) = 200 ->
  exists e,
    st !! trim key = Some e /\ isEditable e = true
    /\ update_handler st key b u
       = (<[trim key := updated e b (_id u)]> st,
          respond 200
            (WithConfiguration "Configuration updated successfully"
               (trim key) (updated e b (_id u))))
    /\ is_Ok (formattedValue (updated e b (_id u))) = true.
Proof.
  destruct (update_handler_effect st key b u)
    as [[_ Hno] | (e & He & Hed & Hrun)]; [contradiction |].
  rewrite Hrun. cbn [snd]. intros Hst.
  apply send_configuration_code in Hst as [-> Hfmt];
    [| apply update_error_status].
  exists e. auto.
Qed.

Lemma get_public_lookup (st : Store) (category : option string)
  (configObject : gmap string jsval) (k : string) :
  get_public st category = respond 200 (ConfigObject configObject) ->
  k <> "__proto__" ->
  forall c, st !! k = Some c ->
    (isPublic c = false -> configObject !! k = None)
    /\ (isPublic c = true -> selects category c ->
        exists v, formattedValue c = Ok v /\ configObject !! k = to_JSON v).
Proof.
  intros Hpub Hk c Hc.
  apply get_public_mapping in Hpub as (out & Hrun & ->).
  rewrite lookup_omap.
  pose proof (public_object st category out Hrun k) as Hlook.
  split.
  - intros Hp. destruct (out !! k) as [v|]; [| reflexivity].
    destruct (proj1 (Hlook v) eq_refl) as (_ & c' & Hc' & Hp' & _).
    congruence.
  - intros Hp Hsel.
    assert (Hok : is_Ok (forEach_assign (find (public_filter category) st) ∅)
                  = true) by now rewrite Hrun.
    rewrite public_object_is_Ok in Hok. specialize (Hok k c Hc Hp Hsel).
    destruct (formattedValue c) as [v|x] eqn:Hv; [| discriminate].
    exists v. split; [reflexivity |].
    assert (Hin : out !! k = Some v) by (apply Hlook; eauto 6).
    now rewrite Hin.
Qed.

(** X8.  The public endpoint follows the last update of [isPublic]: after
    an update answered 200 that sets it to false the entry is in no public
    mapping, whatever the category filter; after one that sets it to true
    the entry is in every public mapping whose filter selects it, with the
    JSON form of its formatted value (nothing is said about the key
    [__proto__]). *)
Theorem visibility_follows_update (st : Store) (a : Authorization)
  (key : string) (b : UpdateBody.t) (category : option string)
  (configObject : gmap string jsval) :
  status (snd (put_key st a key b)) = 200 ->
  get_public (fst (put_key st a key b)) category
  = respond 200 (ConfigObject configObject) ->
  trim key <> "__proto__" ->
  (UpdateBody.isPublic b = Some false -> configObject !! trim key = None)
  /\ (UpdateBody.isPublic b = Some true ->
      forall e', fst (put_key st a key b) !! trim key = Some e' ->
                 selects category e' ->
                 exists v, formattedValue e' = Ok v
                           /\ configObject !! trim key = to_JSON v).
Proof.
  unfold put_key. intros Hst Hpub Hk.
  apply admin_only_status in Hst as Hadmin; [| discriminate ..].
  destruct Hadmin as (u & Hu & Heq). rewrite Heq in Hst, Hpub |- *.
  destruct (update_handler_updated st key b u Hst)
    as (e & He & _ & Hrun & Hfmt).
  rewrite Hrun in Hpub |- *. cbn [fst] in *.
  destruct (get_public_lookup _ _ _ (trim key) Hpub Hk
              (updated e b (_id u)) (lookup_insert_eq _ _ _))
    as [Hhidden Hshown].
  split.
  - intros Hb. apply Hhidden. simpl. now rewrite Hb.
  - intros Hb e' He' Hsel.
    rewrite lookup_insert_eq in He'. injection He' as <-.
    apply Hshown; [| exact Hsel]. simpl. now rewrite Hb.
Qed.

(** ** Updates *)

Lemma notEmpty_string (p m s : string) :
  s <> "" -> notEmpty p m (VStr s) = [].
Proof.
  intros Hs. unfold notEmpty, empty_items. simpl.
  destruct (String.eqb_spec s ""); [contradiction | reflexivity].
Qed.

Lemma notEmpty_nil_iff (p m p' m' : string) (v : jsval) :
  notEmpty p m v = [] <-> notEmpty p' m' v = [].
Proof.
  unfold notEmpty. destruct (empty_items v); simpl; split; congruence.
Qed.

(** X9.  A bulk request with one item does to the collection what the
    update of that key with that value alone does. *)
Theorem bulk_item_is_update (st : Store) (a : Authorization) (k : string)
  (v : jsval) :
  k <> "" -> is_undefined v = false ->
  fst (post_bulk_update st a [bulk_item k v])
  = fst (put_key st a k (update_value v)).
Proof.
  intros Hk Hv. unfold post_bulk_update, put_key, admin_only.
  destruct (auth a) as [r|u]; [reflexivity |].
  destruct (authorize [admin] u); [reflexivity |].
  unfold bulk_update_handler, update_handler, bulk_checks, update_checks,
         optional, indexed. simpl.
  rewrite Hv, (notEmpty_string _ _ k Hk), !app_nil_r. simpl.
  destruct (notEmpty (item_path 0 "value") _ v) eqn:Hne.
  - apply (notEmpty_nil_iff _ _ "value" "Value cannot be empty") in Hne.
    rewrite Hne. unfold bulk_step. simpl.
    destruct (st !! trim k) as [e|]; [| reflexivity].
    destruct (isEditable e); simpl; [| reflexivity].
    destruct (validateValue e v) as [res|x]; [| reflexivity].
    destruct (isValid res); simpl; [| reflexivity].
    replace (updated e (update_value v) (_id u)) with (with_value e v (_id u))
      by (unfold updated, with_value; simpl; now rewrite Hv).
    now destruct (save st (trim k) e (with_value e v (_id u))).
  - destruct (notEmpty "value" _ v) eqn:Hne'; [| reflexivity].
    apply (notEmpty_nil_iff _ _ (item_path 0 "value")
             "Value is required for each configuration") in Hne'.
    congruence.
Qed.

(** X10.  An update that carries no value is not validated against the
    rules: on an editable entry (whose stored value holds no NaN, so that
    it equals itself) it is saved, with the stored value kept and the
    version raised, as soon as the request checks pass and the new document
    satisfies the schema, whether or not the stored value satisfies the
    rules. *)
Theorem update_without_value (st : Store) (a : Authorization) (u : User)
  (key : string) (b : UpdateBody.t) (e : Configuration) :
  admin_caller a u -> st !! trim key = Some e -> isEditable e = true ->
  deepEqual (value e) (value e) = true ->
  UpdateBody.value b = VUndefined -> update_checks b = [] ->
  schema_validate (updated e b (_id u)) = Ok tt ->
  fst (put_key st a key b) = <[trim key := updated e b (_id u)]> st
  /\ value (updated e b (_id u)) = value e
  /\ (safe_integer (version e) ->
      version (updated e b (_id u)) = version e + 1).
Proof.
  intros Hu He Hed Hself Hv Hb Hschema.
  rewrite (put_key_admin _ _ _ _ _ Hu). unfold update_handler.
  rewrite Hb, He, Hed, Hv. simpl.
  assert (Hsave : save st (trim key) e (updated e b (_id u))
                  = Ok (<[trim key := updated e b (_id u)]> st)).
  { unfold save. rewrite Hschema. cbn [bind].
    assert (Hsame : value_modified e (updated e b (_id u)) = false).
    { unfold value_modified, updated. simpl. rewrite Hv. simpl.
      now rewrite Hself. }
    now rewrite Hsame. }
  rewrite Hsave. simpl. rewrite Hv.
  repeat split. apply nearest_double_next.
Qed.

(** ** A [json] entry and text that is not JSON *)

(** X11.  A [json] entry takes any non-empty text: the update of an
    editable, schema-valid [json] entry with a non-empty string on which
    [JSON.parse] throws is saved at the next version and nevertheless
    answered 500; and if the entry is public, the public endpoint answers
    500 from then on for every filter that selects it. *)
Theorem json_text_is_not_checked (st : Store) (a : Authorization) (u : User)
  (key s : string) (e : Configuration) :
  admin_caller a u -> st !! trim key = Some e -> type e = TJson ->
  isEditable e = true -> schema_validate e = Ok tt ->
  s <> "" -> is_Ok (JSON_parse s) = false ->
  put_key st a key (update_value (VStr s))
  = (<[trim key := with_value e (VStr s) (_id u)]> st,
     respond 500 (Message "Server error while updating configuration"))
  /\ (isPublic e = true ->
      forall category, selects category e ->
        get_public (<[trim key := with_value e (VStr s) (_id u)]> st) category
        = respond 500
            (Message "Server error while fetching public configurations")).
Proof.
  intros Hu He Ht Hed Hschema Hs Hbad.
  assert (Hacc : accepts e (VStr s) = true).
  { unfold accepts, validateValue. rewrite Ht.
    destruct (validation e) as [vd|]; [| reflexivity]. simpl.
    destruct (String.eqb_spec s ""); [contradiction |].
    now rewrite andb_false_r. }
  assert (Hfmt : formattedValue (with_value e (VStr s) (_id u))
                 = JSON_parse s).
  { unfold formattedValue. simpl. now rewrite Ht. }
  split.
  - rewrite (put_key_admin _ _ _ _ _ Hu).
    unfold update_handler, update_checks, optional. simpl.
    rewrite (notEmpty_string _ _ s Hs). simpl. rewrite He, Hed. simpl.
    pose proof Hacc as Hres. unfold accepts in Hres.
    destruct (validateValue e (VStr s)) as [res|x]; [| discriminate].
    rewrite Hres. simpl.
    change (updated e (update_value (VStr s)) (_id u))
      with (with_value e (VStr s) (_id u)).
    rewrite (save_with_value_Ok st (trim key) e (VStr s) (_id u) Hschema
               eq_refl (or_intror Hacc)).
    unfold send_configuration. rewrite Hfmt.
    destruct (JSON_parse_cases s) as [[v Hp] | [m Hp]]; rewrite Hp in *;
      [discriminate | reflexivity].
  - intros Hp category Hsel.
    apply (get_public_throws _ category (trim key)
             (with_value e (VStr s) (_id u)));
      [apply lookup_insert_eq | exact Hp | exact Hsel |].
    now rewrite Hfmt.
Qed.

End Updates.

Lemma visibility_follows_update_witness :
  status (snd (put_key (penalty_store edited_penalty) admin_token
                 "assignment_late_penalty" hide)) = 200
  /\ get_public (fst (put_key (penalty_store edited_penalty) admin_token
                        "assignment_late_penalty" hide)) None
     = respond 200 (ConfigObject ∅)
  /\ (∅ : gmap string jsval) !! "assignment_late_penalty" = None.
Proof.
  assert (Hst : status (snd (put_key (penalty_store edited_penalty)
                               admin_token "assignment_late_penalty" hide))
                = 200) by reflexivity.
  assert (Hpub : get_public
                   (fst (put_key (penalty_store edited_penalty) admin_token
                           "assignment_late_penalty" hide)) None
                 = respond 200 (ConfigObject ∅)) by (vm_compute; reflexivity).
  split; [exact Hst |]. split; [exact Hpub |].
  apply (visibility_follows_update _ _ "assignment_late_penalty" _ _ _
           Hst Hpub); [discriminate | reflexivity].
Defined.

Lemma bulk_item_is_update_witness :
  fst (post_bulk_update (penalty_store edited_penalty) admin_token
         [bulk_item "assignment_late_penalty" (VNum (Fin 20 0))])
  = fst (put_key (penalty_store edited_penalty) admin_token
           "assignment_late_penalty" (update_value (VNum (Fin 20 0)))).
Proof.
  apply (bulk_item_is_update (penalty_store edited_penalty) admin_token
           "assignment_late_penalty" (VNum (Fin 20 0)));
    [discriminate | reflexivity].
Defined.

Lemma update_without_value_witness :
  accepts stuck_penalty (value stuck_penalty) = false
  /\ fst (put_key (penalty_store stuck_penalty) admin_token
            "assignment_late_penalty" (retag ["grading"]))
     = <["assignment_late_penalty" :=
           updated stuck_penalty (retag ["grading"]) 7%N]>
         (penalty_store stuck_penalty).
Proof.
  split; [reflexivity |].
  apply (update_without_value (penalty_store stuck_penalty) admin_token
           the_admin "assignment_late_penalty" (retag ["grading"])
           stuck_penalty the_admin_caller (penalty_store_lookup _));
    reflexivity.
Defined.

Lemma json_text_is_not_checked_witness :
  put_key (switches_store feature_switches) admin_token "feature_switches"
    (update_value (VStr "{oops"))
  = (<["feature_switches" := with_value feature_switches (VStr "{oops") 7%N]>
       (switches_store feature_switches),
     respond 500 (Message "Server error while updating configuration")).
Proof.
  apply (json_text_is_not_checked (switches_store feature_switches)
           admin_token the_admin "feature_switches" "{oops" feature_switches
           the_admin_caller (switches_store_lookup _));
    first [reflexivity | discriminate].
Defined.

(** ** A creation with a value that the new rules reject *)

Section Statics.
Context {rt : Runtime}.

Lemma create_checks_nil (b : CreateBody.t) :
  create_checks b = [] ->
  CreateBody.key b <> "" /\ is_nullish (CreateBody.value b) = false.
Proof.
  unfold create_checks. intros H.
  apply app_eq_nil in H as [Hk H]. apply app_eq_nil in H as [Hv _].
  split.
  - intros Hempty. rewrite Hempty in Hk. discriminate.
  - now apply notEmpty_not_nullish in Hv.
Qed.

(** X12.  The rules of a new entry are enforced by the pre-save hook only,
    whose error is not a ValidationError: a creation that passes the
    request checks and the schema, but whose value is rejected by
    [validateValue] under the rules of the request, is answered 500 and
    stores nothing. *)
Theorem create_rejected_value (st : Store) (a : Authorization) (u : User)
  (b : CreateBody.t) (t : ConfigType) (c : Category)
  (res : validation_result) :
  admin_caller a u -> create_checks b = [] ->
  st !! trim (CreateBody.key b) = None ->
  type_of_name (CreateBody.type b) = Some t ->
  category_of_name (CreateBody.category b) = Some c ->
  trim (CreateBody.key b) <> "" -> trim (CreateBody.description b) <> "" ->
  validateValue (new_Configuration b t c (_id u)) (CreateBody.value b)
  = Ok res ->
  isValid res = false ->
  post_create st a b
  = (st, respond 500 (Message "Server error while creating configuration")).
Proof.
  intros Hu Hb Hfree Ht Hc Hkey Hdesc Hval Hres.
  unfold post_create. rewrite (admin_only_admin _ _ _ _ Hu).
  unfold create_handler. rewrite Hb, Hfree, Ht, Hc.
  unfold save_new.
  destruct (String.eqb_spec (trim (CreateBody.key b)) ""); [contradiction |].
  assert (Hschema : schema_validate (new_Configuration b t c (_id u)) = Ok tt).
  { apply schema_validate_Ok. split; [| assumption].
    change (is_nullish (CreateBody.value b) = false).
    destruct (create_checks_nil b Hb) as [_ Hv].
    now destruct (CreateBody.value b). }
  rewrite Hschema. cbn [bind]. unfold pre_save.
  change (value (new_Configuration b t c (_id u))) with (CreateBody.value b).
  rewrite Hval. cbn [bind]. now rewrite Hres.
Qed.

(** ** The rules of an array entry *)

Lemma filter_nil_Forall {A : Type} (f : A -> bool) (l : list A) :
  List.filter f l = [] <-> Forall (fun x => f x = false) l.
Proof.
  induction l as [| x l IH]; simpl.
  - split; auto.
  - destruct (f x) eqn:Hx.
    + split; [discriminate |]. intros H. inversion H. congruence.
    + rewrite IH. split; [now constructor |]. now inversion 1.
Qed.

(** An element passes when it equals one of the options loosely; a string
    element, when it is one of them. *)
Lemma includes_spec (opts : list string) (x : jsval) :
  includes opts x = true <-> exists s, In s opts /\ loosely_equal x s = true.
Proof. unfold includes. apply existsb_exists. Qed.

Lemma includes_string (opts : list string) (s : string) :
  includes opts (VStr s) = true <-> In s opts.
Proof.
  rewrite includes_spec. simpl. split.
  - intros (o & Hin & Heq). apply String.eqb_eq in Heq. now subst.
  - intros Hin. exists s. split; [exact Hin | apply String.eqb_refl].
Qed.


(** ** The statics of the model *)

Lemma key_order_total : Total key_order.
Proof. intros a b. apply String.leb_total. Qed.

Lemma leb_ne_ltb (s1 s2 : string) :
  String.leb s1 s2 = true -> s1 <> s2 -> String.ltb s1 s2 = true.
Proof.
  unfold String.leb, String.ltb. intros Hle Hne.
  destruct (String.compare s1 s2) eqn:Hc; try discriminate; [| reflexivity].
  now apply String.compare_eq_iff in Hc.
Qed.

Lemma Sorted_NoDup_strict (l : list (string * Configuration)) :
  Sorted key_order l -> NoDup l.*1 ->
  Sorted (fun a b => String.ltb (fst a) (fst b) = true) l.
Proof.
  induction 1 as [| x l Hl IH Hx]; intros Hnd; [constructor |].
  apply NoDup_cons in Hnd as [Hnotin Hnd].
  constructor; [now apply IH |].
  destruct Hx as [| y l Hxy]; constructor.
  apply leb_ne_ltb; [exact Hxy |].
  intros Heq. apply Hnotin. simpl. rewrite Heq. left.
Qed.

(** X14.  [getByCategory] returns the entries of the category, the public
    ones only unless [includePrivate] is truthy, each once and in strictly
    increasing order of the keys. *)
Theorem getByCategory_sorted (st : Store) (category : string)
  (includePrivate : jsval) :
  Sorted (fun a b => String.ltb (fst a) (fst b) = true)
         (getByCategory st category includePrivate)
  /\ forall k c,
       (k, c) ∈ getByCategory st category includePrivate <->
       st !! k = Some c /\ category_name (Model.category c) = category
       /\ (ToBoolean includePrivate = true \/ isPublic c = true).
Proof.
  unfold getByCategory.
  set (f := fun c : Configuration => _ && _).
  pose proof (merge_sort_Permutation key_order (find f st)) as Hperm.
  split.
  - apply Sorted_NoDup_strict.
    + apply (@Sorted_merge_sort _ key_order _ key_order_total).
    + rewrite Hperm. apply NoDup_find.
  - intros k c. rewrite Hperm, find_spec. subst f. cbv beta.
    rewrite andb_true_iff, String.eqb_eq.
    assert (Hip : ToBoolean (if is_undefined includePrivate
                             then VBool false else includePrivate)
                  = ToBoolean includePrivate)
      by now destruct includePrivate.
    rewrite Hip. destruct (ToBoolean includePrivate); simpl; intuition.
    discriminate.
Qed.

Lemma formattedValue_ext (e e' : Configuration) :
  type e = type e' -> value e = value e' ->
  formattedValue e = formattedValue e'.
Proof. unfold formattedValue. now intros -> ->. Qed.

(** X15.  What [setValue] stores, [getValue] reads back in the form of the
    entry's type, and nothing else changes: after a [setValue] that returns,
    the entry existed, the value was accepted by its rules, [getValue] of
    the key is the formatted form of the new value, [getValue] of every
    other entry is what it was, and the entry has the next version, the
    given modifier and its old settings.  The editable flag is not
    consulted. *)
Theorem setValue_then_getValue (st st' : Store) (key : string) (v d : jsval)
  (userId : ObjectId) (opt_description : option string)
  (opt_tags : option (list string)) :
  setValue st key v userId opt_description opt_tags = Ok st' ->
  exists e e',
    st !! trim key = Some e /\ accepts e v = true
    /\ st' = <[trim key := e']> st
    /\ getValue st' key d = formattedValue (with_value e v userId)
    /\ (forall k, trim k <> trim key -> getValue st' k d = getValue st k d)
    /\ version e' = nearest_double (version e + 1)
    /\ lastModifiedBy e' = userId
    /\ same_settings e e'.
Proof.
  unfold setValue. destruct (st !! trim key) as [e|] eqn:He; [| discriminate].
  destruct (validateValue e v) as [res|x] eqn:Hval; cbn [bind];
    [| discriminate].
  destruct (isValid res) eqn:Hres; simpl; [| discriminate].
  intros Hsave. apply save_Ok in Hsave. subst st'.
  eexists e, _. split; [reflexivity |].
  split; [unfold accepts; now rewrite Hval |].
  split; [reflexivity |]. unfold getValue. split.
  - rewrite lookup_insert_eq. now apply formattedValue_ext.
  - split; [| repeat split].
    intros k Hk. rewrite lookup_insert_ne; [reflexivity | congruence].
Qed.

End Statics.

Lemma create_rejected_value_witness :
  post_create ∅ admin_token create_widgets
  = (∅, respond 500 (Message "Server error while creating configuration")).
Proof.
  apply (create_rejected_value ∅ admin_token the_admin create_widgets
           TArray ui (report ["Invalid options: clock"]) the_admin_caller);
    first [reflexivity | discriminate].
Defined.


Example getByCategory_examples :
  getByCategory seeded_store "system" VUndefined
  = [("maintenance_mode", Seed.maintenance_mode)]
  /\ getByCategory seeded_store "ui" VUndefined
     = [("theme_primary_color", Seed.theme_primary_color)].
Proof. split; vm_compute; reflexivity. Qed.

Lemma setValue_then_getValue_witness :
  exists st',
    setValue (penalty_store locked_penalty) "assignment_late_penalty"
      (VStr "20") 7%N None None = Ok st'
    /\ getValue st' "assignment_late_penalty" VUndefined
       = Ok (VNum (Fin 20 0)).
Proof.
  destruct (setValue (penalty_store locked_penalty) "assignment_late_penalty"
              (VStr "20") 7%N None None) as [st'|x] eqn:Hset;
    [| vm_compute in Hset; discriminate].
  exists st'. split; [reflexivity |].
  destruct (setValue_then_getValue _ _ "assignment_late_penalty" _ VUndefined
              _ _ _ Hset)
    as (e & e' & He & _ & _ & Hget & _).
  replace (trim "assignment_late_penalty") with "assignment_late_penalty"
    in He by reflexivity.
  rewrite penalty_store_lookup in He. injection He as <-.
  rewrite Hget. reflexivity.
Defined.

(** ** The modifier of a written entry *)

Section Stamps.
Context {rt : Runtime}.

Lemma bulk_loop_stamp (userId : ObjectId) (items : list BulkItem.t)
  (s : bulk_state) (k : string) :
  store (bulk_loop userId s items) !! k = store s !! k
  \/ exists e', store (bulk_loop userId s items) !! k = Some e'
                /\ lastModifiedBy e' = userId.
Proof.
  revert s. induction items as [| i items IH]; intros s; [now left |].
  rewrite bulk_loop_cons.
  destruct (IH (bulk_step userId s i)) as [Hsame | Hstamp]; [| now right].
  rewrite Hsame.
  destruct (bulk_step_store userId s i) as [-> | (e & _ & _ & _ & ->)];
    [now left |].
  destruct (decide (trim (BulkItem.key i) = k)) as [<- | Hne].
  - right. rewrite lookup_insert_eq. eexists. split; reflexivity.
  - left. now rewrite lookup_insert_ne.
Qed.

(** X16.  An entry that a request has written names the caller: if the
    entry under a key is not what it was before the request, and is still
    there, then the caller passed as an admin and is the entry's
    [lastModifiedBy]. *)
Theorem writes_name_the_caller (st : Store) (a : Authorization)
  (r : request) (k : string) (e' : Configuration) :
  fst (serve st a r) !! k = Some e' ->
  fst (serve st a r) !! k <> st !! k ->
  exists u, admin_caller a u /\ lastModifiedBy e' = _id u.
Proof.
  assert (Hcases :
    (exists u, admin_caller a u
               /\ forall h, admin_only a st h = h u)
    \/ forall h, fst (admin_only a st h) = st).
  { unfold admin_only, admin_caller.
    destruct (auth a) as [r0|u]; [now right |].
    unfold authorize. destruct (role u) eqn:Hr; simpl; try (now right).
    left. exists u. auto. }
  destruct Hcases as [(u & Hu & Hrun) | Hrefused].
  2: { intros _ Hne. exfalso. apply Hne.
       destruct r; simpl; unfold post_create, put_key, delete_key,
         post_bulk_update, post_reset; now rewrite Hrefused. }
  intros He' Hne. exists u. split; [exact Hu |].
  destruct r as [b | key b | key | items | key]; simpl in He', Hne.
  - unfold post_create in He', Hne. rewrite Hrun in He', Hne.
    unfold create_handler in He', Hne.
    destruct (create_checks b); [| simpl in Hne; congruence].
    destruct (st !! trim (CreateBody.key b)) eqn:Hfree;
      [simpl in Hne; congruence |].
    destruct (type_of_name _) as [t0|]; [| simpl in Hne; congruence].
    destruct (category_of_name _) as [c0|]; [| simpl in Hne; congruence].
    destruct (save_new st _ _) as [st'|x] eqn:Hsave;
      [| simpl in Hne; congruence].
    apply save_new_Ok in Hsave as (_ & -> & _). cbn [fst] in He', Hne.
    destruct (decide (trim (CreateBody.key b) = k)) as [<- | Hk].
    + rewrite lookup_insert_eq in He'. now injection He' as <-.
    + rewrite lookup_insert_ne in Hne by exact Hk. congruence.
  - unfold put_key in He', Hne. rewrite Hrun in He', Hne.
    destruct (update_handler_effect st key b u)
      as [[Hst _] | (e & _ & _ & Hst)];
      rewrite Hst in He', Hne; [congruence |]. cbn [fst] in *.
    destruct (decide (trim key = k)) as [<- | Hk].
    + rewrite lookup_insert_eq in He'. now injection He' as <-.
    + rewrite lookup_insert_ne in Hne by exact Hk. congruence.
  - unfold delete_key in He', Hne. rewrite Hrun in He', Hne.
    destruct (delete_handler_effect st key u)
      as [Hst | (e & _ & _ & Hst)];
      rewrite Hst in He', Hne; [congruence |]. cbn [fst] in *.
    destruct (decide (trim key = k)) as [<- | Hk].
    + now rewrite lookup_delete_eq in He'.
    + rewrite lookup_delete_ne in Hne by exact Hk. congruence.
  - unfold post_bulk_update in He', Hne. rewrite Hrun in He', Hne.
    destruct (bulk_update_handler_store st items u) as [Hst | Hst];
      rewrite Hst in He', Hne; [congruence |].
    destruct (bulk_loop_stamp (_id u) items (bulk_init st) k)
      as [Hsame | (e1 & He1 & Hby)]; [now rewrite Hsame in Hne |].
    congruence.
  - unfold post_reset in He', Hne. rewrite Hrun in He', Hne.
    destruct (reset_handler_effect st key u)
      as [[Hst _] | (e & _ & Hst)];
      rewrite Hst in He', Hne; [congruence |]. cbn [fst] in *.
    destruct (decide (trim key = k)) as [<- | Hk].
    + rewrite lookup_insert_eq in He'. now injection He' as <-.
    + rewrite lookup_insert_ne in Hne by exact Hk. congruence.
Qed.

(** ** The seeding script *)

Lemma seed_loop_keeps (l : list (string * Configuration)) (st : Store)
  (k : string) (e : Configuration) :
  st !! k = Some e -> fst (seed_loop l st) !! k = Some e.
Proof.
  revert st. induction l as [| [key c] l IH]; intros st He; [exact He |].
  simpl. destruct (st !! trim key); [now apply IH |].
  destruct (save_new st key c) as [st'|x] eqn:Hsave; [| exact He].
  apply IH. destruct (save_new_Ok _ _ _ _ Hsave) as (Hfree & -> & _).
  rewrite lookup_insert_ne; [exact He | congruence].
Qed.

Lemma seed_loop_fixed (l : list (string * Configuration)) (st : Store) :
  fst (seed_loop l (fst (seed_loop l st))) = fst (seed_loop l st).
Proof.
  revert st. induction l as [| [key c] l IH]; intros st; [reflexivity |].
  cbn [seed_loop].
  destruct (st !! trim key) as [e|] eqn:He.
  - (* skipped in the first run, and so in the second *)
    rewrite (seed_loop_keeps l st (trim key) e He). apply IH.
  - destruct (save_new st key c) as [st1|x] eqn:Hsave.
    + (* saved in the first run, found by the second *)
      destruct (save_new_Ok _ _ _ _ Hsave) as (Hfree & -> & _).
      rewrite (seed_loop_keeps l _ (trim key) (written c)
                 (lookup_insert_eq _ _ _)).
      apply IH.
    + (* thrown in the first run, and thrown again *)
      cbn [fst]. now rewrite He, Hsave.
Qed.

Lemma fst_pair {A B : Type} (a : A) (b : B) : fst (a, b) = a.
Proof. reflexivity. Qed.

Lemma seedConfigurations_Some (userId : ObjectId) (st : Store) :
  seedConfigurations (Some userId) st
  = (fst (seed_loop (defaultConfigurations userId) st), 0).
Proof. reflexivity. Qed.

(** X17.  The seeding script never touches an entry that exists, and
    running it again changes nothing. *)
Theorem seeding_is_idempotent (adminUser : option ObjectId) (st : Store) :
  (forall k e, st !! k = Some e ->
               fst (seedConfigurations adminUser st) !! k = Some e)
  /\ seedConfigurations adminUser (fst (seedConfigurations adminUser st))
     = seedConfigurations adminUser st.
Proof.
  destruct adminUser as [userId|];
    [| split; [intros k e He; exact He | reflexivity]].
  rewrite !seedConfigurations_Some, !fst_pair. split.
  - intros k e. apply seed_loop_keeps.
  - rewrite seed_loop_fixed. reflexivity.
Qed.

End Stamps.

Lemma writes_name_the_caller_witness :
  exists u, admin_caller admin_token u
            /\ lastModifiedBy (with_value locked_penalty (VNum (Fin 10 0)) 7%N)
               = _id u.
Proof.
  apply (writes_name_the_caller (penalty_store locked_penalty) admin_token
           (Reset "assignment_late_penalty") "assignment_late_penalty").
  - vm_compute. reflexivity.
  - vm_compute. discriminate.
Defined.

(** X18.  With the reference runtime, on an empty collection the script
    stores the 23 entries of [defaultConfigurations], each under its key
    and as listed, and exits with 0; the public endpoint then answers with
    exactly the configurations the frontend falls back to when the endpoint
    cannot be reached. *)
Theorem seeding_a_fresh_collection (userId : ObjectId) :
  seedConfigurations (Some userId) ∅
  = (list_to_map (defaultConfigurations userId), 0)
  /\ List.length (defaultConfigurations userId) = 23%nat
  /\ get_public (list_to_map (defaultConfigurations userId)) None
     = respond 200 (ConfigObject fallback_configurations).
Proof.
  split; [| split].
  - vm_cast_no_check
      (eq_refl (list_to_map (defaultConfigurations userId) : Store, 0)).
  - vm_compute. reflexivity.
  - vm_cast_no_check
      (eq_refl (respond 200 (ConfigObject fallback_configurations))).
Qed.

